(** * ReadyOrNot: the audit pipeline (agents, orchestrator, scoring)

    A shallow embedding of the TypeScript sources

      - agents/scoringAgent.ts       ([runScoringAgent])
      - agents/securityAgent.ts      ([runSecurityAgent])
      - agents/dependencyAgent.ts    ([runDependencyAgent])
      - agents/complianceAgent.ts    ([runComplianceAgent])
      - agents/aiRiskAgent.ts        ([runAiRiskAgent])
      - agents/architectureAgent.ts  ([runArchitectureAgent])
      - orchestrator/agentOrchestrator.ts ([runAudit])

    JavaScript strings are sequences of UTF-16 code units and are modelled
    as [list N]; JavaScript numbers that count things (line numbers, array
    lengths, the score) stay far below 2^53 and are modelled by [nat] and
    [Z].  What the sources obtain from the platform (the regular-expression
    engine, the TypeScript parser, [JSON.parse], the clock, the room on the
    call stack for the recursive visitors) is the interface [Host]. *)

From Stdlib Require Import ZArith String Ascii Floats.
From stdpp Require Import base tactics option list numbers sorting gmap pretty.

Local Open Scope Z_scope.
#[local] Set Warnings "-register-all".

(** ** JavaScript strings *)

Abbreviation jsstring := (list N).

(** A source literal, as code units. *)
Definition js (s : string) : jsstring :=
  (fun a : ascii => N_of_ascii a) <$> list_ascii_of_string s.

Definition newline : N := 10%N.

(** [s.substring(0, end)]: the end index is clamped to the length. *)
Definition substring0 (s : jsstring) (stop : nat) : jsstring := take stop s.

(** [s.split('\n')], scanning left to right; [cur] holds the code units of
    the piece being read, last one first. *)
Fixpoint split_from (cur : jsstring) (s : jsstring) : list jsstring :=
  match s with
  | [] => [rev cur]
  | c :: rest =>
      if N.eqb c newline then rev cur :: split_from [] rest
      else split_from (c :: cur) rest
  end.

Definition split_newline (s : jsstring) : list jsstring := split_from [] s.

(** [s.endsWith(suffix)] *)
Definition endsWith (s suffix : jsstring) : bool :=
  bool_decide (drop (length s - length suffix)%nat s = suffix).

(** ** The data model (types/vulnerability.ts) *)

(** Modelled from the spec: the declarations of types/vulnerability.ts, which
    is not among the sources.  Severity is the closed three-value enum of
    section 3; its values are the literals ['ERROR'], ['WARNING'] and ['INFO']
    that the agents write and [runScoringAgent] compares with.  The records
    have the fields of the object literals that the agents, the orchestrator
    and extension.ts build. *)
Inductive Severity := ERROR | WARNING | INFO.

#[global] Instance Severity_eq_dec : EqDecision Severity.
Proof. solve_decision. Defined.

Record Vulnerability := {
  id : jsstring;
  title : jsstring;
  severity : Severity;
  file : jsstring;
  line : nat;
  description : jsstring;
  recommendation : jsstring;
  agentSource : jsstring
}.

Record WorkspaceFile := {
  uri : jsstring;
  fsPath : jsstring;
  content : jsstring
}.

(** The two values ['GO'] and ['NO-GO'] of [decision]. *)
Inductive Verdict := GO | NO_GO.

Record ScoreDetails := {
  totalVulnerabilities : Z;
  errorCount : Z;
  warningCount : Z;
  infoCount : Z;
  finalScore : Z;
  decision : Verdict
}.

Record FinalAuditReport := {
  vulnerabilities : list Vulnerability;
  scoreDetails : ScoreDetails;
  timestamp : jsstring
}.

(** ** Scoring agent (agents/scoringAgent.ts) *)

(** The three counters of [runScoringAgent]. *)
Record Counters := { errors : Z; warnings : Z; infos : Z }.

(** One turn of the loop [for (const v of vulnerabilities)]. *)
Definition tally (c : Counters) (v : Vulnerability) : Counters :=
  if decide (severity v = ERROR)
  then {| errors := errors c + 1; warnings := warnings c; infos := infos c |}
  else if decide (severity v = WARNING)
  then {| errors := errors c; warnings := warnings c + 1; infos := infos c |}
  else {| errors := errors c; warnings := warnings c; infos := infos c + 1 |}.

Definition countSeverities (vs : list Vulnerability) : Counters :=
  foldl tally {| errors := 0; warnings := 0; infos := 0 |} vs.

(** [runScoringAgent]; [now] is the value of [new Date().toISOString()]. *)
Definition runScoringAgent (now : jsstring) (vs : list Vulnerability)
  : FinalAuditReport :=
  let c := countSeverities vs in
  let score := 100 in
  let score := score - errors c * 25 in
  let score := score - warnings c * 10 in
  let score := score - infos c * 2 in
  let score := Z.max 0 score in
  let verdict :=
    if (0 <? errors c) || (score <? 50) then NO_GO else GO in
  {| vulnerabilities := vs;
     scoreDetails :=
       {| totalVulnerabilities := Z.of_nat (length vs);
          errorCount := errors c;
          warningCount := warnings c;
          infoCount := infos c;
          finalScore := score;
          decision := verdict |};
     timestamp := now |}.

(** ** The specification's vocabulary for the score *)

Definition clamp (x lo hi : Z) : Z := Z.min hi (Z.max lo x).

(** Number of findings of one severity. *)
Definition countOf (s : Severity) (vs : list Vulnerability) : Z :=
  Z.of_nat (length (filter (fun v => severity v = s) vs)).

(** ** Completions and the agents' effects *)

(** What a [throw] carries; the agents never inspect it.  [RangeError] is
    what the engine throws when the call stack is exhausted. *)
Inductive JsError := SyntaxError | TypeError | RangeError | OtherError.

(** The outcome of evaluating an expression or a call: a value, or an
    exception on its way up. *)
Inductive Completion (A : Type) : Type :=
  | Normal (a : A)
  | Throw (e : JsError).
Arguments Normal {A} a.
Arguments Throw {A} e.

#[global] Instance Completion_ret : MRet Completion := fun A a => Normal a.
#[global] Instance Completion_bind : MBind Completion := fun A B k m =>
  match m with
  | Normal a => k a
  | Throw e => Throw e
  end.

(** Code inside an agent: it reads and extends the array [findings] of the
    enclosing call and completes normally or throws.  What was pushed before
    a [throw] stays in the array. *)
Definition Agent (A : Type) : Type :=
  list Vulnerability -> Completion A * list Vulnerability.

#[global] Instance Agent_ret : MRet Agent := fun A a findings =>
  (Normal a, findings).
#[global] Instance Agent_bind : MBind Agent := fun A B k m findings =>
  match m findings with
  | (Normal a, findings') => k a findings'
  | (Throw e, findings') => (Throw e, findings')
  end.

(** [findings.push(v)] *)
Definition push (v : Vulnerability) : Agent unit := fun findings =>
  (Normal tt, findings ++ [v]).

(** An expression evaluated inside an agent. *)
Definition eval_in {A} (c : Completion A) : Agent A := fun findings =>
  (c, findings).

(** [try { body } catch (e) { handler }] *)
Definition tryCatch {A} (body : Agent A) (handler : JsError -> Agent A)
  : Agent A := fun findings =>
  match body findings with
  | (Normal a, findings') => (Normal a, findings')
  | (Throw e, findings') => handler e findings'
  end.

(** [for (const x of xs) { body }]; a [continue] ends the body. *)
Fixpoint forOf {A} (xs : list A) (body : A -> Agent unit) : Agent unit :=
  match xs with
  | [] => mret tt
  | x :: rest => body x ≫= fun _ => forOf rest body
  end.

(** [const findings = []; ...; return findings;] *)
Definition returning_findings (body : Agent unit)
  : Completion (list Vulnerability) :=
  match body [] with
  | (Normal _, findings) => Normal findings
  | (Throw e, _) => Throw e
  end.

(** ** The platform *)

(** The regular expressions the agents build, by the name of the constant
    that holds them. *)
Inductive Pattern :=
  | secretRegex | debugRegex                (* securityAgent.ts *)
  | piiRegex | basicLoggingRule             (* complianceAgent.ts *)
  | promptInjectionRegex                    (* aiRiskAgent.ts *)
  | serverDbImports.                        (* architectureAgent.ts *)

(** A result of [RegExp.prototype.exec]: [match.index] and the captures,
    [match[0]] first. *)
Record RegExpMatch := { index : nat; captures : list jsstring }.

(** [match[i]] inside a template literal. *)
Definition capture (m : RegExpMatch) (i : nat) : jsstring :=
  default (js "undefined") (captures m !! i).

(** What the visitor of the security agent looks at in a [ts.Node]:
    - a call expression, with the text of its callee when
      [ts.isIdentifier(node.expression)];
    - a JSX attribute, with [node.name.getText(sourceFile)];
    - any other node;
    together with [node.getStart(sourceFile)] and the children in the order
    of [ts.forEachChild]. *)
Inductive SyntaxKind :=
  | CallExpression (callee : option jsstring)
  | JsxAttribute (name : jsstring)
  | OtherKind.

Inductive Node := mkNode (kind : SyntaxKind) (start : nat) (children : list Node).

(** A value produced by [JSON.parse], or [undefined]. *)
Inductive JsValue :=
  | JUndefined
  | JNull
  | JBoolean (b : bool)
  | JNumber (x : float)
  | JString (s : jsstring)
  | JArray (items : list JsValue)
  | JObject (props : list (jsstring * JsValue)).

(** The platform the agents run on.
    - [execAll p s]: the matches that the loop
      [p.lastIndex = 0; while ((match = p.exec(s)) !== null) ...] goes
      through, in order.  Every pattern of the sources consumes at least one
      code unit per match, so the loop ends after finitely many of them.
    - [createSourceFile path text]: [ts.createSourceFile(path, text,
      ts.ScriptTarget.Latest, true)].
    - [lineOfPosition sf pos]: the [line] of
      [sf.getLineAndCharacterOfPosition(pos)].
    - [JSON_parse]: [JSON.parse].
    - [isoNow]: [new Date().toISOString()].
    - [callStackSize]: how many calls of a visitor closure, nested in one
      another through [ts.forEachChild], the call stack of the engine holds
      at the place where the closure is first called; one more nested call
      throws [RangeError] (maximum call stack size exceeded). *)
Class Host := {
  execAll : Pattern -> jsstring -> list RegExpMatch;
  createSourceFile : jsstring -> jsstring -> Completion Node;
  lineOfPosition : Node -> nat -> nat;
  JSON_parse : jsstring -> Completion JsValue;
  isoNow : jsstring;
  callStackSize : nat
}.

(** ** Helpers shared by the agents *)

(** Case folding of the [i] flag on code units: without the [u] flag only
    the ASCII letters are identified with one another. *)
Definition asciiLower (c : N) : N :=
  if ((65 <=? c) && (c <=? 90))%N then (c + 32)%N else c.

(** [path.match(/\.(e1|e2|...)$/i)] is not [null]: the path ends in a dot
    and one of the extensions, letter case ignored. *)
Definition matchesExtension (exts : list jsstring) (path : jsstring) : bool :=
  existsb (fun e => endsWith (asciiLower <$> path) (js "." ++ e)) exts.

(** [file.content.substring(0, match.index).split('\n').length], the
    expression every agent uses to turn a match offset into a line number. *)
Definition lineOfOffset (text : jsstring) (offset : nat) : nat :=
  length (split_newline (substring0 text offset)).

(** The loop [p.lastIndex = 0; while ((match = p.exec(text)) !== null)
    { body }]. *)
Definition whileExec `{Host} (p : Pattern) (text : jsstring)
    (body : RegExpMatch -> Agent unit) : Agent unit :=
  forOf (execAll p text) body.

(** ** Security agent (agents/securityAgent.ts) *)

Definition evalFinding (path : jsstring) (ln : nat) : Vulnerability :=
  {| id := js "eval-usage";
     title := js "Unsafe eval() Execution";
     severity := ERROR;
     file := path;
     line := ln;
     description := js "Usage of eval() detected, which makes your application susceptible to remote code execution (RCE).";
     recommendation := js "Replace eval() with safe parsers like JSON.parse() or dedicated string formatters.";
     agentSource := js "SecurityAgent" |}.

Definition innerHtmlFinding (path : jsstring) (ln : nat) : Vulnerability :=
  {| id := js "dangerously-set-inner-html";
     title := js "XSS Vector: dangerouslySetInnerHTML";
     severity := ERROR;
     file := path;
     line := ln;
     description := js "Found dangerouslySetInnerHTML property natively rendering unfiltered raw HTML to the DOM.";
     recommendation := js "Refactor to standard React properties or securely sanitize input using DOMPurify before setting dangerously.";
     agentSource := js "SecurityAgent" |}.

Definition secretFinding (path : jsstring) (ln : nat) : Vulnerability :=
  {| id := js "env-isolation";
     title := js "Hardcoded Secret Key";
     severity := ERROR;
     file := path;
     line := ln;
     description := js "Potential production key, API token, or secret hardcoded directly into source file.";
     recommendation := js "Move credentials into .env.local ignored files and access them dynamically via process.env.";
     agentSource := js "SecurityAgent" |}.

Definition debugFinding (path : jsstring) (ln : nat) : Vulnerability :=
  {| id := js "debug-exposure";
     title := js "Data Leak (Debug Mode)";
     severity := WARNING;
     file := path;
     line := ln;
     description := js "Identified explicitly exposed debug endpoints or unsafe logging of sensitive tokens.";
     recommendation := js "Wipe all development debug toggles and internal test routes before pushing to production branches.";
     agentSource := js "SecurityAgent" |}.

(** [ts.isCallExpression(node) && ts.isIdentifier(node.expression) &&
    node.expression.text === 'eval'] *)
Definition isEvalCall (k : SyntaxKind) : bool :=
  match k with
  | CallExpression (Some t) => bool_decide (t = js "eval")
  | _ => false
  end.

(** [ts.isJsxAttribute(node) && node.name.getText(sourceFile) ===
    'dangerouslySetInnerHTML'] *)
Definition isInnerHtmlAttribute (k : SyntaxKind) : bool :=
  match k with
  | JsxAttribute n => bool_decide (n = js "dangerouslySetInnerHTML")
  | _ => false
  end.

(** The closure [visit]; [astParsedKeys] is the set it adds to.  The
    closure calls itself through [ts.forEachChild], one call deeper for every
    level of the tree, inside the [try] block.  [stack] is the number of
    nested calls of it that the call stack still holds: the call after the
    last of them throws [RangeError], and what was pushed until then stays in
    [findings].  The other calls made on a parsed tree (the type guards,
    [getStart], [getLineAndCharacterOfPosition]) return.  The set is written
    and never read; what it holds after a [throw] is not followed. *)
Fixpoint visit `{Host} (sourceFile : Node) (path : jsstring) (stack : nat)
    (node : Node) (astParsedKeys : gset jsstring) {struct node}
  : Agent (gset jsstring) :=
  match stack with
  | O => eval_in (Throw RangeError)
  | S stack =>
      match node with
      | mkNode k pos kids =>
          (if isEvalCall k
           then push (evalFinding path (lineOfPosition sourceFile pos + 1)%nat) ≫= fun _ =>
                mret (astParsedKeys ∪ {[ js "eval-usage" ]})
           else mret astParsedKeys) ≫= fun astParsedKeys =>
          (if isInnerHtmlAttribute k
           then push (innerHtmlFinding path (lineOfPosition sourceFile pos + 1)%nat) ≫= fun _ =>
                mret (astParsedKeys ∪ {[ js "dangerously-set-inner-html" ]})
           else mret astParsedKeys) ≫= fun astParsedKeys =>
          (fix forEachChild (l : list Node) (astParsedKeys : gset jsstring)
             : Agent (gset jsstring) :=
             match l with
             | [] => mret astParsedKeys
             | child :: rest =>
                 visit sourceFile path stack child astParsedKeys ≫= fun astParsedKeys =>
                 forEachChild rest astParsedKeys
             end) kids astParsedKeys
      end
  end.

Definition scriptExtensions : list jsstring :=
  [js "ts"; js "js"; js "jsx"; js "tsx"].

(** Step 1 of the loop body: the AST pass with its [try]/[catch].  The
    [catch] is taken when the parser throws and when the visitor exhausts the
    call stack on a deep tree; in both cases [findings] keeps what was pushed
    before the [throw]. *)
Definition astPass `{Host} (f : WorkspaceFile) : Agent (gset jsstring) :=
  let astParsedKeys : gset jsstring := ∅ in
  if matchesExtension scriptExtensions (fsPath f)
  then tryCatch
         (eval_in (createSourceFile (fsPath f) (content f)) ≫= fun sourceFile =>
          visit sourceFile (fsPath f) callStackSize sourceFile astParsedKeys)
         (fun _ => mret astParsedKeys)
  else mret astParsedKeys.

(** Step 2 of the loop body: the two regular expressions. *)
Definition regexPass `{Host} (f : WorkspaceFile) : Agent unit :=
  whileExec secretRegex (content f) (fun m =>
    let lineNumber := lineOfOffset (content f) (index m) in
    push (secretFinding (fsPath f) lineNumber)) ≫= fun _ =>
  whileExec debugRegex (content f) (fun m =>
    let lineNumber := lineOfOffset (content f) (index m) in
    push (debugFinding (fsPath f) lineNumber)).

Definition securityBody `{Host} (f : WorkspaceFile) : Agent unit :=
  astPass f ≫= fun _ => regexPass f.

Definition runSecurityAgent `{Host} (files : list WorkspaceFile)
  : Completion (list Vulnerability) :=
  returning_findings (forOf files securityBody).

(** ** Dependency agent (agents/dependencyAgent.ts) *)

Definition blacklistedDeps : list jsstring :=
  [js "request"; js "left-pad"; js "crypto-js"].

Definition blacklistedFinding (path dep : jsstring) : Vulnerability :=
  {| id := js "blacklisted-dependency";
     title := js "Deprecated / Unsafe Dependency";
     severity := WARNING;
     file := path;
     line := 1;
     description := js "The package '" ++ dep ++ js "' is blacklisted due to known vulnerabilities, deprecation, or poor maintenance.";
     recommendation := js "Remove '" ++ dep ++ js "' and migrate to natively secure alternatives (e.g., Node's native 'fetch' or 'axios').";
     agentSource := js "DependencyAgent" |}.

Definition malformedFinding (path : jsstring) : Vulnerability :=
  {| id := js "malformed-package-json";
     title := js "Malformed Dependency Manifest";
     severity := INFO;
     file := path;
     line := 1;
     description := js "The package.json file could not be parsed as valid JSON.";
     recommendation := js "Fix JSON formatting to allow NPM and scanners to install dependencies properly.";
     agentSource := js "DependencyAgent" |}.

(** [ToBoolean] *)
Definition truthy (v : JsValue) : bool :=
  match v with
  | JUndefined | JNull => false
  | JBoolean b => b
  | JNumber x => negb (PrimFloat.eqb x 0%float) && negb (PrimFloat.is_nan x)
  | JString s => negb (bool_decide (s = []))
  | JArray _ | JObject _ => true
  end.

(** [a || b] *)
Definition js_or (a b : JsValue) : JsValue := if truthy a then a else b.

(** The value stored under a key in a property list. *)
Fixpoint assoc (key : jsstring) (props : list (jsstring * JsValue))
  : option JsValue :=
  match props with
  | [] => None
  | (k, v) :: rest => if decide (k = key) then Some v else assoc key rest
  end.

(** [v.key] for a key that no prototype defines ([dependencies],
    [devDependencies]): a [TypeError] on [null] and [undefined], the own
    property of an object, [undefined] elsewhere. *)
Definition getProperty (v : JsValue) (key : jsstring) : Completion JsValue :=
  match v with
  | JUndefined | JNull => Throw TypeError
  | JObject props => Normal (default JUndefined (assoc key props))
  | JBoolean _ | JNumber _ | JString _ | JArray _ => Normal JUndefined
  end.

(** The own enumerable properties that an object spread copies from a
    value: those of an object, the indexed ones of a string or an array,
    none of the other primitives. *)
Definition ownProperties (v : JsValue) : list (jsstring * JsValue) :=
  match v with
  | JObject props => props
  | JString s => imap (fun i c => (js (pretty i), JString [c])) s
  | JArray items => imap (fun i x => (js (pretty i), x)) items
  | JUndefined | JNull | JBoolean _ | JNumber _ => []
  end.

(** Defining one property: a key already there keeps its place. *)
Fixpoint setProperty (key : jsstring) (v : JsValue)
    (props : list (jsstring * JsValue)) : list (jsstring * JsValue) :=
  match props with
  | [] => [(key, v)]
  | (k, w) :: rest =>
      if decide (k = key) then (k, v) :: rest
      else (k, w) :: setProperty key v rest
  end.

(** [{ ...a, ...b }] *)
Definition spread2 (a b : JsValue) : JsValue :=
  let copy := foldl (fun props kv => setProperty kv.1 kv.2 props) in
  JObject (copy (copy [] (ownProperties a)) (ownProperties b)).

(** [Object.keys(o)], in the order the properties were defined.  (An engine
    lists index-like keys first; no such key is in [blacklistedDeps], so the
    findings pushed below and their order do not depend on it.) *)
Definition Object_keys (o : JsValue) : list jsstring :=
  match o with
  | JObject props => props.*1
  | _ => []
  end.

(** The body of the [try] block. *)
Definition manifestPass `{Host} (f : WorkspaceFile) : Agent unit :=
  eval_in (JSON_parse (content f)) ≫= fun pkg =>
  eval_in (getProperty pkg (js "dependencies")) ≫= fun dependencies =>
  eval_in (getProperty pkg (js "devDependencies")) ≫= fun devDependencies =>
  let deps := spread2 (js_or dependencies (JObject []))
                      (js_or devDependencies (JObject [])) in
  forOf (Object_keys deps) (fun dep =>
    if bool_decide (dep ∈ blacklistedDeps)
    then push (blacklistedFinding (fsPath f) dep)
    else mret tt).

Definition dependencyBody `{Host} (f : WorkspaceFile) : Agent unit :=
  if negb (endsWith (fsPath f) (js "package.json")) then mret tt
  else tryCatch (manifestPass f)
                (fun _ => push (malformedFinding (fsPath f))).

Definition runDependencyAgent `{Host} (files : list WorkspaceFile)
  : Completion (list Vulnerability) :=
  returning_findings (forOf files dependencyBody).

(** ** Compliance agent (agents/complianceAgent.ts) *)

Definition piiFinding (path : jsstring) (ln : nat) : Vulnerability :=
  {| id := js "pii-leakage";
     title := js "Compliance: PII Data Logging";
     severity := ERROR;
     file := path;
     line := ln;
     description := js "Logging explicit Personally Identifiable Information (PII) directly to console output violates GDPR and SOC2 compliance.";
     recommendation := js "Mask all sensitive data elements (e.g. hash passports and strings) prior to logging out.";
     agentSource := js "ComplianceAgent" |}.

Definition loggingFinding (path : jsstring) (ln : nat) (m : RegExpMatch)
  : Vulnerability :=
  {| id := js "observability-failure";
     title := js "Operational Visibility Risk";
     severity := INFO;
     file := path;
     line := ln;
     description := js "Raw usage of " ++ capture m 0 ++ js "... is not reliable for scalable tracing in production.";
     recommendation := js "Recommend using a dedicated monitoring/logging framework (e.g., Winston, Sentry, Datadog) instead of native STDOUT buffers.";
     agentSource := js "ComplianceAgent" |}.

Definition complianceExtensions : list jsstring :=
  [js "ts"; js "js"; js "jsx"; js "tsx"; js "py"].

Definition complianceBody `{Host} (f : WorkspaceFile) : Agent unit :=
  if negb (matchesExtension complianceExtensions (fsPath f)) then mret tt
  else
    whileExec piiRegex (content f) (fun m =>
      let numLines := lineOfOffset (content f) (index m) in
      push (piiFinding (fsPath f) numLines)) ≫= fun _ =>
    whileExec basicLoggingRule (content f) (fun m =>
      let numLines := lineOfOffset (content f) (index m) in
      push (loggingFinding (fsPath f) numLines m)).

Definition runComplianceAgent `{Host} (files : list WorkspaceFile)
  : Completion (list Vulnerability) :=
  returning_findings (forOf files complianceBody).

(** ** AI risk agent (agents/aiRiskAgent.ts) *)

Definition promptFinding (path : jsstring) (ln : nat) : Vulnerability :=
  {| id := js "ai-prompt-injection";
     title := js "AI Code Risk: Prompt Injection Vulnerability";
     severity := WARNING;
     file := path;
     line := ln;
     description := js "Detected raw user input being directly appended or interpolated into an LLM prompt.";
     recommendation := js "Sanitize input thoroughly. Provide strict system boundaries or utilize explicit function calling rather than relying on unstructured text parsing from clients.";
     agentSource := js "AiRiskAgent" |}.

Definition aiRiskExtensions : list jsstring := [js "ts"; js "js"; js "py"].

Definition aiRiskBody `{Host} (f : WorkspaceFile) : Agent unit :=
  if negb (matchesExtension aiRiskExtensions (fsPath f)) then mret tt
  else
    whileExec promptInjectionRegex (content f) (fun m =>
      let numLines := lineOfOffset (content f) (index m) in
      push (promptFinding (fsPath f) numLines)).

Definition runAiRiskAgent `{Host} (files : list WorkspaceFile)
  : Completion (list Vulnerability) :=
  returning_findings (forOf files aiRiskBody).

(** ** Architecture agent (agents/architectureAgent.ts) *)

Definition godObjectFinding (path : jsstring) : Vulnerability :=
  {| id := js "architecture-fragility";
     title := js "Architecture Fragility: God Object";
     severity := WARNING;
     file := path;
     line := 1;
     description := js "Massive monolithic file detected (>1000 lines).";
     recommendation := js "Break this module down into smaller, composable elements for testing and maintainability.";
     agentSource := js "ArchitectureAgent" |}.

Definition dbImportFinding (path : jsstring) (ln : nat) (m : RegExpMatch)
  : Vulnerability :=
  {| id := js "architecture-fragility-db";
     title := js "Severe Anti-Pattern: Frontend DB Access";
     severity := ERROR;
     file := path;
     line := ln;
     description := js "Client UI file directly imports server-side DB client '" ++ capture m 1 ++ js "'.";
     recommendation := js "Refactor this logic into a dedicated backend API route or Server Component/Action layer.";
     agentSource := js "ArchitectureAgent" |}.

Definition componentExtensions : list jsstring := [js "tsx"; js "jsx"].

Definition architectureBody `{Host} (f : WorkspaceFile) : Agent unit :=
  let lines := split_newline (content f) in
  (if (1000 <? length lines)%nat
   then push (godObjectFinding (fsPath f))
   else mret tt) ≫= fun _ =>
  if matchesExtension componentExtensions (fsPath f)
  then whileExec serverDbImports (content f) (fun m =>
         let numLines := lineOfOffset (content f) (index m) in
         push (dbImportFinding (fsPath f) numLines m))
  else mret tt.

Definition runArchitectureAgent `{Host} (files : list WorkspaceFile)
  : Completion (list Vulnerability) :=
  returning_findings (forOf files architectureBody).

(** ** Orchestrator (orchestrator/agentOrchestrator.ts) *)

(** [Array.prototype.findIndex], with [-1] when nothing is found. *)
Fixpoint findIndexFrom {A} (p : A -> bool) (i : Z) (l : list A) : Z :=
  match l with
  | [] => -1
  | x :: rest => if p x then i else findIndexFrom p (i + 1) rest
  end.

Definition findIndex {A} (p : A -> bool) (l : list A) : Z :=
  findIndexFrom p 0 l.

(** [self.filter((x, index, self) => p)] *)
Fixpoint filterFrom {A} (p : A -> Z -> bool) (i : Z) (l : list A) : list A :=
  match l with
  | [] => []
  | x :: rest =>
      if p x i then x :: filterFrom p (i + 1) rest
      else filterFrom p (i + 1) rest
  end.

Definition filterIndexed {A} (p : A -> Z -> list A -> bool) (self : list A)
  : list A :=
  filterFrom (fun x i => p x i self) 0 self.

(** [t.id === finding.id && t.file === finding.file &&
    t.line === finding.line] *)
Definition sameKey (t finding : Vulnerability) : bool :=
  bool_decide (id t = id finding)
  && bool_decide (file t = file finding)
  && bool_decide (line t = line finding).

Definition uniqueFindings (allFindings : list Vulnerability)
  : list Vulnerability :=
  filterIndexed
    (fun finding index self =>
       index =? findIndex (fun t => sameKey t finding) self)
    allFindings.

(** [runAudit].  The five calls are made in the order of the array literal
    and each runs to completion when it is called (no agent awaits);
    [Promise.all] rejects as soon as one of them threw. *)
Definition runAudit `{Host} (files : list WorkspaceFile)
  : Completion FinalAuditReport :=
  securityFindings ← runSecurityAgent files;
  dependencyFindings ← runDependencyAgent files;
  complianceFindings ← runComplianceAgent files;
  aiRiskFindings ← runAiRiskAgent files;
  architectureFindings ← runArchitectureAgent files;
  let allFindings :=
    securityFindings ++ dependencyFindings ++ complianceFindings
      ++ aiRiskFindings ++ architectureFindings in
  mret (runScoringAgent isoNow (uniqueFindings allFindings)).

(** The dedup key of a finding. *)
Definition keyOf (v : Vulnerability) : jsstring * jsstring * nat :=
  (id v, file v, line v).

(** ** Vocabulary of the statements *)

(** Offsets of the newline code units of a text, in increasing order;
    [i] is the offset of the first code unit of [s]. *)
Fixpoint newlineOffsetsFrom (i : nat) (s : jsstring) : list nat :=
  match s with
  | [] => []
  | c :: rest =>
      if N.eqb c newline then i :: newlineOffsetsFrom (S i) rest
      else newlineOffsetsFrom (S i) rest
  end.

Definition newlineOffsets (text : jsstring) : list nat :=
  newlineOffsetsFrom 0 text.

(** Lines are numbered from 1; a text with [k] newlines has [k + 1] lines. *)
Definition lineCount (text : jsstring) : nat :=
  S (length (newlineOffsets text)).

(** The offset of the first code unit of line [n]: line 1 starts at offset
    0, line [n + 1] right after the [n]-th newline. *)
Definition lineStart (text : jsstring) (n : nat) : option nat :=
  match n with
  | O => None
  | S O => Some O
  | S (S k) => S <$> newlineOffsets text !! k
  end.

(** The nodes of a tree in the order [visit] reaches them. *)
Fixpoint nodesOf (node : Node) : list Node :=
  match node with
  | mkNode _ _ kids =>
      node :: (fix all (l : list Node) : list Node :=
                 match l with
                 | [] => []
                 | child :: rest => nodesOf child ++ all rest
                 end) kids
  end.

Definition kindOf (node : Node) : SyntaxKind :=
  match node with mkNode k _ _ => k end.

Definition startOf (node : Node) : nat :=
  match node with mkNode _ pos _ => pos end.

(** The nesting of the visitor's calls that a walk of the whole tree needs:
    one call for the node, and below it the deepest of its children. *)
Fixpoint depth (node : Node) : nat :=
  match node with
  | mkNode _ _ kids =>
      S ((fix deepest (l : list Node) : nat :=
            match l with
            | [] => O
            | child :: rest => Nat.max (depth child) (deepest rest)
            end) kids)
  end.

(** Number of call expressions of a tree whose callee is the identifier
    [eval]. *)
Definition evalCalls (sourceFile : Node) : nat :=
  length (filter (fun n => isEvalCall (kindOf n) = true) (nodesOf sourceFile)).

(** The findings of a report that carry a given rule id for a given path. *)
Definition findingsFor (rule path : jsstring) (vs : list Vulnerability)
  : list Vulnerability :=
  filter (fun v => id v = rule ∧ file v = path) vs.

(** The rule ids that only the AST pass of the security agent emits. *)
Definition structuralRules : list jsstring :=
  [js "eval-usage"; js "dangerously-set-inner-html"].

(** *** Reading cost of the offset-to-line conversion *)

(** [split_from], counting the code units it compares with the separator. *)
Fixpoint split_from_counting (cur : jsstring) (s : jsstring)
  : list jsstring * nat :=
  match s with
  | [] => ([rev cur], O)
  | c :: rest =>
      let '(pieces, n) :=
        if N.eqb c newline
        then let '(pieces, n) := split_from_counting [] rest in
             (rev cur :: pieces, n)
        else split_from_counting (c :: cur) rest in
      (pieces, S n)
  end.

(** [lineOfOffset] together with the number of code units of the file that
    the conversion of one match offset reads. *)
Definition lineOfOffset_counting (text : jsstring) (offset : nat)
  : nat * nat :=
  let '(pieces, n) := split_from_counting [] (substring0 text offset) in
  (length pieces, n).

(** The conversion in the words of section 4.3 of the specification: a
    sorted newline-offset index ([newlineOffsets], built once per file) is
    searched by bisection for every match.  It is stated here to be compared
    with [lineOfOffset]; the sources contain no such index.  [bisect] returns
    the number of index entries below [offset] and the number of entries it
    probed. *)
Fixpoint bisect (fuel : nat) (idx : list nat) (offset lo hi : nat)
  : nat * nat :=
  match fuel with
  | O => (lo, O)
  | S fuel' =>
      if (lo <? hi)%nat then
        let mid := ((lo + hi) / 2)%nat in
        match idx !! mid with
        | Some x =>
            let '(r, probes) :=
              if (x <? offset)%nat then bisect fuel' idx offset (S mid) hi
              else bisect fuel' idx offset lo mid in
            (r, S probes)
        | None => (lo, O)
        end
      else (lo, O)
  end.

Definition lineOfOffset_indexed (idx : list nat) (offset : nat) : nat * nat :=
  let '(r, probes) := bisect (S (length idx)) idx offset 0 (length idx) in
  (S r, probes).

(** *** Effects of agent code *)

(** [pushes m r out]: whatever [findings] holds, [m] completes with [r] and
    leaves [findings] extended by [out]. *)
Definition pushes {A} (m : Agent A) (r : Completion A)
    (out : list Vulnerability) : Prop :=
  ∀ findings, m findings = (r, findings ++ out).

(** What [m] pushes when [findings] starts empty. *)
Definition pushedBy {A} (m : Agent A) : list Vulnerability := (m []).2.

(** [m] may throw, and pushes only findings that satisfy [P]. *)
Definition appends {A} (P : Vulnerability → Prop) (m : Agent A) : Prop :=
  ∃ r out, pushes m r out ∧ Forall P out.

(** [m] completes normally, and pushes only findings that satisfy [P]. *)
Definition quiet {A} (P : Vulnerability → Prop) (m : Agent A) : Prop :=
  ∃ a out, pushes m (Normal a) out ∧ Forall P out.

(** A finding of one of the rules [rules], located in the file [path]. *)
Definition fromRules (rules : list jsstring) (path : jsstring)
    (v : Vulnerability) : Prop :=
  id v ∈ rules ∧ file v = path.

(** The findings [visit] pushes at one node. *)
Definition nodeFindings `{Host} (sourceFile : Node) (path : jsstring)
    (node : Node) : list Vulnerability :=
  (if isEvalCall (kindOf node)
   then [evalFinding path (lineOfPosition sourceFile (startOf node) + 1)%nat]
   else [])
  ++ (if isInnerHtmlAttribute (kindOf node)
      then [innerHtmlFinding path (lineOfPosition sourceFile (startOf node) + 1)%nat]
      else []).

(** The findings of the two loops of [regexPass], one per match. *)
Definition textualFindings `{Host} (f : WorkspaceFile) : list Vulnerability :=
  ((fun m => secretFinding (fsPath f) (lineOfOffset (content f) (index m)))
     <$> execAll secretRegex (content f))
  ++ ((fun m => debugFinding (fsPath f) (lineOfOffset (content f) (index m)))
        <$> execAll debugRegex (content f)).

(** A manifest that cannot be parsed ([JSON.parse] throws) or cannot be
    processed (the parsed value has no properties to read). *)
Definition manifestUnreadable `{Host} (f : WorkspaceFile) : Prop :=
  match JSON_parse (content f) with
  | Throw _ => True
  | Normal v => v = JNull ∨ v = JUndefined
  end.

(** Left-to-right removal of the findings whose key was seen before. *)
Fixpoint keepFirst (seen : list (jsstring * jsstring * nat))
    (l : list Vulnerability) : list Vulnerability :=
  match l with
  | [] => []
  | x :: rest =>
      if decide (keyOf x ∈ seen) then keepFirst seen rest
      else x :: keepFirst (keyOf x :: seen) rest
  end.

(** The rule ids each agent can emit. *)
Definition textualRules : list jsstring :=
  [js "env-isolation"; js "debug-exposure"].
Definition securityRules : list jsstring := structuralRules ++ textualRules.
Definition dependencyRules : list jsstring :=
  [js "blacklisted-dependency"; js "malformed-package-json"].
Definition complianceRules : list jsstring :=
  [js "pii-leakage"; js "observability-failure"].
Definition aiRiskRules : list jsstring := [js "ai-prompt-injection"].
Definition architectureRules : list jsstring :=
  [js "architecture-fragility"; js "architecture-fragility-db"].

(** ** A sample workspace *)

(** Three lines: a call of [eval], a hard-coded key, two [console.log] on
    one line. *)
Definition sampleSource : jsstring :=
  js "eval('1');" ++ [newline]
  ++ js "const API_KEY = 'sk-test-12345';" ++ [newline]
  ++ js "console.log(1); console.log(2);".

Definition sampleFile : WorkspaceFile :=
  {| uri := js "file:///app/main.ts";
     fsPath := js "/app/main.ts";
     content := sampleSource |}.

Definition brokenSource : jsstring := js "const token = 'abcdef'; (((".

Definition brokenFile : WorkspaceFile :=
  {| uri := js "file:///app/broken.ts";
     fsPath := js "/app/broken.ts";
     content := brokenSource |}.

Definition manifestFile : WorkspaceFile :=
  {| uri := js "file:///app/package.json";
     fsPath := js "/app/package.json";
     content := js "{ dependencies: " |}.

(** A manifest that parses to [sampleManifest]. *)
Definition goodManifestFile : WorkspaceFile :=
  {| uri := js "file:///lib/package.json";
     fsPath := js "/lib/package.json";
     content := js "{ 'parsed': 'by sampleHost' }" |}.

Definition sampleManifest : JsValue :=
  JObject
    [ (js "name", JString (js "lib"));
      (js "dependencies",
       JObject [ (js "request", JString (js "^2.88.0"));
                 (js "express", JString (js "^4.0.0")) ]);
      (js "devDependencies",
       JObject [ (js "express", JString (js "^4.1.0"));
                 (js "left-pad", JString (js "1.3.0")) ]) ].

(** The tree of [sampleSource], as far as the visitor looks at it. *)
Definition sampleTree : Node :=
  mkNode OtherKind 0
    [ mkNode OtherKind 0
        [ mkNode (CallExpression (Some (js "eval"))) 0
            [ mkNode OtherKind 0 []; mkNode OtherKind 5 [] ] ];
      mkNode OtherKind 11 [ mkNode OtherKind 17 [] ];
      mkNode OtherKind 44
        [ mkNode (CallExpression None) 44 [ mkNode OtherKind 56 [] ] ];
      mkNode OtherKind 60
        [ mkNode (CallExpression None) 60 [ mkNode OtherKind 72 [] ] ] ].

Definition matchAt (i : nat) (text : jsstring) : RegExpMatch :=
  {| index := i; captures := [text] |}.

(** A call [eval(x)] that starts at offset [pos]: the callee and the
    argument are its children. *)
Definition evalCallAt (pos : nat) : Node :=
  mkNode (CallExpression (Some (js "eval"))) pos
    [ mkNode OtherKind pos []; mkNode OtherKind (pos + 5) [] ].

(** The tree of [operand+1+1+...+1] with [n] additions, [operand] taking
    seven code units: binary expressions nested to the left, each with its
    left operand, its operator and its right operand. *)
Fixpoint sumOf (n : nat) (operand : Node) : Node :=
  match n with
  | O => operand
  | S k =>
      mkNode OtherKind (startOf operand)
        [ sumOf k operand;
          mkNode OtherKind (startOf operand + 7 + 2 * k) [];
          mkNode OtherKind (startOf operand + 8 + 2 * k) [] ]
  end.

(** One statement: a call of [eval] to which 1 is added 2500 times.  The
    parser builds the nested sums in a loop; a visitor descends them one
    call per addition. *)
Definition deepSource : jsstring :=
  js "eval(x)" ++ mjoin (replicate 2500 (js "+1")).

Definition deepTree : Node :=
  mkNode OtherKind 0 [ mkNode OtherKind 0 [ sumOf 2500 (evalCallAt 0) ] ].


(** Two statements: a call of [eval], then the sum of [deepSource]. *)
Definition twiceSource : jsstring :=
  js "eval(y);" ++ [newline] ++ deepSource.

Definition twiceTree : Node :=
  mkNode OtherKind 0
    [ mkNode OtherKind 0 [ evalCallAt 0 ];
      mkNode OtherKind 9 [ sumOf 2500 (evalCallAt 9) ] ].

Definition twiceFile : WorkspaceFile :=
  {| uri := js "file:///app/twice.ts";
     fsPath := js "/app/twice.ts";
     content := twiceSource |}.

(** A platform that knows the sample files only, with a call stack that
    holds 2500 nested calls of a visitor. *)
Definition sampleHost : Host :=
  {| execAll := fun p text =>
       if decide (text = sampleSource) then
         match p with
         | secretRegex => [matchAt 17 (js "API_KEY = 'sk-test-12345'")]
         | basicLoggingRule =>
             [matchAt 44 (js "console.log("); matchAt 60 (js "console.log(")]
         | _ => []
         end
       else if decide (text = brokenSource) then
         match p with
         | secretRegex => [matchAt 6 (js "token = 'abcdef'")]
         | _ => []
         end
       else [];
     createSourceFile := fun _ text =>
       if decide (text = sampleSource) then Normal sampleTree
       else if decide (text = brokenSource) then Throw SyntaxError
       else if decide (text = deepSource) then Normal deepTree
       else if decide (text = twiceSource) then Normal twiceTree
       else Normal (mkNode OtherKind 0 []);
     lineOfPosition := fun _ pos => (lineOfOffset sampleSource pos - 1)%nat;
     JSON_parse := fun text =>
       if decide (text = js "null") then Normal JNull
       else if decide (text = content goodManifestFile) then Normal sampleManifest
       else Throw SyntaxError;
     isoNow := js "2024-01-01T00:00:00.000Z";
     callStackSize := 2500 |}.

(** Five one-letter lines. *)
Definition fiveLines : jsstring :=
  js "a" ++ [newline] ++ js "b" ++ [newline] ++ js "c" ++ [newline]
  ++ js "d" ++ [newline] ++ js "e".

(** Two errors, one warning, three infos. *)
Definition sampleFindings : list Vulnerability :=
  [ evalFinding (js "/app/main.ts") 1;
    secretFinding (js "/app/main.ts") 2;
    debugFinding (js "/app/main.ts") 3;
    malformedFinding (js "/app/package.json");
    loggingFinding (js "/app/main.ts") 3 (matchAt 44 (js "console.log("));
    loggingFinding (js "/app/main.ts") 4 (matchAt 60 (js "console.log(")) ].

Definition sixWarnings : list Vulnerability :=
  (fun n => debugFinding (js "/app/main.ts") n) <$> seq 1 6.

(** The names a parsed manifest declares under one of its sections: the
    keys that [{ ...(pkg.section || {}) }] copies. *)
Definition sectionKeys (pkg : JsValue) (section : jsstring) : list jsstring :=
  match getProperty pkg section with
  | Normal v => (ownProperties (js_or v (JObject []))).*1
  | Throw _ => []
  end.

(** ** The extension (extension.ts): reading the ignore files *)

(** The code units that [String.prototype.trim] removes: [WhiteSpace] and
    [LineTerminator] of ECMAScript. *)
Definition isWhiteSpace (c : N) : bool :=
  bool_decide (c ∈ [9; 10; 11; 12; 13; 32; 160; 5760; 8192; 8193; 8194; 8195;
                    8196; 8197; 8198; 8199; 8200; 8201; 8202; 8232; 8233; 8239;
                    8287; 12288; 65279]%N).

Fixpoint trimStart (s : jsstring) : jsstring :=
  match s with
  | [] => []
  | c :: rest => if isWhiteSpace c then trimStart rest else s
  end.

(** [s.trim()] *)
Definition trim (s : jsstring) : jsstring :=
  rev (trimStart (rev (trimStart s))).

(** [s.startsWith(prefix)] *)
Definition startsWith (s prefix : jsstring) : bool :=
  bool_decide (take (length prefix) s = prefix).

(** The callback [l => l && !l.startsWith('#')], as a truth value. *)
Definition keepLine (l : jsstring) : bool :=
  negb (bool_decide (l = [])) && negb (startsWith l (js "#")).

(** [doc.getText().split('\n').map(l => l.trim()).filter(l => l &&
    !l.startsWith('#'))] of [loadGitignore]: the patterns handed to
    [ig.add]. *)
Definition gitignoreLines (text : jsstring) : list jsstring :=
  filter (fun l => keepLine l = true) (trim <$> split_newline text).

(** [lines.join('\n')], the inverse the statements compare [split] with. *)
Fixpoint joinNewline (lines : list jsstring) : jsstring :=
  match lines with
  | [] => []
  | [l] => l
  | l :: rest => l ++ newline :: joinNewline rest
  end.

(** A pattern as [gitignoreLines] returns them. *)
Definition cleanPattern (p : jsstring) : Prop :=
  p ≠ []
  ∧ (newline ∉ p)
  ∧ (∀ c, head p = Some c → isWhiteSpace c = false ∧ c ≠ 35%N)
  ∧ (∀ c, last p = Some c → isWhiteSpace c = false).

(** ** The extension (extension.ts): diagnostics *)

(** [vscode.DiagnosticSeverity] *)
Inductive DiagnosticSeverity :=
  | SeverityError | SeverityWarning | SeverityInformation | SeverityHint.

(** [new vscode.Range(startLine, startCharacter, endLine, endCharacter)] *)
Record Range := {
  startLine : nat;
  startCharacter : nat;
  endLine : nat;
  endCharacter : nat
}.

(** A [vscode.Diagnostic] with the fields the extension sets. *)
Record Diagnostic := {
  range : Range;
  message : jsstring;
  diagnosticSeverity : DiagnosticSeverity;
  code : jsstring;
  source : jsstring
}.

(** What [scanDocument] reads of a [vscode.TextDocument]:
    [document.uri.scheme], [document.uri.toString()], [document.uri.fsPath],
    [document.getText()], [document.lineCount] and
    [document.lineAt(i).text]. *)
Record TextDocument := {
  uriScheme : jsstring;
  uriString : jsstring;
  uriFsPath : jsstring;
  getText : jsstring;
  documentLineCount : nat;
  lineAtText : nat -> jsstring
}.

(** The body of the loop [for (const finding of
    auditReport.vulnerabilities)]: [None] is the [continue], [Some d] the
    diagnostic pushed. *)
Definition toDiagnostic (document : TextDocument) (finding : Vulnerability)
  : option Diagnostic :=
  let lineIndex := Z.to_nat (Z.max 0 (Z.of_nat (line finding) - 1)) in
  if (documentLineCount document <=? lineIndex)%nat then None
  else
    let lineText := lineAtText document lineIndex in
    let range :=
      {| startLine := lineIndex; startCharacter := 0; endLine := lineIndex;
         endCharacter := if (length lineText =? 0)%nat then 1%nat
                         else length lineText |} in
    let vsSeverity :=
      if decide (severity finding = ERROR) then SeverityWarning
      else if decide (severity finding = WARNING) then SeverityWarning
      else SeverityInformation in
    let msg := js "[" ++ title finding ++ js "] " ++ description finding
               ++ [newline] ++ js "Fix: " ++ recommendation finding in
    Some {| range := range;
            message := msg;
            diagnosticSeverity := vsSeverity;
            code := id finding;
            source := js "ReadyOrNot [" ++ agentSource finding ++ js "]" |}.

(** The loop, with [diagnostics] as its state. *)
Definition diagnosticsOf (document : TextDocument)
    (findings : list Vulnerability) : list Diagnostic :=
  foldl (fun diagnostics finding =>
           match toDiagnostic document finding with
           | Some d => diagnostics ++ [d]
           | None => diagnostics
           end) [] findings.

(** What [scanDocument] asks of the workspace: the result of
    [vscode.workspace.asRelativePath(document.uri, false)] and the answer of
    the current ignore filter, [ig.ignores(path)], which may throw. *)
Class Workspace := {
  asRelativePath : TextDocument -> jsstring;
  ignores : jsstring -> Completion bool
}.

(** [/^[a-zA-Z]:/.test(s)] *)
Definition hasDriveLetter (s : jsstring) : bool :=
  match s with
  | c :: d :: _ =>
      (((65 <=? c) && (c <=? 90)) || ((97 <=? c) && (c <=? 122)))%N
      && N.eqb d 58
  | _ => false
  end.

Definition isAbsolutePath (relativePath fsPath : jsstring) : bool :=
  bool_decide (relativePath = fsPath)
  || startsWith relativePath (js "/")
  || hasDriveLetter relativePath.

(** The [try] block around [ig.ignores]: [true] when the function returns
    from inside it. *)
Definition skippedByIgnore `{Workspace} (relativePath : jsstring) : bool :=
  match ignores relativePath with
  | Normal b => b
  | Throw _ => false
  end.

(** [scanDocument] of ReadyOrNot/src/extension.ts.  The diagnostic
    collection maps the string of a uri to the diagnostics set for it; the
    result is the returned number and the collection afterwards. *)
Definition scanDocument `{Host} `{Workspace} (document : TextDocument)
    (diagnosticCollection : gmap jsstring (list Diagnostic))
  : Completion (Z * gmap jsstring (list Diagnostic)) :=
  if negb (bool_decide (uriScheme document = js "file"))
  then mret (0, diagnosticCollection)
  else
    let relativePath := asRelativePath document in
    let isAbsolute := isAbsolutePath relativePath (uriFsPath document) in
    if negb isAbsolute && skippedByIgnore relativePath
    then mret (0, <[uriString document := []]> diagnosticCollection)
    else
      let workspaceFile :=
        {| uri := uriString document;
           fsPath := uriFsPath document;
           content := getText document |} in
      auditReport ← runAudit [workspaceFile];
      let diagnostics := diagnosticsOf document (vulnerabilities auditReport) in
      mret (Z.of_nat (length (vulnerabilities auditReport)),
            <[uriString document := diagnostics]> diagnosticCollection).

(** ** The first extension (vibecheck/src/extension.ts) *)

(** A [vscode.Position]. *)
Record Position := { positionLine : nat; positionCharacter : nat }.

(** [new vscode.Range(start, end)]: the constructor puts the two positions
    in order. *)
Definition rangeBetween (a b : Position) : Range :=
  if (positionLine a <? positionLine b)%nat
     || ((positionLine a =? positionLine b)%nat
         && (positionCharacter a <=? positionCharacter b)%nat)
  then {| startLine := positionLine a; startCharacter := positionCharacter a;
          endLine := positionLine b; endCharacter := positionCharacter b |}
  else {| startLine := positionLine b; startCharacter := positionCharacter b;
          endLine := positionLine a; endCharacter := positionCharacter a |}.

(** An entry of [vulnerabilityRules]; its [regex] is known to the platform
    by the id of the rule. *)
Record VulnerabilityRule := {
  ruleId : jsstring;
  ruleMessage : jsstring;
  vscodeSeverity : DiagnosticSeverity;
  displaySeverity : jsstring
}.

Definition vulnerabilityRules : list VulnerabilityRule :=
  [
    {| ruleId := js "pii-logging";
       ruleMessage := js "GDPR / SOC2 Risk: Logging sensitive data (PII).";
       vscodeSeverity := SeverityWarning;
       displaySeverity := js "Error" |};
    {| ruleId := js "pii-storage";
       ruleMessage := js "GDPR / SOC2 Risk: Unencrypted storage of sensitive data.";
       vscodeSeverity := SeverityWarning;
       displaySeverity := js "Error" |};
    {| ruleId := js "ai-loop";
       ruleMessage := js "Unbounded AI Cost Risk: LLM API call inside a loop without obvious limits or caching.";
       vscodeSeverity := SeverityWarning;
       displaySeverity := js "Error" |};
    {| ruleId := js "missing-error-handling";
       ruleMessage := js "Reliability Risk: Ensure this await call is wrapped in a try/catch or has proper retry/fallback logic.";
       vscodeSeverity := SeverityWarning;
       displaySeverity := js "Warning" |};
    {| ruleId := js "http-url";
       ruleMessage := js "Network Exposure Risk: Usage of insecure HTTP URL instead of HTTPS.";
       vscodeSeverity := SeverityWarning;
       displaySeverity := js "Error" |};
    {| ruleId := js "open-cors";
       ruleMessage := js "Network Exposure Risk: Open CORS policy (*).";
       vscodeSeverity := SeverityWarning;
       displaySeverity := js "Error" |};
    {| ruleId := js "sql-injection";
       ruleMessage := js "Injection Vulnerability: Potential SQL injection. Avoid string concatenation for SQL queries.";
       vscodeSeverity := SeverityWarning;
       displaySeverity := js "Error" |};
    {| ruleId := js "sql-injection-template";
       ruleMessage := js "Injection Vulnerability: Potential SQL Injection: Unsanitized variable in SQL query.";
       vscodeSeverity := SeverityWarning;
       displaySeverity := js "Error" |};
    {| ruleId := js "observability-failure";
       ruleMessage := js "Operational Visibility Risk: Recommend using a dedicated monitoring/logging framework instead of raw console methods in production.";
       vscodeSeverity := SeverityInformation;
       displaySeverity := js "Info" |};
    {| ruleId := js "env-isolation";
       ruleMessage := js "Environment Isolation Risk: Potential production keys or secrets hardcoded in source.";
       vscodeSeverity := SeverityWarning;
       displaySeverity := js "Error" |};
    {| ruleId := js "dev-config-prod";
       ruleMessage := js "Environment Isolation Risk: Dev configurations potentially exposed in production paths.";
       vscodeSeverity := SeverityWarning;
       displaySeverity := js "Warning" |};
    {| ruleId := js "debug-exposure";
       ruleMessage := js "Debug Exposure: Exposed debug features or sensitive logging.";
       vscodeSeverity := SeverityWarning;
       displaySeverity := js "Error" |};
    {| ruleId := js "ai-data-leakage";
       ruleMessage := js "Sensitive Context Leakage: AI tools might accidentally expose context like database schema or PII.";
       vscodeSeverity := SeverityWarning;
       displaySeverity := js "Error" |};
    {| ruleId := js "eval-usage";
       ruleMessage := js "Usage of eval() is a severe security risk.";
       vscodeSeverity := SeverityWarning;
       displaySeverity := js "Error" |};
    {| ruleId := js "dangerously-set-inner-html";
       ruleMessage := js "Usage of dangerouslySetInnerHTML can lead to XSS attacks.";
       vscodeSeverity := SeverityWarning;
       displaySeverity := js "Warning" |};
    {| ruleId := js "insecure-random";
       ruleMessage := js "Math.random() is not cryptographically secure.";
       vscodeSeverity := SeverityInformation;
       displaySeverity := js "Info" |}
  ].

(** What this [scanDocument] obtains from the platform besides [Host] and
    [Workspace]:
    - [ruleExecAll id text]: the matches that the loop over [rule.regex.exec]
      goes through for the rule of that id, in order (every pattern of the
      table consumes at least one code unit per match);
    - [importsDatabaseClient text]: the [test] of the pattern for imports of
      a database client;
    - [positionAt document offset]: [document.positionAt(offset)];
    - [getEnd node]: [node.getEnd()]. *)
Class RuleEngine := {
  ruleExecAll : jsstring -> jsstring -> list RegExpMatch;
  importsDatabaseClient : jsstring -> bool;
  positionAt : TextDocument -> nat -> Position;
  getEnd : Node -> nat
}.

(** The local variables [diagnostics] and [vulnerabilities]. *)
Record ScanState := { diagnostics : list Diagnostic; vulnerabilityCount : Z }.

(** [diagnostics.push(diagnostic); vulnerabilities++;] for a diagnostic with
    source ['ReadyOrNot']. *)
Definition report (r : Range) (msg : jsstring) (sev : DiagnosticSeverity)
    (ruleCode : jsstring) (st : ScanState) : ScanState :=
  {| diagnostics :=
       diagnostics st
       ++ [{| range := r; message := msg; diagnosticSeverity := sev;
              code := ruleCode; source := js "ReadyOrNot" |}];
     vulnerabilityCount := vulnerabilityCount st + 1 |}.

(** [vulnerabilityRules.find(r => r.id === id)] *)
Definition findRule (ruleCode : jsstring) : option VulnerabilityRule :=
  find (fun r => bool_decide (ruleId r = ruleCode)) vulnerabilityRules.

(** One of the two tests of the closure [visit]: the range of the node,
    then the rule looked up in the table. *)
Definition reportNode `{RuleEngine} (document : TextDocument) (node : Node)
    (ruleCode : jsstring) (st : ScanState) : ScanState :=
  let startPos := positionAt document (startOf node) in
  let endPos := positionAt document (getEnd node) in
  let r := rangeBetween startPos endPos in
  match findRule ruleCode with
  | Some rule => report r (ruleMessage rule) (vscodeSeverity rule) (ruleId rule) st
  | None => st
  end.

(** The closure [visit] of this extension, with the state it leaves and how
    it completes.  As in the security agent it calls itself through
    [ts.forEachChild]; [stack] is the number of nested calls the call stack
    still holds, and the call after the last throws [RangeError], leaving
    the diagnostics pushed until then. *)
Fixpoint visitDocument `{RuleEngine} (document : TextDocument) (stack : nat)
    (node : Node) (st : ScanState) {struct node}
  : Completion unit * ScanState :=
  match stack with
  | O => (Throw RangeError, st)
  | S stack =>
      match node with
      | mkNode k _ kids =>
          let st := if isEvalCall k
                    then reportNode document node (js "eval-usage") st else st in
          let st := if isInnerHtmlAttribute k
                    then reportNode document node
                           (js "dangerously-set-inner-html") st
                    else st in
          (fix forEachChild (l : list Node) (st : ScanState)
             : Completion unit * ScanState :=
             match l with
             | [] => (Normal tt, st)
             | child :: rest =>
                 match visitDocument document stack child st with
                 | (Normal _, st) => forEachChild rest st
                 | (Throw e, st) => (Throw e, st)
                 end
             end) kids st
      end
  end.

Definition codeExtensions : list jsstring :=
  [js "ts"; js "js"; js "jsx"; js "tsx"; js "json"; js "html"; js "css";
   js "py"; js "java"; js "c"; js "cpp"; js "go"; js "rb"; js "php"].

(** A code unit of the class [[a-zA-Z0-9_-]], letter case ignored. *)
Definition isEnvSuffixUnit (c : N) : bool :=
  (((97 <=? asciiLower c) && (asciiLower c <=? 122))
   || ((48 <=? c) && (c <=? 57)) || (c =? 95) || (c =? 45))%N.

(** [path.match(/\.env(\.[a-zA-Z0-9_-]+)?$/i)] is not [null]: the path ends
    in [.env], or in [.env.] followed by one or more units of the class. *)
Definition isEnvPath (path : jsstring) : bool :=
  endsWith (asciiLower <$> path) (js ".env")
  || existsb (fun n =>
                let suffix := drop n path in
                negb (bool_decide (suffix = []))
                && forallb isEnvSuffixUnit suffix
                && endsWith (asciiLower <$> take n path) (js ".env."))
             (seq 0 (length path)).

(** The body of the loop [for (const rule of vulnerabilityRules)]. *)
Definition scanRule `{RuleEngine} (document : TextDocument)
    (astReportedIds : gset jsstring) (st : ScanState) (rule : VulnerabilityRule)
  : ScanState :=
  if bool_decide (ruleId rule ∈ astReportedIds) then st
  else
    foldl (fun st m =>
             let startPos := positionAt document (index m) in
             let endPos :=
               positionAt document (index m + length (capture m 0))%nat in
             report (rangeBetween startPos endPos) (ruleMessage rule)
                    (vscodeSeverity rule) (ruleId rule) st)
          st (ruleExecAll (ruleId rule) (getText document)).

(** The AST step: the state after it and the set [astReportedIds].  The two
    ids are added after [visit(sourceFile)] has returned, inside the [try]:
    when the parser or the visitor throws, the set stays empty, and the
    diagnostics the visitor pushed before it threw stay. *)
Definition astStep `{Host} `{RuleEngine} (document : TextDocument)
    (st : ScanState) : ScanState * gset jsstring :=
  if matchesExtension scriptExtensions (uriFsPath document)
  then match createSourceFile (uriFsPath document) (getText document) with
       | Normal sourceFile =>
           match visitDocument document callStackSize sourceFile st with
           | (Normal _, st) =>
               (st, ∅ ∪ {[ js "eval-usage" ]}
                      ∪ {[ js "dangerously-set-inner-html" ]})
           | (Throw _, st) => (st, ∅)
           end
       | Throw _ => (st, ∅)
       end
  else (st, ∅).

(** The diagnostics and the count of a document that is scanned. *)
Definition scanText `{Host} `{RuleEngine} (document : TextDocument)
  : ScanState :=
  let st := {| diagnostics := []; vulnerabilityCount := 0 |} in
  let st :=
    if (1000 <? documentLineCount document)%nat
    then report {| startLine := 0; startCharacter := 0;
                   endLine := 0; endCharacter := 1 |}
                (js "Architecture Fragility: Massive single file detected (>1000 lines). Break this down into smaller components.")
                SeverityWarning (js "architecture-fragility") st
    else st in
  let st :=
    if matchesExtension componentExtensions (uriFsPath document)
       && importsDatabaseClient (getText document)
    then report {| startLine := 0; startCharacter := 0;
                   endLine := 0; endCharacter := 1 |}
                (js "Architecture Fragility: Direct database calls or imports detected from client/frontend components.")
                SeverityWarning (js "architecture-fragility-db") st
    else st in
  let '(st, astReportedIds) := astStep document st in
  foldl (scanRule document astReportedIds) st vulnerabilityRules.

(** [scanDocument] of vibecheck/src/extension.ts: the returned number and
    the diagnostic collection afterwards. *)
Definition scanDocumentByRules `{Host} `{Workspace} `{RuleEngine}
    (document : TextDocument)
    (diagnosticCollection : gmap jsstring (list Diagnostic))
  : Z * gmap jsstring (list Diagnostic) :=
  if negb (bool_decide (uriScheme document = js "file"))
  then (0, diagnosticCollection)
  else
    let relativePath := asRelativePath document in
    let isAbsolute := isAbsolutePath relativePath (uriFsPath document) in
    if negb isAbsolute && skippedByIgnore relativePath
    then (0, <[uriString document := []]> diagnosticCollection)
    else
      let isCode := matchesExtension codeExtensions (uriFsPath document) in
      let isEnv := isEnvPath (uriFsPath document) in
      if negb isCode && negb isEnv then (0, diagnosticCollection)
      else
        let st := scanText document in
        (vulnerabilityCount st,
         <[uriString document := diagnostics st]> diagnosticCollection).

(** *** Vocabulary for the first extension *)

(** [step] pushes the diagnostics [out], whatever the state before, and
    counts each of them. *)
Definition extendsBy (step : ScanState -> ScanState) (out : list Diagnostic)
  : Prop :=
  ∀ st, step st = {| diagnostics := diagnostics st ++ out;
                     vulnerabilityCount :=
                       vulnerabilityCount st + Z.of_nat (length out) |}.

(** The state [st] after the diagnostics [out] were pushed and counted. *)
Definition extended (st : ScanState) (out : list Diagnostic) : ScanState :=
  {| diagnostics := diagnostics st ++ out;
     vulnerabilityCount := vulnerabilityCount st + Z.of_nat (length out) |}.

(** The diagnostic of the table rule [rule] over a range. *)
Definition ruleDiagnostic (r : Range) (rule : VulnerabilityRule) : Diagnostic :=
  {| range := r; message := ruleMessage rule;
     diagnosticSeverity := vscodeSeverity rule;
     code := ruleId rule; source := js "ReadyOrNot" |}.

Definition nodeRange `{RuleEngine} (document : TextDocument) (node : Node)
  : Range :=
  rangeBetween (positionAt document (startOf node))
               (positionAt document (getEnd node)).

Definition matchRange `{RuleEngine} (document : TextDocument) (m : RegExpMatch)
  : Range :=
  rangeBetween (positionAt document (index m))
               (positionAt document (index m + length (capture m 0))%nat).

(** What [visit] pushes at one node. *)
Definition nodeDiagnostics `{RuleEngine} (document : TextDocument) (node : Node)
  : list Diagnostic :=
  (if isEvalCall (kindOf node)
   then option_list (ruleDiagnostic (nodeRange document node)
                       <$> findRule (js "eval-usage"))
   else [])
  ++ (if isInnerHtmlAttribute (kindOf node)
      then option_list (ruleDiagnostic (nodeRange document node)
                          <$> findRule (js "dangerously-set-inner-html"))
      else []).

(** What the loop over the table pushes for one rule. *)
Definition ruleDiagnostics `{RuleEngine} (document : TextDocument)
    (astReportedIds : gset jsstring) (rule : VulnerabilityRule)
  : list Diagnostic :=
  if bool_decide (ruleId rule ∈ astReportedIds) then []
  else (fun m => ruleDiagnostic (matchRange document m) rule)
         <$> ruleExecAll (ruleId rule) (getText document).

(** How the AST step of a document can end, with the diagnostics [astOut] it
    pushed and the set [ids] it leaves in [astReportedIds]: the tree was
    walked entirely; or the call stack was exhausted on the way; or the
    document is no script or the parser threw. *)
Definition astOutcome `{Host} `{RuleEngine} (document : TextDocument)
    (astOut : list Diagnostic) (ids : gset jsstring) : Prop :=
  (matchesExtension scriptExtensions (uriFsPath document) = true
   ∧ ∃ sf, createSourceFile (uriFsPath document) (getText document) = Normal sf
           ∧ (depth sf ≤ callStackSize)%nat
           ∧ astOut = nodesOf sf ≫= nodeDiagnostics document
           ∧ ids = ∅ ∪ {[ js "eval-usage" ]}
                     ∪ {[ js "dangerously-set-inner-html" ]})
  ∨ (matchesExtension scriptExtensions (uriFsPath document) = true
     ∧ ∃ sf, createSourceFile (uriFsPath document) (getText document) = Normal sf
             ∧ (callStackSize < depth sf)%nat
             ∧ astOut `prefix_of` (nodesOf sf ≫= nodeDiagnostics document)
             ∧ ids = ∅)
  ∨ ((matchesExtension scriptExtensions (uriFsPath document) = false
      ∨ ∃ e, createSourceFile (uriFsPath document) (getText document) = Throw e)
     ∧ astOut = [] ∧ ids = ∅).

(** The table entry of the rule [eval-usage]. *)
Definition evalRule : VulnerabilityRule :=
  {| ruleId := js "eval-usage";
     ruleMessage := js "Usage of eval() is a severe security risk.";
     vscodeSeverity := SeverityWarning;
     displaySeverity := js "Error" |}.

(** ** The sample workspace in the editor *)

Definition notesFile : WorkspaceFile :=
  {| uri := js "file:///app/notes.md";
     fsPath := js "/app/notes.md";
     content := brokenSource |}.

Definition componentFile : WorkspaceFile :=
  {| uri := js "file:///app/View.tsx";
     fsPath := js "/app/View.tsx";
     content := js "export const View = () => null;" |}.

Definition documentOf (f : WorkspaceFile) : TextDocument :=
  {| uriScheme := js "file";
     uriString := uri f;
     uriFsPath := fsPath f;
     getText := content f;
     documentLineCount := length (split_newline (content f));
     lineAtText := fun i => default [] (split_newline (content f) !! i) |}.

Definition sampleDocument : TextDocument := documentOf sampleFile.

Definition scriptFile : WorkspaceFile :=
  {| uri := js "file:///app/tool.py";
     fsPath := js "/app/tool.py";
     content := js "eval(input())" |}.

(** A workspace rooted at [/app] that ignores [secret.ts]. *)
Definition sampleWorkspace : Workspace :=
  {| asRelativePath := fun document => drop 5 (uriFsPath document);
     ignores := fun path =>
       if decide (path = js "secret.ts") then Normal true
       else if decide (path = js "weird.ts") then Throw TypeError
       else Normal false |}.

Definition sampleEngine : RuleEngine :=
  {| ruleExecAll := fun ruleCode text =>
       if decide (ruleCode = js "eval-usage") then
         if bool_decide (text = sampleSource)
            || bool_decide (text = content scriptFile)
            || bool_decide (text = deepSource)
         then [matchAt 0 (js "eval(")]
         else if bool_decide (text = twiceSource)
         then [matchAt 0 (js "eval("); matchAt 9 (js "eval(")]
         else []
       else if decide (ruleCode = js "env-isolation") then
         if decide (text = sampleSource)
         then [matchAt 17 (js "API_KEY = 'sk-test-12345'")] else []
       else [];
     importsDatabaseClient := fun _ => false;
     positionAt := fun document offset =>
       {| positionLine := lineOfOffset (getText document) offset - 1;
          positionCharacter := offset |};
     getEnd := fun node => (startOf node + 9)%nat |}.

(** * Properties *)

(** ** The model on concrete inputs *)

Example split_newline_empty : split_newline [] = [[]].
Proof. reflexivity. Qed.

Example split_newline_trailing :
  split_newline (js "a" ++ [newline] ++ js "bc" ++ [newline])
  = [js "a"; js "bc"; []].
Proof. reflexivity. Qed.

Example lineOfOffset_sample :
  lineOfOffset sampleSource <$> [0; 10; 11; 17; 43; 44; 60; 1000]%nat
  = [1; 1; 2; 2; 2; 3; 3; 3]%nat.
Proof. reflexivity. Qed.

Example matchesExtension_sample :
  matchesExtension scriptExtensions
    <$> [js "/app/main.ts"; js "/app/View.TSX"; js "/app/a.tsx.bak"; js "ts"; js "/app/x.py"]
  = [true; true; false; false; false].
Proof. vm_compute. reflexivity. Qed.

Example endsWith_sample :
  (fun path => endsWith path (js "package.json"))
    <$> [js "/app/package.json"; js "package.json"; js "on"; js "/app/package.json5"]
  = [true; true; false; false].
Proof. vm_compute. reflexivity. Qed.

Example findIndex_sample :
  findIndex (fun n => (2 <? n)) [1; 2; 3; 4] = 2
  ∧ findIndex (fun n => (9 <? n)) [1; 2; 3; 4] = -1.
Proof. split; reflexivity. Qed.

(** The two [console.log] of line 3 share a key and are reported once. *)
Example uniqueFindings_sample :
  uniqueFindings
    [ secretFinding (js "a.ts") 2;
      loggingFinding (js "a.ts") 3 (matchAt 44 (js "console.log("));
      loggingFinding (js "a.ts") 3 (matchAt 60 (js "console.log("));
      secretFinding (js "a.ts") 2;
      secretFinding (js "b.ts") 2 ]
  = [ secretFinding (js "a.ts") 2;
      loggingFinding (js "a.ts") 3 (matchAt 44 (js "console.log("));
      secretFinding (js "b.ts") 2 ].
Proof. vm_compute. reflexivity. Qed.

Example runDependencyAgent_sample :
  @runDependencyAgent sampleHost [sampleFile; goodManifestFile; manifestFile]
  = Normal [ blacklistedFinding (js "/lib/package.json") (js "request");
             blacklistedFinding (js "/lib/package.json") (js "left-pad");
             malformedFinding (js "/app/package.json") ].
Proof. vm_compute. reflexivity. Qed.

Example runAudit_sample :
  (r ← @runAudit sampleHost [sampleFile];
   mret (keyOf <$> vulnerabilities r, finalScore (scoreDetails r),
         decision (scoreDetails r)))
  = Normal ([ (js "eval-usage", js "/app/main.ts", 1%nat);
              (js "env-isolation", js "/app/main.ts", 2%nat);
              (js "observability-failure", js "/app/main.ts", 3%nat) ],
            48, NO_GO).
Proof. vm_compute. reflexivity. Qed.

(** ** Scoring *)

Section Scoring.

Implicit Types (vs : list Vulnerability) (v : Vulnerability) (c : Counters).

Lemma countOf_nil s : countOf s [] = 0.
Proof. reflexivity. Qed.

Lemma countOf_cons s v vs :
  countOf s (v :: vs) = (if decide (severity v = s) then 1 else 0) + countOf s vs.
Proof.
  unfold countOf. rewrite filter_cons.
  destruct (decide (severity v = s)); simpl; lia.
Qed.

Lemma countOf_app s vs1 vs2 :
  countOf s (vs1 ++ vs2) = countOf s vs1 + countOf s vs2.
Proof. unfold countOf. rewrite filter_app, length_app. lia. Qed.

Lemma countOf_nonneg s vs : 0 <= countOf s vs.
Proof. unfold countOf. lia. Qed.

(** The loop adds the per-severity counts to the counters it starts from. *)
Lemma foldl_tally c vs :
  foldl tally c vs =
    {| errors := errors c + countOf ERROR vs;
       warnings := warnings c + countOf WARNING vs;
       infos := infos c + countOf INFO vs |}.
Proof.
  revert c. induction vs as [|v vs IH]; intros c.
  - simpl. rewrite !countOf_nil. destruct c; simpl; f_equal; lia.
  - simpl. rewrite IH, !countOf_cons. unfold tally.
    destruct v as [? ? sv ? ? ? ? ?]; simpl.
    destruct sv; simpl; f_equal; lia.
Qed.

Lemma countSeverities_spec vs :
  countSeverities vs =
    {| errors := countOf ERROR vs;
       warnings := countOf WARNING vs;
       infos := countOf INFO vs |}.
Proof. unfold countSeverities. rewrite foldl_tally. reflexivity. Qed.

Lemma counts_total vs :
  countOf ERROR vs + countOf WARNING vs + countOf INFO vs = Z.of_nat (length vs).
Proof.
  induction vs as [|v vs IH]; [reflexivity|].
  rewrite !countOf_cons. cbn [length].
  destruct (severity v); simpl in *; lia.
Qed.

(** The score and the decision in terms of the three counts. *)
Lemma finalScore_spec now vs :
  finalScore (scoreDetails (runScoringAgent now vs)) =
    Z.max 0 (100 - countOf ERROR vs * 25 - countOf WARNING vs * 10
               - countOf INFO vs * 2).
Proof. unfold runScoringAgent. rewrite countSeverities_spec. reflexivity. Qed.

Lemma decision_spec now vs :
  decision (scoreDetails (runScoringAgent now vs)) =
    if (0 <? countOf ERROR vs)
       || (finalScore (scoreDetails (runScoringAgent now vs)) <? 50)
    then NO_GO else GO.
Proof. unfold runScoringAgent. rewrite countSeverities_spec. reflexivity. Qed.

(** C1. Whatever the findings, [runScoringAgent] returns a report whose
    counters are the numbers of ERROR, WARNING and INFO findings and whose
    score is 100 - 25 errors - 10 warnings - 2 infos clamped to [0, 100];
    no finding at all gives 100, and two errors, one warning and three infos
    give 34. *)
Theorem runScoringAgent_score now vs :
  let d := scoreDetails (runScoringAgent now vs) in
  errorCount d = countOf ERROR vs
  ∧ warningCount d = countOf WARNING vs
  ∧ infoCount d = countOf INFO vs
  ∧ finalScore d = clamp (100 - 25 * errorCount d - 10 * warningCount d
                            - 2 * infoCount d) 0 100
  ∧ finalScore (scoreDetails (runScoringAgent now [])) = 100
  ∧ (errorCount d = 2 → warningCount d = 1 → infoCount d = 3 →
     finalScore d = 34).
Proof.
  cbv zeta.
  assert (He : errorCount (scoreDetails (runScoringAgent now vs)) = countOf ERROR vs)
    by (unfold runScoringAgent; rewrite countSeverities_spec; reflexivity).
  assert (Hw : warningCount (scoreDetails (runScoringAgent now vs)) = countOf WARNING vs)
    by (unfold runScoringAgent; rewrite countSeverities_spec; reflexivity).
  assert (Hi : infoCount (scoreDetails (runScoringAgent now vs)) = countOf INFO vs)
    by (unfold runScoringAgent; rewrite countSeverities_spec; reflexivity).
  rewrite He, Hw, Hi, finalScore_spec. unfold clamp.
  pose proof (countOf_nonneg ERROR vs). pose proof (countOf_nonneg WARNING vs).
  pose proof (countOf_nonneg INFO vs).
  repeat split; try reflexivity; lia.
Qed.

(** C2. The decision of the report is NO-GO exactly when there is an error
    or the score is below 50.  One error alone scores 75 and is NO-GO; six
    warnings alone score 40 and are NO-GO. *)
Theorem runScoringAgent_decision now vs :
  let d := scoreDetails (runScoringAgent now vs) in
  (decision d = NO_GO ↔ 0 < errorCount d ∨ finalScore d < 50)
  ∧ (errorCount d = 1 → warningCount d = 0 → infoCount d = 0 →
     finalScore d = 75 ∧ decision d = NO_GO)
  ∧ (errorCount d = 0 → warningCount d = 6 → infoCount d = 0 →
     finalScore d = 40 ∧ decision d = NO_GO).
Proof.
  cbv zeta.
  assert (Hd : ∀ P : Verdict → Prop,
    P (if (0 <? errorCount (scoreDetails (runScoringAgent now vs)))
          || (finalScore (scoreDetails (runScoringAgent now vs)) <? 50)
       then NO_GO else GO) →
    P (decision (scoreDetails (runScoringAgent now vs)))) by (intros P HP; exact HP).
  assert (Hs : finalScore (scoreDetails (runScoringAgent now vs)) =
    Z.max 0 (100 - errorCount (scoreDetails (runScoringAgent now vs)) * 25
               - warningCount (scoreDetails (runScoringAgent now vs)) * 10
               - infoCount (scoreDetails (runScoringAgent now vs)) * 2))
    by reflexivity.
  set (e := errorCount (scoreDetails (runScoringAgent now vs))) in *.
  set (sc := finalScore (scoreDetails (runScoringAgent now vs))) in *.
  clearbody e sc.
  split; [|split].
  - apply Hd.
    destruct (Z.ltb_spec 0 e); destruct (Z.ltb_spec sc 50);
      cbn [orb]; split; intros; try discriminate; try reflexivity; lia.
  - intros He Hw Hi. apply Hd. rewrite Hs, He, Hw, Hi. split; reflexivity.
  - intros He Hw Hi. apply Hd. rewrite Hs, He, Hw, Hi. split; reflexivity.
Qed.

(** C7. Putting one more finding [f] anywhere into a list of findings never
    raises the score, whatever the severity of [f] (so in particular when it
    is ERROR), and a NO-GO stays a NO-GO. *)
Theorem runScoringAgent_monotone now (a b : list Vulnerability) (f : Vulnerability) :
  let before := scoreDetails (runScoringAgent now (a ++ b)) in
  let after := scoreDetails (runScoringAgent now (a ++ f :: b)) in
  finalScore after <= finalScore before
  ∧ (decision before = NO_GO → decision after = NO_GO).
Proof.
  cbv zeta. rewrite !decision_spec, !finalScore_spec.
  rewrite !countOf_app, !countOf_cons.
  pose proof (countOf_nonneg ERROR a). pose proof (countOf_nonneg ERROR b).
  pose proof (countOf_nonneg WARNING a). pose proof (countOf_nonneg WARNING b).
  pose proof (countOf_nonneg INFO a). pose proof (countOf_nonneg INFO b).
  split.
  - destruct (severity f); simpl; lia.
  - repeat match goal with
           | |- context [ (?x <? ?y) ] => destruct (Z.ltb_spec x y)
           end; simpl; intros; try reflexivity; try discriminate;
      destruct (severity f); simpl in *; lia.
Qed.

(** C10. In the report, [totalVulnerabilities] is the length of the
    [vulnerabilities] array and the sum of the three counters; [infoCount]
    counts every finding that is neither ERROR nor WARNING, so the findings
    counted by the three counters are a rearrangement of the whole list. *)
Theorem runScoringAgent_counts_partition now vs :
  let r := runScoringAgent now vs in
  let d := scoreDetails r in
  totalVulnerabilities d = Z.of_nat (length (vulnerabilities r))
  ∧ totalVulnerabilities d = errorCount d + warningCount d + infoCount d
  ∧ errorCount d = Z.of_nat (length (filter (fun v => severity v = ERROR) vs))
  ∧ warningCount d = Z.of_nat (length (filter (fun v => severity v = WARNING) vs))
  ∧ infoCount d =
      Z.of_nat (length (filter (fun v => severity v ≠ ERROR ∧ severity v ≠ WARNING) vs))
  ∧ filter (fun v => severity v = ERROR) vs
      ++ filter (fun v => severity v = WARNING) vs
      ++ filter (fun v => severity v ≠ ERROR ∧ severity v ≠ WARNING) vs
      ≡ₚ vs.
Proof.
  cbv zeta.
  assert (Hinfo : ∀ l : list Vulnerability,
    filter (fun v => severity v ≠ ERROR ∧ severity v ≠ WARNING) l
    = filter (fun v => severity v = INFO) l).
  { intros l. apply list_filter_iff. intros v.
    destruct (severity v); split; intros; try done; intuition congruence. }
  unfold runScoringAgent; rewrite countSeverities_spec; cbn [scoreDetails
    vulnerabilities totalVulnerabilities errorCount warningCount infoCount
    errors warnings infos].
  rewrite Hinfo.
  repeat split; try reflexivity.
  - symmetry. apply counts_total.
  - clear Hinfo. induction vs as [|v vs IH]; [reflexivity|].
    rewrite !filter_cons.
    destruct v as [? ? sv ? ? ? ? ?]; destruct sv; simpl.
    + by constructor.
    + rewrite <- Permutation_middle. by constructor.
    + rewrite app_assoc, <- Permutation_middle, <- app_assoc. by constructor.
Qed.

End Scoring.

(** ** Offsets and line numbers *)

Section Lines.

Implicit Types (s text cur : jsstring) (i k n offset : nat).

Local Open Scope nat_scope.

Lemma split_from_length cur s i :
  length (split_from cur s) = S (length (newlineOffsetsFrom i s)).
Proof.
  revert cur i. induction s as [|c s IH]; intros cur i; simpl; [done|].
  destruct (N.eqb c newline); simpl; by rewrite (IH _ (S i)).
Qed.

Lemma newlineOffsetsFrom_lower i s :
  Forall (fun x => i ≤ x) (newlineOffsetsFrom i s).
Proof.
  revert i. induction s as [|c s IH]; intros i; simpl; [constructor|].
  assert (Forall (fun x => i ≤ x) (newlineOffsetsFrom (S i) s)).
  { eapply Forall_impl; [apply IH|]. simpl. lia. }
  destruct (N.eqb c newline); [constructor; [lia|done]|done].
Qed.

Lemma newlineOffsetsFrom_sorted i s :
  StronglySorted lt (newlineOffsetsFrom i s).
Proof.
  revert i. induction s as [|c s IH]; intros i; simpl; [constructor|].
  destruct (N.eqb c newline); [|apply IH].
  constructor; [apply IH|].
  eapply Forall_impl; [apply (newlineOffsetsFrom_lower (S i))|]. simpl. lia.
Qed.

Lemma filter_none {A} (P : A → Prop) `{!∀ x, Decision (P x)} (l : list A) :
  Forall (fun x => ¬ P x) l → filter P l = [].
Proof.
  induction 1 as [|x l Hx _ IH]; [done|].
  by rewrite filter_cons_False.
Qed.

Lemma filter_all {A} (P : A → Prop) `{!∀ x, Decision (P x)} (l : list A) :
  Forall P l → filter P l = l.
Proof.
  induction 1 as [|x l Hx _ IH]; [done|].
  rewrite filter_cons_True by done. by rewrite IH.
Qed.

(** The newlines of a prefix are the newlines of the text that lie in it. *)
Lemma newlineOffsetsFrom_take i k s :
  newlineOffsetsFrom i (take k s) =
    filter (fun x => x < i + k) (newlineOffsetsFrom i s).
Proof.
  revert i k. induction s as [|c s IH]; intros i k.
  - by rewrite take_nil.
  - destruct k as [|k].
    + simpl take. simpl newlineOffsetsFrom at 1. symmetry. apply filter_none.
      eapply Forall_impl; [apply (newlineOffsetsFrom_lower i (c :: s))|].
      simpl. lia.
    + simpl. destruct (N.eqb c newline).
      * rewrite filter_cons_True by lia. rewrite IH. f_equal.
        apply list_filter_iff. intros x. lia.
      * rewrite IH. apply list_filter_iff. intros x. lia.
Qed.

(** The conversion counts the newlines before the offset and adds one. *)
Lemma lineOfOffset_newlines text offset :
  lineOfOffset text offset =
    S (length (filter (fun x => x < offset) (newlineOffsets text))).
Proof.
  unfold lineOfOffset, split_newline, substring0, newlineOffsets.
  rewrite (split_from_length _ _ 0), newlineOffsetsFrom_take. done.
Qed.

Lemma sorted_below_succ (l : list nat) k x :
  StronglySorted lt l → l !! k = Some x →
  length (filter (fun y => y < S x) l) = S k.
Proof.
  intros Hs. revert k. induction Hs as [|y l Hs IH Hy]; intros k Hk; [done|].
  destruct k as [|k]; simpl in Hk.
  - injection Hk as ->. rewrite filter_cons_True by lia.
    rewrite filter_none; [done|].
    eapply Forall_impl; [exact Hy|]. simpl. lia.
  - assert (y < x).
    { rewrite Forall_forall in Hy. apply Hy. by eapply list_elem_of_lookup_2. }
    rewrite filter_cons_True by lia. simpl. f_equal. by apply IH.
Qed.

Lemma lineStart_bound text n offset :
  lineStart text n = Some offset → offset ≤ length text.
Proof.
  assert (Hup : ∀ s i, Forall (fun x => x < i + length s) (newlineOffsetsFrom i s)).
  { induction s as [|c s IH]; intros i; simpl; [constructor|].
    assert (Forall (fun x => x < i + S (length s)) (newlineOffsetsFrom (S i) s)).
    { eapply Forall_impl; [apply IH|]. simpl. lia. }
    destruct (N.eqb c newline); [constructor; [lia|done]|done]. }
  destruct n as [|[|k]]; simpl; [done| |].
  - intros [= <-]. lia.
  - destruct (newlineOffsets text !! k) as [x|] eqn:Hx; [|done].
    intros [= <-]. apply list_elem_of_lookup_2 in Hx.
    specialize (Hup text 0). rewrite Forall_forall in Hup.
    apply Hup in Hx. simpl in Hx. lia.
Qed.

(** C8. Every line [n] of a text, from the first to the last, has a first
    offset (offset 0 for line 1, one past the [(n-1)]-th newline otherwise),
    that offset lies in the text or at its end, and the expression the agents
    use to turn a match offset into a line number gives exactly [n] there.
    In particular offset 0 is reported as line 1. *)
Theorem lineOfOffset_at_line_start text n :
  1 ≤ n ≤ lineCount text →
  lineOfOffset text 0 = 1
  ∧ ∃ offset, lineStart text n = Some offset
              ∧ offset ≤ length text
              ∧ lineOfOffset text offset = n.
Proof.
  intros [Hlo Hhi]. split.
  - unfold lineOfOffset, substring0. by rewrite take_0.
  - destruct n as [|[|k]]; [lia| |].
    + exists 0. split; [done|]. split; [lia|].
      unfold lineOfOffset, substring0. by rewrite take_0.
    + unfold lineCount in Hhi.
      destruct (lookup_lt_is_Some_2 (newlineOffsets text) k) as [x Hx]; [lia|].
      exists (S x). split; [simpl; by rewrite Hx|]. split.
      * apply (lineStart_bound text (S (S k))). simpl. by rewrite Hx.
      * rewrite lineOfOffset_newlines. f_equal.
        apply sorted_below_succ; [apply newlineOffsetsFrom_sorted|done].
Qed.

Lemma lineCount_split text : lineCount text = length (split_newline text).
Proof. unfold lineCount, split_newline, newlineOffsets. by rewrite (split_from_length _ _ 0). Qed.

(** *** What the conversion reads *)

Lemma split_from_counting_spec cur s :
  split_from_counting cur s = (split_from cur s, length s).
Proof.
  revert cur. induction s as [|c s IH]; intros cur; simpl; [done|].
  destruct (N.eqb c newline); by rewrite IH.
Qed.

Lemma lineOfOffset_counting_spec text offset :
  lineOfOffset_counting text offset =
    (lineOfOffset text offset, offset `min` length text).
Proof.
  unfold lineOfOffset_counting, lineOfOffset, split_newline, substring0.
  rewrite split_from_counting_spec, length_take. done.
Qed.

(** *** Bisection over the newline index *)

Lemma sorted_lookup_lt (l : list nat) a b x y :
  StronglySorted lt l → l !! a = Some x → l !! b = Some y → a < b → x < y.
Proof.
  intros Hs. revert a b. induction Hs as [|z l Hs IH Hz]; intros a b Ha Hb Hab.
  - done.
  - destruct b as [|b]; [lia|]. destruct a as [|a]; simpl in *.
    + injection Ha as ->. rewrite Forall_forall in Hz. apply Hz.
      by eapply list_elem_of_lookup_2.
    + eapply IH; [done..|lia].
Qed.

Lemma filter_below_boundary (l : list nat) offset lo :
  lo ≤ length l →
  (∀ a x, l !! a = Some x → a < lo → x < offset) →
  (∀ a x, l !! a = Some x → lo ≤ a → offset ≤ x) →
  length (filter (fun x => x < offset) l) = lo.
Proof.
  intros Hlo Hbelow Habove.
  rewrite <- (take_drop lo l), filter_app, length_app.
  rewrite filter_all, filter_none.
  - rewrite length_take. simpl. lia.
  - apply Forall_lookup. intros a x Ha. rewrite lookup_drop in Ha.
    apply Habove in Ha; lia.
  - apply Forall_lookup. intros a x Ha.
    pose proof (lookup_lt_Some _ _ _ Ha) as Hlt. rewrite length_take in Hlt.
    rewrite lookup_take_lt in Ha by lia. apply Hbelow in Ha; lia.
Qed.

Lemma bisect_spec fuel (idx : list nat) offset lo hi :
  StronglySorted lt idx →
  lo ≤ hi → hi ≤ length idx → hi - lo < fuel →
  (∀ a x, idx !! a = Some x → a < lo → x < offset) →
  (∀ a x, idx !! a = Some x → hi ≤ a → offset ≤ x) →
  (bisect fuel idx offset lo hi).1 = length (filter (fun x => x < offset) idx).
Proof.
  intros Hs. revert lo hi.
  induction fuel as [|fuel IH]; intros lo hi Hle Hhi Hfuel Hbelow Habove; [lia|].
  cbn [bisect]. destruct (Nat.ltb_spec lo hi) as [Hlt|Hge].
  - set (mid := (lo + hi) / 2).
    assert (lo ≤ mid < hi) as [Hm1 Hm2].
    { subst mid. split.
      - apply Nat.div_le_lower_bound; lia.
      - apply Nat.Div0.div_lt_upper_bound; lia. }
    destruct (lookup_lt_is_Some_2 idx mid) as [x Hx]; [lia|]. rewrite Hx.
    destruct (Nat.ltb_spec x offset) as [Hxo|Hxo].
    + specialize (IH (S mid) hi).
      destruct (bisect fuel idx offset (S mid) hi) as [r probes]. simpl in *.
      apply IH; [lia..| |done].
      intros a y Ha Hlt'. destruct (decide (a = mid)) as [->|Hne].
      * rewrite Hx in Ha. injection Ha as ->. done.
      * pose proof (sorted_lookup_lt idx a mid y x Hs Ha Hx). lia.
    + specialize (IH lo mid).
      destruct (bisect fuel idx offset lo mid) as [r probes]. simpl in *.
      apply IH; [lia..|done|].
      intros a y Ha Hge'. destruct (decide (a = mid)) as [->|Hne].
      * rewrite Hx in Ha. injection Ha as ->. done.
      * pose proof (sorted_lookup_lt idx mid a x y Hs Hx Ha). lia.
  - simpl. symmetry. apply filter_below_boundary; [lia|done|].
    intros a x Ha Hla. apply (Habove a x Ha). lia.
Qed.

(** A bisection probes at most [log2 (hi - lo) + 1] entries. *)
Lemma bisect_probes fuel (idx : list nat) offset lo hi :
  lo < hi → (bisect fuel idx offset lo hi).2 ≤ S (Nat.log2 (hi - lo)).
Proof.
  revert lo hi. induction fuel as [|fuel IH]; intros lo hi Hlt; [simpl; lia|].
  cbn [bisect]. destruct (Nat.ltb_spec lo hi) as [_|?]; [|lia].
  set (mid := (lo + hi) / 2).
  assert (lo ≤ mid < hi) as [Hm1 Hm2].
  { subst mid. split.
    - apply Nat.div_le_lower_bound; lia.
    - apply Nat.Div0.div_lt_upper_bound; lia. }
  assert (Hhalf : ∀ d, 0 < d → d ≤ (hi - lo) / 2 →
                       S (Nat.log2 d) ≤ Nat.log2 (hi - lo)).
  { intros d Hd Hle.
    assert (2 * d ≤ hi - lo).
    { pose proof (Nat.Div0.mul_div_le (hi - lo) 2). lia. }
    rewrite <- Nat.log2_double by done. by apply Nat.log2_le_mono. }
  assert (Hleft : mid - lo ≤ (hi - lo) / 2).
  { subst mid. apply Nat.div_le_lower_bound; [lia|].
    pose proof (Nat.Div0.mul_div_le (lo + hi) 2). lia. }
  assert (Hright : hi - S mid ≤ (hi - lo) / 2).
  { apply Nat.div_le_lower_bound; [lia|]. subst mid.
    pose proof (Nat.mul_succ_div_gt (lo + hi) 2). lia. }
  destruct (idx !! mid) as [x|]; [|simpl; lia].
  destruct (x <? offset).
  - destruct (decide (S mid < hi)) as [Hr|Hr].
    + specialize (IH (S mid) hi Hr).
      destruct (bisect fuel idx offset (S mid) hi) as [r probes]. simpl in *.
      pose proof (Hhalf (hi - S mid)). lia.
    + destruct fuel as [|fuel']; [simpl; lia|]. cbn [bisect].
      destruct (Nat.ltb_spec (S mid) hi); [lia|]. simpl. lia.
  - destruct (decide (lo < mid)) as [Hl|Hl].
    + specialize (IH lo mid Hl).
      destruct (bisect fuel idx offset lo mid) as [r probes]. simpl in *.
      pose proof (Hhalf (mid - lo)). lia.
    + destruct fuel as [|fuel']; [simpl; lia|]. cbn [bisect].
      destruct (Nat.ltb_spec lo mid); [lia|]. simpl. lia.
Qed.

(** The indexed conversion and the one in the sources agree on the line
    number. *)
Lemma lineOfOffset_indexed_line text offset :
  (lineOfOffset_indexed (newlineOffsets text) offset).1 = lineOfOffset text offset.
Proof.
  unfold lineOfOffset_indexed.
  pose proof (bisect_spec (S (length (newlineOffsets text))) (newlineOffsets text)
                offset 0 (length (newlineOffsets text))) as Hb.
  destruct (bisect _ _ _ _ _) as [r probes]. simpl in *.
  rewrite lineOfOffset_newlines. f_equal. apply Hb.
  - apply newlineOffsetsFrom_sorted.
  - lia.
  - lia.
  - lia.
  - intros; lia.
  - intros a x Ha Hge. apply lookup_lt_Some in Ha. lia.
Qed.

(** C9 (amended). The agents build no newline index: for every match they
    cut the prefix of the file up to the match offset and split it, which
    reads every code unit of that prefix.  The line number they obtain is the
    one a bisection of the sorted newline index would give. *)
Theorem lineOfOffset_rescans_prefix text offset :
  (lineOfOffset_counting text offset).1 = lineOfOffset text offset
  ∧ (lineOfOffset_counting text offset).2 = offset `min` length text
  ∧ lineOfOffset text offset =
      (lineOfOffset_indexed (newlineOffsets text) offset).1.
Proof.
  rewrite lineOfOffset_counting_spec, lineOfOffset_indexed_line. done.
Qed.

(** C9, as the specification words it, fails: it would make the conversion
    of one match read no more of the file than a bisection probes index
    entries.  On the text [fiveLines], for a match at offset 8 (the start of
    line 5), the sources read the 8 code units of the prefix, where a
    bisection of the four-entry index probes 2 entries. *)
Lemma lineOfOffset_not_indexed :
  ¬ (∀ text offset,
       (lineOfOffset_counting text offset).2
       ≤ (lineOfOffset_indexed (newlineOffsets text) offset).2).
Proof.
  intros H. specialize (H fiveLines 8). vm_compute in H. lia.
Qed.

End Lines.

(** ** Deduplication *)

Section Dedup.

Implicit Types (v w t x : Vulnerability) (l pre rest self : list Vulnerability).
Implicit Types (seen : list (jsstring * jsstring * nat)).

Lemma sameKey_keyOf t x : sameKey t x = true ↔ keyOf t = keyOf x.
Proof.
  unfold sameKey, keyOf. rewrite !andb_true_iff, !bool_decide_eq_true.
  split; [intros [[-> ->] ->]; done | intros [= -> -> ->]; done].
Qed.

Lemma sameKey_false t x : sameKey t x = false ↔ keyOf t ≠ keyOf x.
Proof.
  rewrite <- sameKey_keyOf. destruct (sameKey t x); split; congruence.
Qed.

Lemma findIndexFrom_skip {A} (p : A → bool) i (skipped l : list A) :
  Forall (fun y => p y = false) skipped →
  findIndexFrom p i (skipped ++ l) =
    findIndexFrom p (i + Z.of_nat (length skipped)) l.
Proof.
  intros Hs. revert i. induction Hs as [|y skipped Ht _ IH]; intros i; simpl.
  - f_equal. lia.
  - rewrite Ht, IH. f_equal. lia.
Qed.

Lemma findIndexFrom_early {A} (p : A → bool) i (before l : list A) :
  Exists (fun y => p y = true) before →
  i <= findIndexFrom p i (before ++ l) < i + Z.of_nat (length before).
Proof.
  intros He. revert i. induction before as [|y before IH]; intros i.
  - inversion He.
  - simpl. destruct (p y) eqn:Ht; [lia|].
    inversion He as [? ? Hp|? ? He']; subst; [congruence|].
    specialize (IH He' (i + 1)). lia.
Qed.

(** The [filter]/[findIndex] idiom of [runAudit] keeps, from left to right,
    the findings whose key did not occur before. *)
Lemma filterFrom_keepFirst seen pre rest :
  (∀ k, k ∈ seen ↔ k ∈ keyOf <$> pre) →
  filterFrom (fun x i => i =? findIndex (fun t => sameKey t x) (pre ++ rest))
             (Z.of_nat (length pre)) rest
  = keepFirst seen rest.
Proof.
  revert seen pre. induction rest as [|x rest IH]; intros seen pre Hseen; [done|].
  cbn [filterFrom keepFirst].
  replace (pre ++ x :: rest) with ((pre ++ [x]) ++ rest) in * by (by rewrite <- app_assoc).
  replace (Z.of_nat (length pre) + 1) with (Z.of_nat (length (pre ++ [x])))
    by (rewrite length_app; simpl; lia).
  destruct (decide (keyOf x ∈ seen)) as [Hin|Hnin].
  - assert (Hearly : Exists (fun t => sameKey t x = true) pre).
    { apply Hseen, list_elem_of_fmap in Hin as (t & Ht & Hpre).
      apply Exists_exists. exists t. split; [done|]. by apply sameKey_keyOf. }
    pose proof (findIndexFrom_early _ 0 pre ([x] ++ rest) Hearly) as Hr.
    unfold findIndex at 1. rewrite <- app_assoc.
    destruct (Z.eqb_spec (Z.of_nat (length pre))
                (findIndexFrom (fun t => sameKey t x) 0 (pre ++ [x] ++ rest))); [lia|].
    rewrite app_assoc. apply IH. intros k. rewrite fmap_app, elem_of_app, <- Hseen.
    simpl. rewrite list_elem_of_singleton. split; [auto|]. by intros [?| ->].
  - assert (Hskip : Forall (fun t => sameKey t x = false) pre).
    { apply Forall_forall. intros t Ht. apply sameKey_false. intros Hk.
      apply Hnin, Hseen. rewrite <- Hk. by apply list_elem_of_fmap_2. }
    unfold findIndex at 1. rewrite <- app_assoc.
    rewrite (findIndexFrom_skip _ 0 pre ([x] ++ rest) Hskip). simpl.
    assert (sameKey x x = true) as -> by (by apply sameKey_keyOf).
    rewrite Z.eqb_refl. f_equal.
    replace (pre ++ x :: rest) with ((pre ++ [x]) ++ rest) by (by rewrite <- app_assoc).
    apply IH. intros k. rewrite fmap_app, elem_of_app, elem_of_cons, <- Hseen.
    simpl. rewrite list_elem_of_singleton. tauto.
Qed.

Lemma uniqueFindings_keepFirst l : uniqueFindings l = keepFirst [] l.
Proof.
  unfold uniqueFindings, filterIndexed.
  apply (filterFrom_keepFirst [] [] l). intros k. simpl. done.
Qed.

Lemma keepFirst_sublist seen l : keepFirst seen l `sublist_of` l.
Proof.
  revert seen. induction l as [|x l IH]; intros seen; simpl; [done|].
  destruct (decide _); [apply sublist_cons | apply sublist_skip]; auto.
Qed.

Lemma keepFirst_fresh seen l w : w ∈ keepFirst seen l → keyOf w ∉ seen.
Proof.
  revert seen. induction l as [|x l IH]; intros seen; simpl; [by intros ?%elem_of_nil|].
  destruct (decide _) as [|Hn]; [by apply IH|].
  intros [->|Hw]%elem_of_cons; [done|].
  apply IH in Hw. rewrite elem_of_cons in Hw. tauto.
Qed.

Lemma keepFirst_NoDup seen l : NoDup (keyOf <$> keepFirst seen l).
Proof.
  revert seen. induction l as [|x l IH]; intros seen; simpl; [constructor|].
  destruct (decide _); [apply IH|].
  rewrite fmap_cons. constructor; [|apply IH].
  intros (w & Hk & Hw)%list_elem_of_fmap.
  apply keepFirst_fresh in Hw. rewrite <- Hk in Hw. apply Hw. by left.
Qed.

(** What is kept are exactly the first occurrences of the keys. *)
Lemma keepFirst_elem seen l w :
  w ∈ keepFirst seen l ↔
  ∃ i, l !! i = Some w ∧ (keyOf w ∉ seen)
       ∧ ∀ j u, (j < i)%nat → l !! j = Some u → keyOf u ≠ keyOf w.
Proof.
  revert seen. induction l as [|x l IH]; intros seen; simpl.
  - split; [intros ?%elem_of_nil; done | intros (i & ? & _); done].
  - destruct (decide (keyOf x ∈ seen)) as [Hin|Hnin].
    + rewrite IH. split.
      * intros (i & Hi & Hw & Hfirst). exists (S i). repeat split; [done..|].
        intros [|j] u Hj Hu; simpl in Hu; [|eapply Hfirst; [|done]; lia].
        injection Hu as <-. congruence.
      * intros ([|i] & Hi & Hw & Hfirst); simpl in Hi; [congruence|].
        exists i. repeat split; [done..|].
        intros j u Hj Hu. apply (Hfirst (S j)); [lia|done].
    + rewrite elem_of_cons, IH. split.
      * intros [->|(i & Hi & Hw & Hfirst)].
        -- exists 0%nat. repeat split; [done|]. intros j u Hj. lia.
        -- rewrite not_elem_of_cons in Hw. destruct Hw as [Hne Hw].
           exists (S i). repeat split; [done..|].
           intros [|j] u Hj Hu; simpl in Hu; [|eapply Hfirst; [|done]; lia].
           injection Hu as <-. congruence.
      * intros ([|i] & Hi & Hw & Hfirst); simpl in Hi.
        -- left. congruence.
        -- right. exists i. repeat split; [done| |].
           ++ rewrite not_elem_of_cons. split; [|done].
              intros Heq. apply (Hfirst 0%nat x); [lia|done|done].
           ++ intros j u Hj Hu. apply (Hfirst (S j)); [lia|done].
Qed.

Lemma keepFirst_covers seen l v :
  v ∈ l → keyOf v ∉ seen → ∃ w, w ∈ keepFirst seen l ∧ keyOf w = keyOf v.
Proof.
  revert seen. induction l as [|x l IH]; intros seen; [by intros ?%elem_of_nil|].
  intros Hv Hseen. simpl.
  destruct (decide (keyOf x ∈ seen)) as [Hin|Hnin].
  - apply elem_of_cons in Hv as [->|Hv]; [done|]. by apply IH.
  - destruct (decide (keyOf x = keyOf v)) as [Heq|Hne].
    + exists x. split; [by left|done].
    + apply elem_of_cons in Hv as [->|Hv]; [done|].
      destruct (IH (keyOf x :: seen) Hv) as (w & Hw & Hk).
      * rewrite not_elem_of_cons. split; [congruence|done].
      * exists w. split; [by right|done].
Qed.

Lemma NoDup_fmap_filter_one {A B} `{EqDecision B} (f : A → B) (l : list A) (a : A) :
  NoDup (f <$> l) → a ∈ l → filter (fun b => f b = f a) l = [a].
Proof.
  induction l as [|y l IH]; [by intros _ ?%elem_of_nil|].
  rewrite fmap_cons, NoDup_cons. intros [Hy Hnd] Ha.
  apply elem_of_cons in Ha as [->|Ha].
  - rewrite filter_cons_True by done. f_equal.
    apply filter_none. apply Forall_forall. intros b Hb Heq.
    apply Hy. rewrite <- Heq. by apply list_elem_of_fmap_2.
  - rewrite filter_cons_False; [by apply IH|].
    intros Heq. apply Hy. rewrite Heq. by apply list_elem_of_fmap_2.
Qed.

(** What [uniqueFindings] guarantees, in one place. *)
Lemma uniqueFindings_spec l :
  NoDup (keyOf <$> uniqueFindings l)
  ∧ uniqueFindings l `sublist_of` l
  ∧ (∀ w, w ∈ uniqueFindings l ↔
          ∃ i, l !! i = Some w
               ∧ ∀ j u, (j < i)%nat → l !! j = Some u → keyOf u ≠ keyOf w)
  ∧ (∀ v, v ∈ l →
          length (filter (fun w => keyOf w = keyOf v) (uniqueFindings l)) = 1%nat).
Proof.
  rewrite uniqueFindings_keepFirst. split; [apply keepFirst_NoDup|].
  split; [apply keepFirst_sublist|]. split.
  - intros w. rewrite keepFirst_elem. split.
    + intros (i & Hi & _ & Hfirst). eauto.
    + intros (i & Hi & Hfirst). exists i. repeat split; [done| |done].
      by intros ?%elem_of_nil.
  - intros v Hv.
    destruct (keepFirst_covers [] l v Hv) as (w & Hw & Hk); [by intros ?%elem_of_nil|].
    rewrite <- Hk.
    rewrite (NoDup_fmap_filter_one keyOf _ w); [done|apply keepFirst_NoDup|done].
Qed.

End Dedup.

(** ** The effects of agent code *)

Section Effects.

Context {A B : Type}.
Implicit Types (P : Vulnerability → Prop) (out : list Vulnerability).

Lemma pushes_pushedBy (m : Agent A) r out : pushes m r out → pushedBy m = out.
Proof. intros Hm. unfold pushedBy. by rewrite (Hm []). Qed.

Lemma pushes_ret (a : A) : pushes (mret a) (Normal a) [].
Proof. intros fs. by rewrite app_nil_r. Qed.

Lemma pushes_eval_in (c : Completion A) : pushes (eval_in c) c [].
Proof. intros fs. by rewrite app_nil_r. Qed.

Lemma pushes_bind (m : Agent A) (k : A → Agent B) a r o1 o2 :
  pushes m (Normal a) o1 → pushes (k a) r o2 → pushes (m ≫= k) r (o1 ++ o2).
Proof.
  intros Hm Hk fs. unfold mbind, Agent_bind.
  by rewrite (Hm fs), (Hk (fs ++ o1)), app_assoc.
Qed.

Lemma pushes_bind_throw (m : Agent A) (k : A → Agent B) e out :
  pushes m (Throw e) out → pushes (m ≫= k) (Throw e) out.
Proof. intros Hm fs. unfold mbind, Agent_bind. by rewrite (Hm fs). Qed.

Lemma pushes_tryCatch_normal (body : Agent A) handler a out :
  pushes body (Normal a) out → pushes (tryCatch body handler) (Normal a) out.
Proof. intros Hb fs. unfold tryCatch. by rewrite (Hb fs). Qed.

Lemma pushes_tryCatch_throw (body : Agent A) handler e r o1 o2 :
  pushes body (Throw e) o1 → pushes (handler e) r o2 →
  pushes (tryCatch body handler) r (o1 ++ o2).
Proof.
  intros Hb Hh fs. unfold tryCatch.
  by rewrite (Hb fs), (Hh (fs ++ o1)), app_assoc.
Qed.

Lemma quiet_appends P (m : Agent A) : quiet P m → appends P m.
Proof. intros (a & out & Hm & HP). by exists (Normal a), out. Qed.

Lemma quiet_mono P Q (m : Agent A) :
  (∀ v, P v → Q v) → quiet P m → quiet Q m.
Proof.
  intros HPQ (a & out & Hm & HP). exists a, out. split; [done|].
  by eapply Forall_impl.
Qed.

Lemma quiet_ret P (a : A) : quiet P (mret a).
Proof. exists a, []. split; [apply pushes_ret|constructor]. Qed.

Lemma appends_eval_in P (c : Completion A) : appends P (eval_in c).
Proof. exists c, []. split; [apply pushes_eval_in|constructor]. Qed.

Lemma quiet_bind P (m : Agent A) (k : A → Agent B) :
  quiet P m → (∀ a, quiet P (k a)) → quiet P (m ≫= k).
Proof.
  intros (a & o1 & Hm & H1) Hk. destruct (Hk a) as (b & o2 & Hka & H2).
  exists b, (o1 ++ o2). split; [by eapply pushes_bind|by apply Forall_app].
Qed.

Lemma appends_bind P (m : Agent A) (k : A → Agent B) :
  appends P m → (∀ a, appends P (k a)) → appends P (m ≫= k).
Proof.
  intros ([a|e] & o1 & Hm & H1) Hk.
  - destruct (Hk a) as (r & o2 & Hka & H2).
    exists r, (o1 ++ o2). split; [by eapply pushes_bind|by apply Forall_app].
  - exists (Throw e), o1. split; [by apply pushes_bind_throw|done].
Qed.

Lemma quiet_tryCatch P (body : Agent A) handler :
  appends P body → (∀ e, quiet P (handler e)) → quiet P (tryCatch body handler).
Proof.
  intros ([a|e] & o1 & Hb & H1) Hh.
  - exists a, o1. split; [by apply pushes_tryCatch_normal|done].
  - destruct (Hh e) as (a & o2 & Hhe & H2).
    exists a, (o1 ++ o2). split; [by eapply pushes_tryCatch_throw|by apply Forall_app].
Qed.

Lemma quiet_bind_value P (a : A) (k : A → Agent B) :
  quiet P (k a) → quiet P (eval_in (Normal a) ≫= k).
Proof.
  intros (b & out & Hk & HP). exists b, out. split; [|done].
  apply (pushes_bind _ _ a _ [] out); [apply pushes_eval_in|done].
Qed.

Lemma quiet_if P (b : bool) (m1 m2 : Agent A) :
  quiet P m1 → quiet P m2 → quiet P (if b then m1 else m2).
Proof. by destruct b. Qed.

End Effects.

Section Loops.

Context {A : Type}.
Implicit Types (P : Vulnerability → Prop) (xs : list A) (body : A → Agent unit).

Lemma pushes_push v : pushes (push v) (Normal tt) [v].
Proof. by intros fs. Qed.

Lemma quiet_push P v : P v → quiet P (push v).
Proof. intros Hv. exists tt, [v]. split; [apply pushes_push|by constructor]. Qed.

Lemma pushes_forOf xs body (out : A → list Vulnerability) :
  (∀ x, x ∈ xs → pushes (body x) (Normal tt) (out x)) →
  pushes (forOf xs body) (Normal tt) (xs ≫= out).
Proof.
  induction xs as [|x xs IH]; intros Hbody; cbn [forOf].
  - apply pushes_ret.
  - rewrite bind_cons. eapply pushes_bind.
    + apply Hbody. by left.
    + apply IH. intros y Hy. apply Hbody. by right.
Qed.

Lemma pushes_forOf_push xs (g : A → Vulnerability) :
  pushes (forOf xs (fun x => push (g x))) (Normal tt) (g <$> xs).
Proof.
  induction xs as [|x xs IH]; cbn [forOf].
  - apply pushes_ret.
  - rewrite fmap_cons.
    apply (pushes_bind _ _ tt _ [g x] (g <$> xs)); [apply pushes_push|apply IH].
Qed.

Lemma quiet_forOf P xs body :
  (∀ x, quiet P (body x)) → quiet P (forOf xs body).
Proof.
  intros Hbody. induction xs as [|x xs IH]; cbn [forOf].
  - apply quiet_ret.
  - apply quiet_bind; [apply Hbody|by intros _].
Qed.

(** An agent whose loop body always completes returns the findings of the
    bodies, file after file. *)
Lemma returning_forOf xs body :
  (∀ x, quiet (fun _ => True) (body x)) →
  returning_findings (forOf xs body) = Normal (xs ≫= fun x => pushedBy (body x)).
Proof.
  intros Hbody.
  assert (Hp : pushes (forOf xs body) (Normal tt) (xs ≫= fun x => pushedBy (body x))).
  { apply pushes_forOf. intros x _. destruct (Hbody x) as ([] & out & Hx & _).
    by rewrite (pushes_pushedBy _ _ _ Hx). }
  unfold returning_findings. by rewrite (Hp []).
Qed.

End Loops.

Lemma quiet_whileExec `{Host} P p text body :
  (∀ m, quiet P (body m)) → quiet P (whileExec p text body).
Proof. apply quiet_forOf. Qed.

Create HintDb agent discriminated.
#[local] Hint Resolve quiet_ret quiet_push quiet_bind quiet_tryCatch quiet_if
  quiet_forOf quiet_whileExec quiet_appends appends_eval_in appends_bind : agent.

(** ** The agents *)

Lemma Node_nested_ind (P : Node → Prop) :
  (∀ k pos kids, Forall P kids → P (mkNode k pos kids)) → ∀ node, P node.
Proof.
  intros Hstep. fix IH 1. intros [k pos kids]. apply Hstep.
  induction kids as [|child kids IHkids]; constructor; [apply IH|exact IHkids].
Qed.

Ltac rule_in :=
  unfold compose, fromRules;
  split; [apply (bool_decide_unpack _); vm_compute; exact I | reflexivity].

#[local] Hint Extern 1 (fromRules _ _ _) => rule_in : agent.

Section Agents.

Context `{Host}.
Implicit Types (f g : WorkspaceFile) (files : list WorkspaceFile).
Implicit Types (v : Vulnerability) (node sf : Node).

(** *** Security agent *)

Lemma pushes_mark (b : bool) v (keys keys1 : gset jsstring) :
  pushes (if b then push v ≫= (fun _ => mret keys1) else mret keys)
         (Normal (if b then keys1 else keys)) (if b then [v] else []).
Proof.
  intros fs. destruct b; [reflexivity|].
  rewrite app_nil_r. reflexivity.
Qed.

Lemma Forall_prefix {A} (P : A → Prop) (l1 l2 : list A) :
  l1 `prefix_of` l2 → Forall P l2 → Forall P l1.
Proof. intros [k ->] Hall. by apply Forall_app in Hall as [? _]. Qed.

(** What a walk does with [stack] nested calls available: it throws exactly
    when the tree is deeper than that; what it pushed is then an initial
    part of what the whole walk pushes, and otherwise all of it. *)
Lemma visit_walk sf path stack node keys :
  ∃ r out,
    pushes (visit sf path stack node keys) r out
    ∧ out `prefix_of` (nodesOf node ≫= nodeFindings sf path)
    ∧ ((depth node ≤ stack)%nat →
       (∃ keys', r = Normal keys') ∧ out = nodesOf node ≫= nodeFindings sf path)
    ∧ ((stack < depth node)%nat → r = Throw RangeError).
Proof.
  revert stack keys. induction node as [k pos kids IHkids] using Node_nested_ind.
  intros [|stack] keys.
  { exists (Throw RangeError), []. cbn [visit depth].
    split; [apply pushes_eval_in|]. split; [apply prefix_nil|].
    split; [lia|done]. }
  cbn [visit nodesOf depth]. rewrite bind_cons.
  unfold nodeFindings at 1 3. cbn [kindOf startOf].
  set (deepest := (fix deepest (l : list Node) : nat :=
                     match l with
                     | [] => O
                     | child :: rest => Nat.max (depth child) (deepest rest)
                     end)).
  set (all := (fix all (l : list Node) : list Node :=
                 match l with
                 | [] => []
                 | child :: rest => nodesOf child ++ all rest
                 end)).
  set (forEachChild :=
         (fix forEachChild (l : list Node) (astParsedKeys : gset jsstring)
            : Agent (gset jsstring) :=
            match l with
            | [] => mret astParsedKeys
            | child :: rest =>
                visit sf path stack child astParsedKeys ≫= fun astParsedKeys =>
                forEachChild rest astParsedKeys
            end)).
  assert (Hkids : ∀ keys0, ∃ r out,
    pushes (forEachChild kids keys0) r out
    ∧ out `prefix_of` (all kids ≫= nodeFindings sf path)
    ∧ ((deepest kids ≤ stack)%nat →
       (∃ keys', r = Normal keys') ∧ out = all kids ≫= nodeFindings sf path)
    ∧ ((stack < deepest kids)%nat → r = Throw RangeError)).
  { induction IHkids as [|child kids Hchild _ IH]; intros keys0.
    - exists (Normal keys0), []. cbn [forEachChild all deepest].
      split; [apply pushes_ret|]. split; [done|]. split; [eauto|lia].
    - cbn [forEachChild all deepest]. rewrite bind_app.
      destruct (Hchild stack keys0) as (r1 & o1 & H1 & P1 & A1 & B1).
      destruct (le_lt_dec (depth child) stack) as [Hle|Hlt].
      + destruct (A1 Hle) as ((keys1 & ->) & ->).
        destruct (IH keys1) as (r2 & o2 & H2 & P2 & A2 & B2).
        exists r2, ((nodesOf child ≫= nodeFindings sf path) ++ o2).
        split; [by eapply pushes_bind|]. split; [by apply prefix_app|].
        split.
        * intros Hd. destruct A2 as [Hr ->]; [lia|]. done.
        * intros Hd. apply B2. lia.
      + rewrite (B1 Hlt) in H1.
        exists (Throw RangeError), o1.
        split; [by apply pushes_bind_throw|].
        split; [by apply prefix_app_r|]. split; [lia|done]. }
  set (keys1 := if isEvalCall k then keys ∪ {[js "eval-usage"]} else keys).
  set (keys2 := if isInnerHtmlAttribute k
                then keys1 ∪ {[js "dangerously-set-inner-html"]} else keys1).
  destruct (Hkids keys2) as (r & out & Hk & Pk & Ak & Bk).
  exists r. eexists. split.
  { eapply pushes_bind; [apply pushes_mark|].
    eapply pushes_bind; [apply pushes_mark|]. exact Hk. }
  rewrite <- !app_assoc. split; [by do 2 apply prefix_app|]. split.
  - intros Hd. destruct Ak as [Hr ->]; [lia|]. done.
  - intros Hd. apply Bk. lia.
Qed.

(** A tree no deeper than the call stack allows is walked entirely. *)
Lemma visit_pushes sf path stack node keys :
  (depth node ≤ stack)%nat →
  ∃ keys', pushes (visit sf path stack node keys) (Normal keys')
                  (nodesOf node ≫= nodeFindings sf path).
Proof.
  intros Hd.
  destruct (visit_walk sf path stack node keys) as (r & out & Hv & _ & Hin & _).
  destruct (Hin Hd) as ((keys' & ->) & ->). by exists keys'.
Qed.

Lemma quiet_pushedBy {A} (P : Vulnerability → Prop) (m : Agent A) :
  quiet P m → Forall P (pushedBy m).
Proof. intros (a & out & Hm & HP). by rewrite (pushes_pushedBy _ _ _ Hm). Qed.

Lemma quiet_pushes {A} (P : Vulnerability → Prop) (m : Agent A) :
  quiet P m → ∃ a, pushes m (Normal a) (pushedBy m).
Proof.
  intros (a & out & Hm & HP). exists a. by rewrite (pushes_pushedBy _ _ _ Hm).
Qed.

Lemma nodeFindings_rules sf path node :
  Forall (fromRules structuralRules path) (nodeFindings sf path node).
Proof.
  unfold nodeFindings.
  destruct (isEvalCall _), (isInnerHtmlAttribute _); simpl;
    repeat constructor; rule_in.
Qed.

Lemma structural_rules sf path node :
  Forall (fromRules structuralRules path) (nodesOf node ≫= nodeFindings sf path).
Proof.
  apply Forall_bind, Forall_forall. intros n _. apply nodeFindings_rules.
Qed.

(** The AST pass when the file is a script that parses: it completes,
    having pushed an initial part of what the whole walk pushes, and all of
    it when the tree is no deeper than the call stack allows. *)
Lemma astPass_walk f sf :
  matchesExtension scriptExtensions (fsPath f) = true →
  createSourceFile (fsPath f) (content f) = Normal sf →
  ∃ keys out,
    pushes (astPass f) (Normal keys) out
    ∧ out `prefix_of` (nodesOf sf ≫= nodeFindings sf (fsPath f))
    ∧ ((depth sf ≤ callStackSize)%nat →
       out = nodesOf sf ≫= nodeFindings sf (fsPath f)).
Proof.
  intros Hext Hparse. unfold astPass. rewrite Hext, Hparse.
  destruct (visit_walk sf (fsPath f) callStackSize sf ∅)
    as ([keys|e] & out & Hv & Hpre & Hin & _).
  - exists keys, out. split; [|split; [done|intros Hd; by destruct (Hin Hd)]].
    apply pushes_tryCatch_normal.
    apply (pushes_bind _ _ sf _ [] _); [apply pushes_eval_in|exact Hv].
  - exists ∅, out. split; [|split; [done|intros Hd; by destruct (Hin Hd)]].
    rewrite <- (app_nil_r out).
    apply (pushes_tryCatch_throw _ _ e _ out []); [|apply pushes_ret].
    apply (pushes_bind _ _ sf _ [] _); [apply pushes_eval_in|exact Hv].
Qed.


(** The AST pass when the parser throws: the [catch] swallows the exception
    and nothing was pushed. *)
Lemma astPass_failed f e :
  createSourceFile (fsPath f) (content f) = Throw e →
  pushes (astPass f) (Normal ∅) [].
Proof.
  intros Hparse. unfold astPass. rewrite Hparse.
  destruct (matchesExtension _ _); [|apply pushes_ret].
  apply (pushes_tryCatch_throw _ _ e _ [] []); [|apply pushes_ret].
  apply pushes_bind_throw, pushes_eval_in.
Qed.

Lemma astPass_quiet f : quiet (fromRules structuralRules (fsPath f)) (astPass f).
Proof.
  unfold astPass. apply quiet_if; [|apply quiet_ret].
  apply quiet_tryCatch; [|intros; apply quiet_ret].
  apply appends_bind; [apply appends_eval_in|]. intros sf.
  destruct (visit_walk sf (fsPath f) callStackSize sf ∅)
    as (r & out & Hv & Hpre & _).
  exists r, out. split; [done|].
  eapply Forall_prefix; [exact Hpre|apply structural_rules].
Qed.

Lemma regexPass_pushes f : pushes (regexPass f) (Normal tt) (textualFindings f).
Proof.
  unfold regexPass, textualFindings, whileExec.
  eapply pushes_bind; apply pushes_forOf_push.
Qed.

Lemma textualFindings_rules f :
  Forall (fromRules textualRules (fsPath f)) (textualFindings f).
Proof.
  unfold textualFindings. apply Forall_app. split; apply Forall_fmap, Forall_forall;
    intros m _; rule_in.
Qed.

Lemma securityBody_pushes f :
  pushes (securityBody f) (Normal tt) (pushedBy (astPass f) ++ textualFindings f).
Proof.
  destruct (quiet_pushes _ _ (astPass_quiet f)) as (keys & Hast).
  unfold securityBody. eapply pushes_bind; [exact Hast|apply regexPass_pushes].
Qed.

Lemma securityBody_pushedBy f :
  pushedBy (securityBody f) = pushedBy (astPass f) ++ textualFindings f.
Proof. apply (pushes_pushedBy _ _ _ (securityBody_pushes f)). Qed.

Lemma fromRules_weaken rules rules' path v :
  rules ⊆ rules' → fromRules rules path v → fromRules rules' path v.
Proof. intros Hsub [Hid Hfile]. split; [by apply Hsub|done]. Qed.

Lemma securityBody_quiet f : quiet (fromRules securityRules (fsPath f)) (securityBody f).
Proof.
  exists tt, (pushedBy (astPass f) ++ textualFindings f).
  split; [apply securityBody_pushes|]. apply Forall_app. split.
  - eapply Forall_impl; [apply quiet_pushedBy, astPass_quiet|].
    intros v. apply fromRules_weaken. intros r Hr. apply elem_of_app. by left.
  - eapply Forall_impl; [apply textualFindings_rules|].
    intros v. apply fromRules_weaken. intros r Hr. apply elem_of_app. by right.
Qed.

(** *** The other agents *)

Lemma dependencyBody_quiet f :
  quiet (fromRules dependencyRules (fsPath f)) (dependencyBody f).
Proof. unfold dependencyBody, manifestPass. auto 12 with agent. Qed.

Lemma complianceBody_quiet f :
  quiet (fromRules complianceRules (fsPath f)) (complianceBody f).
Proof. unfold complianceBody. auto 12 with agent. Qed.

Lemma aiRiskBody_quiet f :
  quiet (fromRules aiRiskRules (fsPath f)) (aiRiskBody f).
Proof. unfold aiRiskBody. auto 12 with agent. Qed.

Lemma architectureBody_quiet f :
  quiet (fromRules architectureRules (fsPath f)) (architectureBody f).
Proof. unfold architectureBody. cbv zeta. auto 12 with agent. Qed.

(** *** What the five agents return *)

Lemma agent_returns (body : WorkspaceFile → Agent unit)
    (rules : list jsstring) files :
  (∀ f, quiet (fromRules rules (fsPath f)) (body f)) →
  returning_findings (forOf files body)
    = Normal (files ≫= fun f => pushedBy (body f))
  ∧ Forall (fun v => id v ∈ rules ∧ ∃ f, f ∈ files ∧ v ∈ pushedBy (body f)
                                        ∧ file v = fsPath f)
           (files ≫= fun f => pushedBy (body f)).
Proof.
  intros Hq. split.
  - apply returning_forOf. intros f. eapply quiet_mono; [|apply Hq]. done.
  - apply Forall_forall. intros v (f & Hv & Hf)%list_elem_of_bind.
    pose proof (quiet_pushedBy _ _ (Hq f)) as HP.
    rewrite Forall_forall in HP. destruct (HP v Hv) as [Hid Hfile].
    split; [done|]. by exists f.
Qed.

End Agents.

(** ** The audit *)

Section Audit.

Context `{Host}.
Implicit Types (f g : WorkspaceFile) (files : list WorkspaceFile).
Implicit Types (v w : Vulnerability) (all : list Vulnerability).

Lemma runSecurityAgent_returns files :
  runSecurityAgent files = Normal (files ≫= fun f => pushedBy (securityBody f)).
Proof. apply (agent_returns _ securityRules), securityBody_quiet. Qed.

Lemma runDependencyAgent_returns files :
  runDependencyAgent files = Normal (files ≫= fun f => pushedBy (dependencyBody f)).
Proof. apply (agent_returns _ dependencyRules), dependencyBody_quiet. Qed.

Lemma runComplianceAgent_returns files :
  runComplianceAgent files = Normal (files ≫= fun f => pushedBy (complianceBody f)).
Proof. apply (agent_returns _ complianceRules), complianceBody_quiet. Qed.

Lemma runAiRiskAgent_returns files :
  runAiRiskAgent files = Normal (files ≫= fun f => pushedBy (aiRiskBody f)).
Proof. apply (agent_returns _ aiRiskRules), aiRiskBody_quiet. Qed.

Lemma runArchitectureAgent_returns files :
  runArchitectureAgent files = Normal (files ≫= fun f => pushedBy (architectureBody f)).
Proof. apply (agent_returns _ architectureRules), architectureBody_quiet. Qed.

(** [runAudit] never rejects, and its report is the scored, deduplicated
    concatenation of what the five agents return. *)
Lemma runAudit_returns files :
  ∃ securityFindings dependencyFindings complianceFindings aiRiskFindings
    architectureFindings,
    runSecurityAgent files = Normal securityFindings
    ∧ runDependencyAgent files = Normal dependencyFindings
    ∧ runComplianceAgent files = Normal complianceFindings
    ∧ runAiRiskAgent files = Normal aiRiskFindings
    ∧ runArchitectureAgent files = Normal architectureFindings
    ∧ runAudit files =
        Normal (runScoringAgent isoNow
                  (uniqueFindings
                     (securityFindings ++ dependencyFindings
                        ++ complianceFindings ++ aiRiskFindings
                        ++ architectureFindings))).
Proof.
  do 5 eexists.
  split; [apply runSecurityAgent_returns|].
  split; [apply runDependencyAgent_returns|].
  split; [apply runComplianceAgent_returns|].
  split; [apply runAiRiskAgent_returns|].
  split; [apply runArchitectureAgent_returns|].
  unfold runAudit.
  rewrite runSecurityAgent_returns, runDependencyAgent_returns,
    runComplianceAgent_returns, runAiRiskAgent_returns,
    runArchitectureAgent_returns.
  reflexivity.
Qed.

(** C3. [runAudit] always returns a report.  Its [vulnerabilities] hold no
    two findings with the same key (id, file, line); they are, in their
    original order, exactly the first occurrences of each key in the
    concatenation Security, Dependency, Compliance, AiRisk, Architecture of
    what the agents returned; and each key emitted, however often, is left
    with exactly one finding. *)
Theorem runAudit_one_finding_per_key files :
  ∃ securityFindings dependencyFindings complianceFindings aiRiskFindings
    architectureFindings report,
    runSecurityAgent files = Normal securityFindings
    ∧ runDependencyAgent files = Normal dependencyFindings
    ∧ runComplianceAgent files = Normal complianceFindings
    ∧ runAiRiskAgent files = Normal aiRiskFindings
    ∧ runArchitectureAgent files = Normal architectureFindings
    ∧ runAudit files = Normal report
    ∧ let allFindings :=
        securityFindings ++ dependencyFindings ++ complianceFindings
          ++ aiRiskFindings ++ architectureFindings in
      NoDup (keyOf <$> vulnerabilities report)
      ∧ vulnerabilities report `sublist_of` allFindings
      ∧ (∀ w, w ∈ vulnerabilities report ↔
              ∃ i, allFindings !! i = Some w
                   ∧ ∀ j u, (j < i)%nat → allFindings !! j = Some u →
                            keyOf u ≠ keyOf w)
      ∧ (∀ v, v ∈ allFindings →
              length (filter (fun w => keyOf w = keyOf v)
                             (vulnerabilities report)) = 1%nat).
Proof.
  destruct (runAudit_returns files)
    as (sec & dep & comp & ai & arch & Hsec & Hdep & Hcomp & Hai & Harch & Haudit).
  exists sec, dep, comp, ai, arch. eexists.
  do 5 (split; [done|]). split; [exact Haudit|].
  cbv zeta. cbn [vulnerabilities runScoringAgent]. apply uniqueFindings_spec.
Qed.

Lemma agent_returns_around (body : WorkspaceFile → Agent unit)
    (rules : list jsstring) pre f post :
  (∀ g, quiet (fromRules rules (fsPath g)) (body g)) →
  ∃ before after,
    returning_findings (forOf pre body) = Normal before
    ∧ returning_findings (forOf post body) = Normal after
    ∧ returning_findings (forOf (pre ++ f :: post) body)
        = Normal (before ++ pushedBy (body f) ++ after).
Proof.
  intros Hq.
  exists (pre ≫= fun g => pushedBy (body g)), (post ≫= fun g => pushedBy (body g)).
  rewrite !(proj1 (agent_returns body rules _ Hq)).
  by rewrite bind_app, bind_cons.
Qed.

(** *** A script that fails to parse *)

(** C5. When the parser throws on a file, the security agent does not
    throw: its AST pass for that file completes without a finding, what it
    reports for the file is exactly what the two textual patterns match
    (none of it under a structural rule id), the findings of the files
    before and after are unchanged, and the audit still returns a report. *)
Theorem runSecurityAgent_parse_failure pre f post e :
  createSourceFile (fsPath f) (content f) = Throw e →
  ∃ before after report,
    runSecurityAgent pre = Normal before
    ∧ runSecurityAgent post = Normal after
    ∧ runSecurityAgent (pre ++ f :: post)
        = Normal (before ++ textualFindings f ++ after)
    ∧ pushes (astPass f) (Normal ∅) []
    ∧ pushes (regexPass f) (Normal tt) (textualFindings f)
    ∧ Forall (fun v => (id v ∉ structuralRules) ∧ file v = fsPath f)
             (textualFindings f)
    ∧ runAudit (pre ++ f :: post) = Normal report.
Proof.
  intros Hparse.
  destruct (agent_returns_around securityBody securityRules pre f post securityBody_quiet)
    as (before & after & Hpre & Hpost & Hall).
  destruct (runAudit_returns (pre ++ f :: post))
    as (? & ? & ? & ? & ? & _ & _ & _ & _ & _ & Haudit).
  exists before, after. eexists.
  split; [exact Hpre|]. split; [exact Hpost|]. split.
  { unfold runSecurityAgent. rewrite Hall, securityBody_pushedBy.
    by rewrite (pushes_pushedBy _ _ _ (astPass_failed f e Hparse)). }
  split; [by eapply astPass_failed|].
  split; [apply regexPass_pushes|].
  split; [|exact Haudit].
  eapply Forall_impl; [apply textualFindings_rules|].
  intros v [Hid Hfile]. split; [|done].
  intros Hs. revert Hid Hs. generalize (id v). intros r Hr Hs.
  unfold textualRules in Hr. unfold structuralRules in Hs.
  rewrite !elem_of_cons, elem_of_nil in Hr, Hs.
  destruct Hr as [->|[->|[]]]; destruct Hs as [Hs|[Hs|[]]];
    vm_compute in Hs; discriminate Hs.
Qed.

(** *** A manifest that cannot be read *)

Lemma manifestPass_unreadable f :
  manifestUnreadable f → ∃ e, pushes (manifestPass f) (Throw e) [].
Proof.
  unfold manifestUnreadable, manifestPass. intros Hbad.
  destruct (JSON_parse (content f)) as [pkg|e].
  - exists TypeError.
    apply (pushes_bind _ _ pkg _ [] []); [apply pushes_eval_in|].
    apply pushes_bind_throw.
    destruct Hbad as [-> | ->]; apply pushes_eval_in.
  - exists e. apply pushes_bind_throw, pushes_eval_in.
Qed.

(** Any other manifest is processed without a [throw]. *)
Lemma manifestPass_readable f :
  ¬ manifestUnreadable f →
  quiet (fromRules dependencyRules (fsPath f)) (manifestPass f).
Proof.
  unfold manifestUnreadable, manifestPass. intros Hok.
  destruct (JSON_parse (content f)) as [pkg|e]; [|by destruct Hok].
  assert (Hget : ∀ key, ∃ val, getProperty pkg key = Normal val).
  { intros key. destruct pkg; simpl; eauto; destruct Hok; auto. }
  apply quiet_bind_value.
  destruct (Hget (js "dependencies")) as (d1 & ->). apply quiet_bind_value.
  destruct (Hget (js "devDependencies")) as (d2 & ->). apply quiet_bind_value.
  auto 12 with agent.
Qed.

Lemma dependencyBody_unreadable f :
  endsWith (fsPath f) (js "package.json") = true →
  manifestUnreadable f →
  pushes (dependencyBody f) (Normal tt) [malformedFinding (fsPath f)].
Proof.
  intros Hname Hbad. unfold dependencyBody. rewrite Hname. cbn [negb].
  destruct (manifestPass_unreadable f Hbad) as (e & Hthrow).
  apply (pushes_tryCatch_throw _ _ e _ [] [_]); [exact Hthrow|apply pushes_push].
Qed.

(** C6. A file named [package.json] whose content cannot be parsed, or
    parses to a value that cannot be processed, does not make the dependency
    agent throw: the agent reports for it exactly one finding, with id
    [malformed-package-json], severity INFO and line 1, and the findings of
    the files before and after are unchanged. *)
Theorem runDependencyAgent_malformed_manifest pre f post :
  endsWith (fsPath f) (js "package.json") = true →
  manifestUnreadable f →
  ∃ before after finding,
    runDependencyAgent pre = Normal before
    ∧ runDependencyAgent post = Normal after
    ∧ runDependencyAgent (pre ++ f :: post)
        = Normal (before ++ [finding] ++ after)
    ∧ pushedBy (dependencyBody f) = [finding]
    ∧ id finding = js "malformed-package-json"
    ∧ severity finding = INFO
    ∧ line finding = 1%nat
    ∧ file finding = fsPath f.
Proof.
  intros Hname Hbad.
  destruct (agent_returns_around dependencyBody dependencyRules pre f post
              dependencyBody_quiet) as (before & after & Hpre & Hpost & Hall).
  pose proof (pushes_pushedBy _ _ _ (dependencyBody_unreadable f Hname Hbad)) as Hf.
  exists before, after, (malformedFinding (fsPath f)).
  split; [exact Hpre|]. split; [exact Hpost|]. split.
  { unfold runDependencyAgent. by rewrite Hall, Hf. }
  split; [exact Hf|]. by repeat split.
Qed.

(** *** A script with one call of [eval] *)


Lemma findingsFor_nodeFindings sf path (nodes : list Node) :
  findingsFor (js "eval-usage") path (nodes ≫= nodeFindings sf path)
  = (fun n => evalFinding path (lineOfPosition sf (startOf n) + 1)%nat)
      <$> filter (fun n => isEvalCall (kindOf n) = true) nodes.
Proof.
  unfold findingsFor. induction nodes as [|n nodes IH]; [done|].
  rewrite bind_cons, filter_app, IH, filter_cons. unfold nodeFindings.
  rewrite filter_app.
  assert (Hinner : filter (fun v => id v = js "eval-usage" ∧ file v = path)
            (if isInnerHtmlAttribute (kindOf n)
             then [innerHtmlFinding path (lineOfPosition sf (startOf n) + 1)%nat]
             else []) = []).
  { destruct (isInnerHtmlAttribute _); [|done].
    apply filter_none. repeat constructor. intros [Hid _]. vm_compute in Hid.
    discriminate Hid. }
  rewrite Hinner, app_nil_r.
  destruct (isEvalCall (kindOf n)) eqn:Hcall.
  - rewrite decide_True by done. rewrite filter_cons_True by done. done.
  - rewrite decide_False by done. done.
Qed.

Lemma filter_ext_elem {A} (P Q : A → Prop) `{!∀ x, Decision (P x)}
    `{!∀ x, Decision (Q x)} (l : list A) :
  (∀ x, x ∈ l → P x ↔ Q x) → filter P l = filter Q l.
Proof.
  induction l as [|x l IH]; intros Hext; [done|].
  rewrite !filter_cons. rewrite IH by (intros y Hy; apply Hext; by right).
  destruct (decide (P x)) as [HP|HP], (decide (Q x)) as [HQ|HQ]; try done.
  - destruct HQ. apply Hext; [by left|done].
  - destruct HP. apply Hext; [by left|done].
Qed.



End Audit.

(** ** The statements on the sample workspace *)

Lemma runScoringAgent_score_witness :
  finalScore (scoreDetails (runScoringAgent [] sampleFindings)) = 34.
Proof.
  destruct (runScoringAgent_score [] sampleFindings) as (_ & _ & _ & _ & _ & Hex).
  apply Hex; reflexivity.
Defined.

Lemma runScoringAgent_decision_witness :
  (finalScore (scoreDetails (runScoringAgent [] [evalFinding [] 1])) = 75
   ∧ decision (scoreDetails (runScoringAgent [] [evalFinding [] 1])) = NO_GO)
  ∧ (finalScore (scoreDetails (runScoringAgent [] sixWarnings)) = 40
     ∧ decision (scoreDetails (runScoringAgent [] sixWarnings)) = NO_GO).
Proof.
  split.
  - destruct (runScoringAgent_decision [] [evalFinding [] 1]) as (_ & Hone & _).
    apply Hone; reflexivity.
  - destruct (runScoringAgent_decision [] sixWarnings) as (_ & _ & Hsix).
    apply Hsix; reflexivity.
Defined.

Lemma runScoringAgent_monotone_witness :
  decision (scoreDetails
              (runScoringAgent [] (sixWarnings ++ evalFinding [] 1 :: sampleFindings)))
  = NO_GO.
Proof.
  destruct (runScoringAgent_monotone [] sixWarnings sampleFindings (evalFinding [] 1))
    as (_ & Hkeep).
  apply Hkeep. reflexivity.
Defined.

Lemma lineOfOffset_at_line_start_witness :
  lineStart sampleSource 3 = Some 44%nat ∧ lineOfOffset sampleSource 44 = 3%nat.
Proof.
  destruct (lineOfOffset_at_line_start sampleSource 3) as (_ & offset & Hstart & _ & Hline).
  - vm_compute. lia.
  - split; [reflexivity|].
    vm_compute in Hstart. injection Hstart as <-. exact Hline.
Defined.

Lemma runAudit_one_finding_per_key_witness :
  ∃ report,
    @runAudit sampleHost [sampleFile] = Normal report
    ∧ NoDup (keyOf <$> vulnerabilities report)
    ∧ length (vulnerabilities report) = 3%nat.
Proof.
  destruct (@runAudit_one_finding_per_key sampleHost [sampleFile])
    as (sec & dep & comp & ai & arch & report & _ & _ & _ & _ & _ & Haudit & Hnd & _).
  exists report. split; [exact Haudit|]. split; [exact Hnd|].
  vm_compute in Haudit. injection Haudit as <-. reflexivity.
Defined.



Lemma runSecurityAgent_parse_failure_witness :
  @runSecurityAgent sampleHost [sampleFile; brokenFile]
  = Normal [ evalFinding (js "/app/main.ts") 1;
             secretFinding (js "/app/main.ts") 2;
             secretFinding (js "/app/broken.ts") 1 ].
Proof.
  destruct (@runSecurityAgent_parse_failure sampleHost [sampleFile] brokenFile []
              SyntaxError)
    as (before & after & report & Hpre & Hpost & Hall & _).
  - reflexivity.
  - etransitivity; [exact Hall|]. vm_compute in Hpre, Hpost.
    injection Hpre as <-. injection Hpost as <-. reflexivity.
Defined.

Lemma runDependencyAgent_malformed_manifest_witness :
  @runDependencyAgent sampleHost [manifestFile; sampleFile]
  = Normal [malformedFinding (js "/app/package.json")].
Proof.
  destruct (@runDependencyAgent_malformed_manifest sampleHost [] manifestFile [sampleFile])
    as (before & after & finding & Hpre & Hpost & Hall & Hone & _).
  - reflexivity.
  - exact I.
  - etransitivity; [exact Hall|]. vm_compute in Hpre, Hpost, Hone.
    injection Hpre as <-. injection Hpost as <-. injection Hone as <-. reflexivity.
Defined.

(** * Further properties of the sources *)

(** ** Scoring: order, thresholds, deduplication *)

Section ScoringMore.

Implicit Types (vs l : list Vulnerability) (v : Vulnerability).

Lemma countOf_sublist s vs1 vs2 :
  vs1 `sublist_of` vs2 → countOf s vs1 <= countOf s vs2.
Proof.
  induction 1 as [|x l1 l2 _ IH|x l1 l2 _ IH]; [done| |].
  - rewrite !countOf_cons. lia.
  - rewrite countOf_cons. destruct (decide _); lia.
Qed.

Lemma countOf_perm s vs1 vs2 : vs1 ≡ₚ vs2 → countOf s vs1 = countOf s vs2.
Proof. intros Hp. unfold countOf. by rewrite Hp. Qed.

Lemma scoreDetails_counts now vs :
  scoreDetails (runScoringAgent now vs) =
    let e := countOf ERROR vs in
    let w := countOf WARNING vs in
    let i := countOf INFO vs in
    let score := Z.max 0 (100 - e * 25 - w * 10 - i * 2) in
    {| totalVulnerabilities := Z.of_nat (length vs);
       errorCount := e; warningCount := w; infoCount := i;
       finalScore := score;
       decision := if (0 <? e) || (score <? 50) then NO_GO else GO |}.
Proof. unfold runScoringAgent. rewrite countSeverities_spec. reflexivity. Qed.

(** X1. The score details do not depend on the order of the findings: two
    lists that are rearrangements of one another get the same counters, the
    same score and the same decision. *)
Theorem runScoringAgent_order_independent now vs1 vs2 :
  vs1 ≡ₚ vs2 →
  scoreDetails (runScoringAgent now vs1) = scoreDetails (runScoringAgent now vs2).
Proof.
  intros Hp. rewrite !scoreDetails_counts.
  rewrite (countOf_perm ERROR vs1 vs2 Hp), (countOf_perm WARNING vs1 vs2 Hp),
    (countOf_perm INFO vs1 vs2 Hp), (Permutation_length Hp).
  reflexivity.
Qed.

(** X2. The decision is GO exactly when no finding is an ERROR and the
    warnings and infos together cost at most 50 points (ten per warning, two
    per info). *)
Theorem runScoringAgent_go_iff now vs :
  decision (scoreDetails (runScoringAgent now vs)) = GO
  ↔ countOf ERROR vs = 0 ∧ 10 * countOf WARNING vs + 2 * countOf INFO vs <= 50.
Proof.
  rewrite scoreDetails_counts. cbn [decision].
  pose proof (countOf_nonneg ERROR vs). pose proof (countOf_nonneg WARNING vs).
  pose proof (countOf_nonneg INFO vs).
  destruct (Z.ltb_spec 0 (countOf ERROR vs)); cbn [orb].
  - split; [discriminate|lia].
  - destruct (Z.ltb_spec (Z.max 0 (100 - countOf ERROR vs * 25
                 - countOf WARNING vs * 10 - countOf INFO vs * 2)) 50).
    + split; [discriminate|lia].
    + split; [lia|done].
Qed.

(** X3. Deduplication never costs points: the score computed on the
    deduplicated findings, as [runAudit] does, is at least the score the
    undeduplicated list would get, and a list that would be GO stays GO. *)
Theorem uniqueFindings_score now l :
  finalScore (scoreDetails (runScoringAgent now l))
    <= finalScore (scoreDetails (runScoringAgent now (uniqueFindings l)))
  ∧ (decision (scoreDetails (runScoringAgent now l)) = GO →
     decision (scoreDetails (runScoringAgent now (uniqueFindings l))) = GO).
Proof.
  assert (Hsub : uniqueFindings l `sublist_of` l) by apply uniqueFindings_spec.
  rewrite !scoreDetails_counts. cbn [finalScore decision].
  pose proof (countOf_sublist ERROR _ _ Hsub).
  pose proof (countOf_sublist WARNING _ _ Hsub).
  pose proof (countOf_sublist INFO _ _ Hsub).
  pose proof (countOf_nonneg ERROR (uniqueFindings l)).
  pose proof (countOf_nonneg WARNING (uniqueFindings l)).
  pose proof (countOf_nonneg INFO (uniqueFindings l)).
  split; [lia|].
  repeat match goal with
         | |- context [ (?x <? ?y) ] => destruct (Z.ltb_spec x y)
         end; cbn [orb]; intros; try reflexivity; try discriminate; lia.
Qed.

End ScoringMore.

(** ** Offsets and line numbers, continued *)

Section LinesMore.

Implicit Types (s text : jsstring) (i k n offset : nat).

Local Open Scope nat_scope.

Lemma elem_newlineOffsetsFrom i s x :
  x ∈ newlineOffsetsFrom i s ↔ ∃ k, x = i + k ∧ s !! k = Some newline.
Proof.
  revert i. induction s as [|c s IH]; intros i; simpl.
  - split; [by intros ?%elem_of_nil|by intros (k & _ & ?)].
  - destruct (N.eqb_spec c newline) as [->|Hc].
    + rewrite elem_of_cons, IH. split.
      * intros [->|(k & -> & Hk)]; [exists 0|exists (S k)]; split; [lia|done|lia|done].
      * intros ([|k] & -> & Hk); [left; lia|right]. exists k. split; [lia|done].
    + rewrite IH. split.
      * intros (k & -> & Hk). exists (S k). split; [lia|done].
      * intros ([|k] & -> & Hk); simpl in Hk; [congruence|].
        exists k. split; [lia|done].
Qed.

Lemma length_filter_impl {A} (P Q : A → Prop) `{!∀ x, Decision (P x)}
    `{!∀ x, Decision (Q x)} (l : list A) :
  (∀ x, x ∈ l → P x → Q x) → length (filter P l) ≤ length (filter Q l).
Proof.
  induction l as [|x l IH]; intros Himp; [done|].
  rewrite !filter_cons.
  assert (length (filter P l) ≤ length (filter Q l))
    by (apply IH; intros y Hy; apply Himp; by right).
  destruct (decide (P x)) as [HP|HP], (decide (Q x)) as [HQ|HQ]; simpl; try lia.
  destruct HQ. apply Himp; [by left|done].
Qed.

Lemma lineOfOffset_lineStart text n offset :
  lineStart text n = Some offset → lineOfOffset text offset = n.
Proof.
  destruct n as [|[|k]]; simpl; [done| |].
  - intros [= <-]. unfold lineOfOffset, substring0. by rewrite take_0.
  - destruct (newlineOffsets text !! k) as [x|] eqn:Hx; [|done].
    intros [= <-]. rewrite lineOfOffset_newlines. f_equal.
    apply sorted_below_succ; [apply newlineOffsetsFrom_sorted|done].
Qed.

(** X4. A match anywhere in line [n] is reported on line [n]: if no newline
    lies between the first offset of the line and the match offset, the
    conversion used by the agents gives [n]. *)
Theorem lineOfOffset_within_line text n start offset :
  lineStart text n = Some start →
  start ≤ offset →
  (∀ k, start ≤ k < offset → text !! k ≠ Some newline) →
  lineOfOffset text offset = n.
Proof.
  intros Hstart Hle Hclean.
  rewrite <- (lineOfOffset_lineStart text n start Hstart).
  rewrite !lineOfOffset_newlines. f_equal. f_equal.
  apply filter_ext_elem. intros x Hx. split; [|lia].
  intros Hlt. destruct (decide (x < start)) as [|Hge]; [done|].
  apply elem_newlineOffsetsFrom in Hx as (k & -> & Hk). simpl in *.
  destruct (Hclean k); [lia|done].
Qed.

(** X5. The line number computed for any offset lies between 1 and the
    number of lines of the text, never decreases when the offset grows, and
    is the last line for every offset at or past the end of the text. *)
Theorem lineOfOffset_bounds text offset1 offset2 :
  1 ≤ lineOfOffset text offset1 ≤ lineCount text
  ∧ (offset1 ≤ offset2 → lineOfOffset text offset1 ≤ lineOfOffset text offset2)
  ∧ (length text ≤ offset1 → lineOfOffset text offset1 = lineCount text).
Proof.
  rewrite !lineOfOffset_newlines. unfold lineCount. split; [|split].
  - pose proof (length_filter (fun x => x < offset1) (newlineOffsets text)). lia.
  - intros Hle. apply le_n_S, length_filter_impl. intros x _. lia.
  - intros Hend. f_equal. f_equal. apply filter_all, Forall_forall.
    intros x (k & -> & Hk)%elem_newlineOffsetsFrom.
    apply lookup_lt_Some in Hk. lia.
Qed.

End LinesMore.

(** ** Deduplication, continued *)

Section DedupMore.

Implicit Types (v w x : Vulnerability) (l : list Vulnerability).
Implicit Types (seen : list (jsstring * jsstring * nat)).

Lemma keepFirst_ext seen seen' l :
  (∀ k, k ∈ seen ↔ k ∈ seen') → keepFirst seen l = keepFirst seen' l.
Proof.
  revert seen seen'. induction l as [|x l IH]; intros seen seen' Hext; [done|].
  simpl. destruct (decide (keyOf x ∈ seen)) as [Hin|Hnin].
  - rewrite decide_True by (by apply Hext). by apply IH.
  - rewrite decide_False by (by rewrite <- Hext). f_equal. apply IH.
    intros k. rewrite !elem_of_cons, Hext. done.
Qed.

Lemma keepFirst_app seen l1 l2 :
  keepFirst seen (l1 ++ l2) =
    keepFirst seen l1 ++ keepFirst (seen ++ (keyOf <$> l1)) l2.
Proof.
  revert seen. induction l1 as [|x l1 IH]; intros seen.
  - by rewrite fmap_nil, app_nil_r.
  - rewrite fmap_cons, <- app_comm_cons. cbn [keepFirst].
    destruct (decide (keyOf x ∈ seen)) as [Hin|Hnin].
    + rewrite IH. f_equal. apply keepFirst_ext. intros k.
      rewrite !elem_of_app, elem_of_cons. split; [tauto|].
      intros [?|[Hk|?]]; [tauto|left; by rewrite Hk|tauto].
    + rewrite IH. cbn [app]. do 2 f_equal. apply keepFirst_ext. intros k.
      rewrite elem_of_cons, !elem_of_app, elem_of_cons. tauto.
Qed.

Lemma keepFirst_filter seen seen1 seen2 l :
  (∀ k, k ∈ seen ↔ k ∈ seen1 ∨ k ∈ seen2) →
  keepFirst seen l = filter (fun v => keyOf v ∉ seen1) (keepFirst seen2 l).
Proof.
  revert seen seen2. induction l as [|x l IH]; intros seen seen2 Hseen; [done|].
  simpl. destruct (decide (keyOf x ∈ seen2)) as [H2|H2].
  - rewrite decide_True by (apply Hseen; by right). by apply IH.
  - destruct (decide (keyOf x ∈ seen1)) as [H1|H1].
    + rewrite decide_True by (apply Hseen; by left).
      rewrite filter_cons_False by (intros Hn; by apply Hn).
      apply IH. intros k. rewrite elem_of_cons, Hseen. split; [tauto|].
      intros [?|[->|?]]; tauto.
    + rewrite decide_False by (rewrite Hseen; tauto).
      rewrite filter_cons_True by done. f_equal.
      apply IH. intros k. rewrite !elem_of_cons, Hseen. tauto.
Qed.

Lemma keepFirst_NoDup_id seen l :
  NoDup (keyOf <$> l) → (∀ v, v ∈ l → keyOf v ∉ seen) → keepFirst seen l = l.
Proof.
  revert seen. induction l as [|x l IH]; intros seen Hnd Hfresh; [done|].
  rewrite fmap_cons, NoDup_cons in Hnd. destruct Hnd as [Hx Hnd].
  simpl. rewrite decide_False by (apply Hfresh; by left). f_equal.
  apply IH; [done|]. intros v Hv. rewrite not_elem_of_cons. split.
  - intros Heq. apply Hx. rewrite <- Heq. by apply list_elem_of_fmap_2.
  - apply Hfresh. by right.
Qed.

(** X6. Deduplicating twice changes nothing more, and a list is left as it
    is exactly when its keys (id, file, line) are pairwise distinct. *)
Theorem uniqueFindings_idempotent l :
  uniqueFindings (uniqueFindings l) = uniqueFindings l
  ∧ (uniqueFindings l = l ↔ NoDup (keyOf <$> l)).
Proof.
  assert (Hid : ∀ l', NoDup (keyOf <$> l') → uniqueFindings l' = l').
  { intros l' Hnd. rewrite uniqueFindings_keepFirst.
    apply keepFirst_NoDup_id; [done|]. by intros v _ ?%elem_of_nil. }
  split.
  - apply Hid. apply uniqueFindings_spec.
  - split; [|apply Hid]. intros <-. apply uniqueFindings_spec.
Qed.

(** X7. What was kept of the findings of the earlier agents is not touched
    by the findings of later ones: the deduplication of a concatenation is
    the deduplication of the first part, followed by the deduplicated second
    part without the findings whose key occurs in the first part. *)
Theorem uniqueFindings_app l1 l2 :
  uniqueFindings (l1 ++ l2) =
    uniqueFindings l1
    ++ filter (fun v => keyOf v ∉ keyOf <$> l1) (uniqueFindings l2).
Proof.
  rewrite !uniqueFindings_keepFirst, keepFirst_app. f_equal.
  apply keepFirst_filter. intros k. rewrite elem_of_app, elem_of_nil. tauto.
Qed.

(** X8. After deduplication every rule has, for every path, exactly one
    finding per line on which it fired: several matches of a rule on one
    line of a file are merged, and no line is lost. *)
Theorem uniqueFindings_one_per_line rule path l :
  NoDup (line <$> findingsFor rule path (uniqueFindings l))
  ∧ ∀ n, n ∈ line <$> findingsFor rule path (uniqueFindings l)
         ↔ n ∈ line <$> findingsFor rule path l.
Proof.
  destruct (uniqueFindings_spec l) as (Hnd & Hsub & _ & _).
  split.
  - unfold findingsFor. clear Hsub. revert Hnd.
    induction (uniqueFindings l) as [|x u IH]; intros Hnd; [constructor|].
    rewrite fmap_cons, NoDup_cons in Hnd. destruct Hnd as [Hx Hnd].
    rewrite filter_cons. destruct (decide _) as [[Hid Hfile]|]; [|by apply IH].
    rewrite fmap_cons. constructor; [|by apply IH].
    intros (w & Hline & Hw)%list_elem_of_fmap.
    apply list_elem_of_filter in Hw as [[Hwid Hwfile] Hw].
    apply Hx. apply list_elem_of_fmap. exists w. split; [|done].
    unfold keyOf. congruence.
  - intros n. unfold findingsFor. rewrite !list_elem_of_fmap. split.
    + intros (w & -> & Hw). exists w. split; [done|].
      apply list_elem_of_filter in Hw as [HP Hw].
      apply list_elem_of_filter. split; [done|by eapply elem_of_sublist].
    + intros (v & -> & Hv). apply list_elem_of_filter in Hv as [[Hid Hfile] Hv].
      rewrite uniqueFindings_keepFirst.
      destruct (keepFirst_covers [] l v Hv) as (w & Hw & Hk);
        [by intros ?%elem_of_nil|].
      injection Hk as Hwid Hwfile Hwline.
      exists w. split; [done|]. apply list_elem_of_filter. split; [|done].
      split; congruence.
Qed.

End DedupMore.

(** ** The agents, continued *)

Section AgentsMore.

Context `{Host}.
Implicit Types (f g : WorkspaceFile) (files : list WorkspaceFile).
Implicit Types (v : Vulnerability) (sf : Node).

Lemma astPass_skipped f :
  matchesExtension scriptExtensions (fsPath f) = false →
  pushes (astPass f) (Normal ∅) [].
Proof. intros Hext. unfold astPass. rewrite Hext. apply pushes_ret. Qed.

Lemma structural_rules_apart :
  Forall (fun r => r ∉ textualRules ++ dependencyRules ++ complianceRules
                        ++ aiRiskRules ++ architectureRules) structuralRules.
Proof. apply (bool_decide_unpack _). vm_compute. exact I. Qed.

(** Where a finding of the concatenated agent results comes from. *)
Lemma all_findings_origin files v :
  v ∈ (files ≫= fun f => pushedBy (securityBody f))
      ++ (files ≫= fun f => pushedBy (dependencyBody f))
      ++ (files ≫= fun f => pushedBy (complianceBody f))
      ++ (files ≫= fun f => pushedBy (aiRiskBody f))
      ++ (files ≫= fun f => pushedBy (architectureBody f)) →
  (∃ g, g ∈ files ∧ file v = fsPath g ∧ v ∈ pushedBy (securityBody g))
  ∨ (∃ g, g ∈ files ∧ file v = fsPath g ∧ v ∈ pushedBy (dependencyBody g))
  ∨ (∃ g, g ∈ files ∧ file v = fsPath g ∧ v ∈ pushedBy (complianceBody g))
  ∨ (∃ g, g ∈ files ∧ file v = fsPath g ∧ v ∈ pushedBy (aiRiskBody g))
  ∨ (∃ g, g ∈ files ∧ file v = fsPath g ∧ v ∈ pushedBy (architectureBody g)).
Proof.
  assert (Hfrom : ∀ (body : WorkspaceFile → Agent unit) rules,
    (∀ g, quiet (fromRules rules (fsPath g)) (body g)) →
    v ∈ (files ≫= fun f => pushedBy (body f)) →
    ∃ g, g ∈ files ∧ file v = fsPath g ∧ v ∈ pushedBy (body g)).
  { intros body rules Hq (g & Hv & Hg)%list_elem_of_bind.
    pose proof (quiet_pushedBy _ _ (Hq g)) as HP. rewrite Forall_forall in HP.
    destruct (HP v Hv) as [_ Hfile]. by exists g. }
  rewrite !elem_of_app. intros [Hv|[Hv|[Hv|[Hv|Hv]]]].
  - left. eapply Hfrom; [apply securityBody_quiet|done].
  - right; left. eapply Hfrom; [apply dependencyBody_quiet|done].
  - do 2 right; left. eapply Hfrom; [apply complianceBody_quiet|done].
  - do 3 right; left. eapply Hfrom; [apply aiRiskBody_quiet|done].
  - do 4 right. eapply Hfrom; [apply architectureBody_quiet|done].
Qed.

Lemma report_findings files :
  ∃ report,
    runAudit files = Normal report
    ∧ vulnerabilities report =
        uniqueFindings
          ((files ≫= fun f => pushedBy (securityBody f))
           ++ (files ≫= fun f => pushedBy (dependencyBody f))
           ++ (files ≫= fun f => pushedBy (complianceBody f))
           ++ (files ≫= fun f => pushedBy (aiRiskBody f))
           ++ (files ≫= fun f => pushedBy (architectureBody f))).
Proof.
  exists (runScoringAgent isoNow
            (uniqueFindings
               ((files ≫= fun f => pushedBy (securityBody f))
                ++ (files ≫= fun f => pushedBy (dependencyBody f))
                ++ (files ≫= fun f => pushedBy (complianceBody f))
                ++ (files ≫= fun f => pushedBy (aiRiskBody f))
                ++ (files ≫= fun f => pushedBy (architectureBody f))))).
  split; [|reflexivity]. unfold runAudit.
  rewrite runSecurityAgent_returns, runDependencyAgent_returns,
    runComplianceAgent_returns, runAiRiskAgent_returns,
    runArchitectureAgent_returns.
  reflexivity.
Qed.

(** *** Security agent *)

(** X9. For a script file that parses, the security agent reports, between
    the findings of the files before and after, first what the visitor
    pushed, then the textual findings.  What the visitor pushed is an initial
    part of what a walk of the whole tree, parent first and children left to
    right, pushes: when the call stack is exhausted on a deep tree the walk
    ends there and the findings pushed so far stay.  So there are never more
    [eval-usage] findings than calls of [eval].  When the tree is no deeper
    than the call stack allows, every call of [eval] in the tree, nested ones
    included, has its finding, at the line of the start of the call plus
    one. *)
Theorem runSecurityAgent_script pre f post sf :
  matchesExtension scriptExtensions (fsPath f) = true →
  createSourceFile (fsPath f) (content f) = Normal sf →
  ∃ before after structural,
    runSecurityAgent pre = Normal before
    ∧ runSecurityAgent post = Normal after
    ∧ runSecurityAgent (pre ++ f :: post)
        = Normal (before ++ structural ++ textualFindings f ++ after)
    ∧ Forall (fun v => id v ∈ structuralRules ∧ file v = fsPath f) structural
    ∧ structural `prefix_of` (nodesOf sf ≫= nodeFindings sf (fsPath f))
    ∧ (length (findingsFor (js "eval-usage") (fsPath f) structural)
       ≤ evalCalls sf)%nat
    ∧ ((depth sf ≤ callStackSize)%nat →
       findingsFor (js "eval-usage") (fsPath f) structural
         = (fun call => evalFinding (fsPath f)
                          (lineOfPosition sf (startOf call) + 1)%nat)
             <$> filter (fun n => isEvalCall (kindOf n) = true) (nodesOf sf)
       ∧ length (findingsFor (js "eval-usage") (fsPath f) structural)
         = evalCalls sf).
Proof.
  intros Hext Hparse.
  destruct (agent_returns_around securityBody securityRules pre f post securityBody_quiet)
    as (before & after & Hpre & Hpost & Hall).
  destruct (astPass_walk f sf Hext Hparse) as (keys & structural & Hast & Hpart & Hfull).
  exists before, after, structural.
  split; [exact Hpre|]. split; [exact Hpost|]. split.
  { unfold runSecurityAgent.
    rewrite Hall, securityBody_pushedBy, (pushes_pushedBy _ _ _ Hast).
    by rewrite <- !app_assoc. }
  split; [eapply Forall_prefix; [exact Hpart|apply structural_rules]|].
  split; [exact Hpart|]. split.
  - destruct Hpart as [rest Hrest].
    pose proof (findingsFor_nodeFindings sf (fsPath f) (nodesOf sf)) as Hcount.
    apply (f_equal length) in Hcount. rewrite length_fmap in Hcount.
    rewrite Hrest in Hcount. unfold findingsFor in Hcount.
    rewrite filter_app, length_app in Hcount.
    unfold findingsFor, evalCalls. lia.
  - intros Hd. rewrite (Hfull Hd), findingsFor_nodeFindings. split; [done|].
    by rewrite length_fmap.
Qed.

(** X10. A file whose path has none of the extensions ts, js, jsx, tsx
    never gets a finding of the rules [eval-usage] and
    [dangerously-set-inner-html] in the report of an audit, whatever it
    contains: nothing but the AST pass emits these rules, and the pass is
    not run on it. *)
Theorem runAudit_no_structural_finding files path :
  matchesExtension scriptExtensions path = false →
  ∃ report,
    runAudit files = Normal report
    ∧ ∀ v, v ∈ vulnerabilities report → file v = path → id v ∉ structuralRules.
Proof.
  intros Hext. destruct (report_findings files) as (report & Haudit & Hvs).
  exists report. split; [exact Haudit|]. intros v Hv Hfile Hid.
  rewrite Hvs in Hv.
  eapply elem_of_sublist in Hv; [|apply uniqueFindings_spec].
  pose proof structural_rules_apart as Hapart. rewrite Forall_forall in Hapart.
  apply (Hapart _ Hid).
  apply all_findings_origin in Hv
    as [(g & Hg & Hpath & Hv)|[(g & _ & _ & Hv)|[(g & _ & _ & Hv)|[(g & _ & _ & Hv)
        |(g & _ & _ & Hv)]]]].
  - rewrite securityBody_pushedBy in Hv.
    rewrite (pushes_pushedBy _ _ _ (astPass_skipped g ltac:(congruence))) in Hv.
    pose proof (textualFindings_rules g) as Hr. rewrite Forall_forall in Hr.
    destruct (Hr v Hv) as [Hin _]. rewrite !elem_of_app. by left.
  - pose proof (quiet_pushedBy _ _ (dependencyBody_quiet g)) as Hr.
    rewrite Forall_forall in Hr. destruct (Hr v Hv) as [Hin _].
    rewrite !elem_of_app. by right; left.
  - pose proof (quiet_pushedBy _ _ (complianceBody_quiet g)) as Hr.
    rewrite Forall_forall in Hr. destruct (Hr v Hv) as [Hin _].
    rewrite !elem_of_app. by do 2 right; left.
  - pose proof (quiet_pushedBy _ _ (aiRiskBody_quiet g)) as Hr.
    rewrite Forall_forall in Hr. destruct (Hr v Hv) as [Hin _].
    rewrite !elem_of_app. by do 3 right; left.
  - pose proof (quiet_pushedBy _ _ (architectureBody_quiet g)) as Hr.
    rewrite Forall_forall in Hr. destruct (Hr v Hv) as [Hin _].
    rewrite !elem_of_app. by do 4 right.
Qed.

(** X11. The two textual patterns of the security agent are applied to
    every file, whatever its extension: for a file that is no script the
    parser is not called and the agent reports exactly one finding per match
    of the secret pattern, then one per match of the debug pattern. *)
Theorem runSecurityAgent_other_file pre f post :
  matchesExtension scriptExtensions (fsPath f) = false →
  ∃ before after,
    runSecurityAgent pre = Normal before
    ∧ runSecurityAgent post = Normal after
    ∧ runSecurityAgent (pre ++ f :: post)
        = Normal (before
                  ++ ((fun m => secretFinding (fsPath f)
                                  (lineOfOffset (content f) (index m)))
                        <$> execAll secretRegex (content f))
                  ++ ((fun m => debugFinding (fsPath f)
                                  (lineOfOffset (content f) (index m)))
                        <$> execAll debugRegex (content f))
                  ++ after).
Proof.
  intros Hext.
  destruct (agent_returns_around securityBody securityRules pre f post securityBody_quiet)
    as (before & after & Hpre & Hpost & Hall).
  exists before, after. split; [exact Hpre|]. split; [exact Hpost|].
  unfold runSecurityAgent.
  rewrite Hall, securityBody_pushedBy, (pushes_pushedBy _ _ _ (astPass_skipped f Hext)).
  unfold textualFindings. by rewrite <- !app_assoc.
Qed.

(** *** Files an agent skips *)

Lemma forOf_filter_skip {A} (xs : list A) (keep : A → bool) (body : A → Agent unit) :
  (∀ x, keep x = false → body x = mret tt) →
  forOf xs body = forOf (filter (fun x => keep x = true) xs) body.
Proof.
  intros Hskip. induction xs as [|x xs IH]; [done|].
  rewrite filter_cons. destruct (keep x) eqn:Hk.
  - rewrite decide_True by done. cbn [forOf]. by rewrite IH.
  - rewrite decide_False by done. cbn [forOf]. rewrite (Hskip x Hk), <- IH.
    reflexivity.
Qed.

(** X12. Three agents look only at the files their path test selects: the
    dependency agent at paths ending in [package.json], the compliance agent
    at the extensions ts, js, jsx, tsx, py, the AI risk agent at ts, js, py.
    Each returns on a list of files what it returns on the selected files
    alone. *)
Theorem agents_skip_other_files files :
  runDependencyAgent files
    = runDependencyAgent
        (filter (fun f => endsWith (fsPath f) (js "package.json") = true) files)
  ∧ runComplianceAgent files
    = runComplianceAgent
        (filter (fun f => matchesExtension complianceExtensions (fsPath f) = true)
                files)
  ∧ runAiRiskAgent files
    = runAiRiskAgent
        (filter (fun f => matchesExtension aiRiskExtensions (fsPath f) = true)
                files).
Proof.
  unfold runDependencyAgent, runComplianceAgent, runAiRiskAgent.
  split; [|split]; f_equal.
  - apply (forOf_filter_skip files
             (fun f => endsWith (fsPath f) (js "package.json"))).
    intros f Hf. unfold dependencyBody. by rewrite Hf.
  - apply (forOf_filter_skip files
             (fun f => matchesExtension complianceExtensions (fsPath f))).
    intros f Hf. unfold complianceBody. by rewrite Hf.
  - apply (forOf_filter_skip files
             (fun f => matchesExtension aiRiskExtensions (fsPath f))).
    intros f Hf. unfold aiRiskBody. by rewrite Hf.
Qed.

(** *** Dependency agent: a manifest that can be read *)

Lemma setProperty_keys key val (props : list (jsstring * JsValue)) :
  (setProperty key val props).*1
  = if decide (key ∈ props.*1) then props.*1 else props.*1 ++ [key].
Proof.
  induction props as [|[k w] props IH]; [done|].
  cbn [setProperty]. destruct (decide (k = key)) as [->|Hne].
  - rewrite decide_True by (rewrite fmap_cons; by left). done.
  - rewrite !fmap_cons, IH. cbn [fst].
    destruct (decide (key ∈ props.*1)) as [Hin|Hnin].
    + rewrite decide_True by (by right). done.
    + rewrite decide_False; [done|]. rewrite elem_of_cons. intros [?|?]; congruence.
Qed.

Lemma copy_keys (kvs props : list (jsstring * JsValue)) :
  (NoDup props.*1 →
   NoDup (foldl (fun props kv => setProperty kv.1 kv.2 props) props kvs).*1)
  ∧ ∀ k, k ∈ (foldl (fun props kv => setProperty kv.1 kv.2 props) props kvs).*1
         ↔ k ∈ props.*1 ∨ k ∈ kvs.*1.
Proof.
  revert props. induction kvs as [|[key val] kvs IH]; intros props.
  - split; [done|]. intros k. rewrite fmap_nil, elem_of_nil. tauto.
  - cbn [foldl fst snd]. destruct (IH (setProperty key val props)) as [IHnd IHin].
    assert (Hkeys := setProperty_keys key val props).
    split.
    + intros Hnd. apply IHnd. rewrite Hkeys. destruct (decide _); [done|].
      apply NoDup_app. split; [done|]. split; [|apply NoDup_singleton].
      intros k Hk ->%list_elem_of_singleton. done.
    + intros k. rewrite IHin, Hkeys, fmap_cons, elem_of_cons. cbn [fst].
      destruct (decide (key ∈ props.*1)) as [Hin|Hnin].
      * split; [tauto|]. intros [?|[->|?]]; tauto.
      * rewrite elem_of_app, list_elem_of_singleton. tauto.
Qed.

Lemma spread2_keys a b :
  NoDup (Object_keys (spread2 a b))
  ∧ ∀ k, k ∈ Object_keys (spread2 a b)
         ↔ k ∈ (ownProperties a).*1 ∨ k ∈ (ownProperties b).*1.
Proof.
  unfold spread2, Object_keys.
  destruct (copy_keys (ownProperties a) []) as [Hnd1 Hin1].
  destruct (copy_keys (ownProperties b)
              (foldl (fun props kv => setProperty kv.1 kv.2 props) []
                     (ownProperties a))) as [Hnd2 Hin2].
  split.
  - apply Hnd2, Hnd1. constructor.
  - intros k. rewrite Hin2, Hin1, fmap_nil, elem_of_nil. tauto.
Qed.

Lemma pushes_forOf_filter {A} (P : A → Prop) `{!∀ x, Decision (P x)}
    (g : A → Vulnerability) (xs : list A) :
  pushes (forOf xs (fun x => if bool_decide (P x) then push (g x) else mret tt))
         (Normal tt) (g <$> filter P xs).
Proof.
  induction xs as [|x xs IH]; cbn [forOf]; [apply pushes_ret|].
  rewrite filter_cons. destruct (decide (P x)) as [HP|HP].
  - rewrite bool_decide_eq_true_2 by done. rewrite fmap_cons.
    apply (pushes_bind _ _ tt _ [g x] (g <$> filter P xs)); [apply pushes_push|done].
  - rewrite bool_decide_eq_false_2 by done.
    apply (pushes_bind _ _ tt _ [] _); [apply pushes_ret|done].
Qed.

(** X13. For a [package.json] that parses to anything but [null], the
    dependency agent reports exactly one finding [blacklisted-dependency] per
    blacklisted name that the manifest declares under [dependencies] or
    [devDependencies]: each name once, also when both sections declare it,
    hence at most three findings, and no finding of any other kind. *)
Theorem runDependencyAgent_manifest pre f post pkg :
  endsWith (fsPath f) (js "package.json") = true →
  JSON_parse (content f) = Normal pkg →
  pkg ≠ JNull → pkg ≠ JUndefined →
  ∃ before after names,
    runDependencyAgent pre = Normal before
    ∧ runDependencyAgent post = Normal after
    ∧ runDependencyAgent (pre ++ f :: post)
        = Normal (before ++ (blacklistedFinding (fsPath f) <$> names) ++ after)
    ∧ NoDup names
    ∧ (length names ≤ 3)%nat
    ∧ ∀ dep, dep ∈ names
             ↔ dep ∈ blacklistedDeps
               ∧ (dep ∈ sectionKeys pkg (js "dependencies")
                  ∨ dep ∈ sectionKeys pkg (js "devDependencies")).
Proof.
  intros Hname Hparse Hnull Hundef.
  destruct (agent_returns_around dependencyBody dependencyRules pre f post
              dependencyBody_quiet) as (before & after & Hpre & Hpost & Hall).
  assert (Hget : ∀ key, ∃ val, getProperty pkg key = Normal val).
  { intros key. destruct pkg; simpl; eauto; congruence. }
  destruct (Hget (js "dependencies")) as (d1 & Hd1).
  destruct (Hget (js "devDependencies")) as (d2 & Hd2).
  set (deps := spread2 (js_or d1 (JObject [])) (js_or d2 (JObject []))).
  set (names := filter (fun dep => dep ∈ blacklistedDeps) (Object_keys deps)).
  assert (Hbody : pushes (dependencyBody f) (Normal tt)
                         (blacklistedFinding (fsPath f) <$> names)).
  { unfold dependencyBody. rewrite Hname. cbn [negb].
    apply pushes_tryCatch_normal. unfold manifestPass. rewrite Hparse.
    apply (pushes_bind _ _ pkg _ [] _); [apply pushes_eval_in|]. rewrite Hd1.
    apply (pushes_bind _ _ d1 _ [] _); [apply pushes_eval_in|]. rewrite Hd2.
    apply (pushes_bind _ _ d2 _ [] _); [apply pushes_eval_in|].
    apply pushes_forOf_filter. }
  destruct (spread2_keys (js_or d1 (JObject [])) (js_or d2 (JObject [])))
    as [Hnd Hin].
  exists before, after, names.
  split; [exact Hpre|]. split; [exact Hpost|]. split.
  { unfold runDependencyAgent. by rewrite Hall, (pushes_pushedBy _ _ _ Hbody). }
  split; [by apply NoDup_filter|]. split.
  - change 3%nat with (length blacklistedDeps). apply submseteq_length.
    apply NoDup_submseteq; [by apply NoDup_filter|].
    by intros dep [? _]%list_elem_of_filter.
  - intros dep. unfold names. rewrite list_elem_of_filter. fold deps in Hin.
    rewrite Hin. unfold sectionKeys. rewrite Hd1, Hd2. done.
Qed.

(** *** Architecture agent *)

(** X14. The architecture agent reports a file as a god object exactly when
    its content holds at least 1000 newline characters (more than 1000
    pieces when split at newlines), with one finding at line 1 whatever the
    extension; the findings for imports of a database client follow, one per
    match, and only for the extensions tsx and jsx. *)
Theorem runArchitectureAgent_file pre f post :
  ∃ before after,
    runArchitectureAgent pre = Normal before
    ∧ runArchitectureAgent post = Normal after
    ∧ runArchitectureAgent (pre ++ f :: post)
        = Normal (before
                  ++ (if decide (1000 ≤ length (newlineOffsets (content f)))%nat
                      then [godObjectFinding (fsPath f)] else [])
                  ++ (if matchesExtension componentExtensions (fsPath f)
                      then (fun m => dbImportFinding (fsPath f)
                                       (lineOfOffset (content f) (index m)) m)
                             <$> execAll serverDbImports (content f)
                      else [])
                  ++ after).
Proof.
  destruct (agent_returns_around architectureBody architectureRules pre f post
              architectureBody_quiet) as (before & after & Hpre & Hpost & Hall).
  exists before, after. split; [exact Hpre|]. split; [exact Hpost|].
  unfold runArchitectureAgent. rewrite Hall. do 2 f_equal.
  rewrite app_assoc. f_equal.
  apply (pushes_pushedBy _ (Normal tt)).
  unfold architectureBody. cbv zeta. eapply pushes_bind.
  - rewrite <- lineCount_split. unfold lineCount.
    destruct (decide _) as [Hbig|Hsmall].
    + assert ((1000 <? S (length (newlineOffsets (content f))))%nat = true) as ->
        by (apply Nat.ltb_lt; lia).
      apply pushes_push.
    + assert ((1000 <? S (length (newlineOffsets (content f))))%nat = false) as ->
        by (apply Nat.ltb_ge; lia).
      apply pushes_ret.
  - destruct (matchesExtension _ _); [apply pushes_forOf_push|apply pushes_ret].
Qed.

(** *** AI risk agent *)

Lemma endsWith_both (s a b : jsstring) :
  endsWith s a = true → endsWith s b = true → (length b ≤ length a)%nat →
  endsWith a b = true.
Proof.
  unfold endsWith. rewrite !bool_decide_eq_true. intros Ha Hb Hlen.
  assert (Hla : length (drop (length s - length a) s) = length a) by (by rewrite Ha).
  rewrite length_drop in Hla.
  rewrite <- Ha at 2. rewrite drop_drop.
  replace (length s - length a + (length a - length b))%nat
    with (length s - length b)%nat by lia.
  exact Hb.
Qed.

Lemma component_not_aiRisk path :
  matchesExtension componentExtensions path = true →
  matchesExtension aiRiskExtensions path = false.
Proof.
  unfold matchesExtension, componentExtensions, aiRiskExtensions.
  cbn [existsb]. rewrite !orb_false_r. intros Hc.
  apply not_true_is_false. intros Ha.
  apply orb_true_iff in Hc. rewrite !orb_true_iff in Ha.
  assert (Hno : ∀ a b, endsWith (asciiLower <$> path) a = true →
                       endsWith (asciiLower <$> path) b = true →
                       (length b ≤ length a)%nat → endsWith a b = false → False).
  { intros a b H1 H2 Hl Hf. rewrite (endsWith_both _ a b H1 H2 Hl) in Hf. done. }
  destruct Hc as [Hc|Hc]; destruct Ha as [Ha|[Ha|Ha]];
    apply (Hno _ _ Hc Ha); vm_compute; (reflexivity || lia).
Qed.

Lemma prompt_rule_aiRisk_only :
  js "ai-prompt-injection"
    ∉ securityRules ++ dependencyRules ++ complianceRules ++ architectureRules.
Proof. apply (bool_decide_unpack _). vm_compute. exact I. Qed.

(** X15. A component file (extension tsx or jsx) never gets a finding of
    the rule [ai-prompt-injection] in the report of an audit: the AI risk
    agent selects the extensions ts, js and py only, and no other agent
    emits the rule. *)
Theorem runAudit_no_prompt_finding_for_components files path :
  matchesExtension componentExtensions path = true →
  ∃ report,
    runAudit files = Normal report
    ∧ ∀ v, v ∈ vulnerabilities report → file v = path →
           id v ≠ js "ai-prompt-injection".
Proof.
  intros Hext. destruct (report_findings files) as (report & Haudit & Hvs).
  exists report. split; [exact Haudit|]. intros v Hv Hfile Hid.
  rewrite Hvs in Hv.
  eapply elem_of_sublist in Hv; [|apply uniqueFindings_spec].
  apply all_findings_origin in Hv
    as [(g & _ & _ & Hv)|[(g & _ & _ & Hv)|[(g & _ & _ & Hv)|[(g & Hg & Hpath & Hv)
        |(g & _ & _ & Hv)]]]].
  - pose proof (quiet_pushedBy _ _ (securityBody_quiet g)) as Hr.
    rewrite Forall_forall in Hr. destruct (Hr v Hv) as [Hin _].
    apply prompt_rule_aiRisk_only. rewrite <- Hid, !elem_of_app. by left.
  - pose proof (quiet_pushedBy _ _ (dependencyBody_quiet g)) as Hr.
    rewrite Forall_forall in Hr. destruct (Hr v Hv) as [Hin _].
    apply prompt_rule_aiRisk_only. rewrite <- Hid, !elem_of_app. by right; left.
  - pose proof (quiet_pushedBy _ _ (complianceBody_quiet g)) as Hr.
    rewrite Forall_forall in Hr. destruct (Hr v Hv) as [Hin _].
    apply prompt_rule_aiRisk_only. rewrite <- Hid, !elem_of_app.
    by do 2 right; left.
  - assert (Hskip : matchesExtension aiRiskExtensions (fsPath g) = false)
      by (apply component_not_aiRisk; congruence).
    unfold pushedBy, aiRiskBody in Hv. rewrite Hskip in Hv.
    by apply elem_of_nil in Hv.
  - pose proof (quiet_pushedBy _ _ (architectureBody_quiet g)) as Hr.
    rewrite Forall_forall in Hr. destruct (Hr v Hv) as [Hin _].
    apply prompt_rule_aiRisk_only. rewrite <- Hid, !elem_of_app. by do 3 right.
Qed.

End AgentsMore.

(** ** The extension: ignore patterns *)

Section Gitignore.

Implicit Types (s text cur l p piece : jsstring) (c : N).

Lemma rev_as_reverse {A} (xs : list A) : rev xs = reverse xs.
Proof. unfold reverse. by rewrite <- rev_alt. Qed.

Lemma split_from_clean cur s piece :
  newline ∉ cur → piece ∈ split_from cur s → newline ∉ piece.
Proof.
  revert cur. induction s as [|c s IH]; intros cur Hcur; simpl.
  - intros ->%list_elem_of_singleton. by rewrite rev_as_reverse, elem_of_reverse.
  - destruct (N.eqb_spec c newline) as [->|Hc].
    + intros [->|Hp]%elem_of_cons.
      * by rewrite rev_as_reverse, elem_of_reverse.
      * apply (IH []); [by intros ?%elem_of_nil|done].
    + apply IH. rewrite elem_of_cons. intros [?|?]; [congruence|done].
Qed.

Lemma trimStart_suffix s :
  ∃ spaces, s = spaces ++ trimStart s.
Proof.
  induction s as [|c s [spaces IH]]; [by exists []|].
  simpl. destruct (isWhiteSpace c); [|by exists []].
  exists (c :: spaces). simpl. by rewrite <- IH.
Qed.

Lemma trimStart_head s c :
  head (trimStart s) = Some c → isWhiteSpace c = false.
Proof.
  induction s as [|d s IH]; [done|]. simpl.
  destruct (isWhiteSpace d) eqn:Hd; [done|]. simpl. congruence.
Qed.

Lemma trimStart_id s :
  (∀ c, head s = Some c → isWhiteSpace c = false) → trimStart s = s.
Proof. destruct s as [|c s]; [done|]. intros Hc. simpl. by rewrite (Hc c). Qed.

Lemma trim_elem s c : c ∈ trim s → c ∈ s.
Proof.
  unfold trim. rewrite rev_as_reverse, elem_of_reverse. intros Hc.
  destruct (trimStart_suffix (rev (trimStart s))) as (sp1 & H1).
  destruct (trimStart_suffix s) as (sp2 & H2).
  rewrite H2. apply elem_of_app. right.
  rewrite <- (elem_of_reverse c (trimStart s)), <- rev_as_reverse, H1.
  apply elem_of_app. by right.
Qed.

Lemma trim_last s c : last (trim s) = Some c → isWhiteSpace c = false.
Proof.
  unfold trim. rewrite rev_as_reverse, last_reverse. apply trimStart_head.
Qed.

Lemma trim_head s c : head (trim s) = Some c → isWhiteSpace c = false.
Proof.
  unfold trim. rewrite rev_as_reverse, head_reverse.
  destruct (trimStart_suffix (rev (trimStart s))) as (spaces & Hs).
  intros Hlast.
  assert (Hl : last (rev (trimStart s)) = Some c).
  { rewrite Hs. rewrite last_app, Hlast. done. }
  rewrite rev_as_reverse, last_reverse in Hl. by apply trimStart_head in Hl.
Qed.

Lemma trim_id p :
  (∀ c, head p = Some c → isWhiteSpace c = false) →
  (∀ c, last p = Some c → isWhiteSpace c = false) →
  trim p = p.
Proof.
  intros Hh Hl. unfold trim. rewrite (trimStart_id p Hh).
  rewrite (trimStart_id (rev p)); [apply rev_involutive|].
  intros c. rewrite rev_as_reverse, head_reverse. apply Hl.
Qed.

Lemma keepLine_spec l :
  keepLine l = true ↔ l ≠ [] ∧ head l ≠ Some 35%N.
Proof.
  unfold keepLine, startsWith. rewrite andb_true_iff, !negb_true_iff.
  rewrite !bool_decide_eq_false. destruct l as [|c r]; simpl.
  - split; [by intros [? _]|by intros [? _]].
  - change (js "#") with [35%N]. split.
    + intros [_ Hc]. split; [done|]. rewrite take_0 in Hc. congruence.
    + intros [_ Hc]. split; [done|]. rewrite take_0. congruence.
Qed.

(** X16. Every pattern that [loadGitignore] hands to the ignore filter is
    non-empty, holds no newline, neither starts nor ends with white space
    (so a trailing carriage return of a CRLF file is gone) and does not start
    with [#]: blank lines and comment lines are dropped, the others trimmed. *)
Theorem gitignoreLines_clean text :
  Forall cleanPattern (gitignoreLines text).
Proof.
  apply Forall_forall. intros l Hl. unfold gitignoreLines in Hl.
  apply list_elem_of_filter in Hl as [Hkeep Hl].
  apply list_elem_of_fmap in Hl as (piece & -> & Hpiece).
  apply keepLine_spec in Hkeep as [Hne Hhash].
  split; [done|]. split; [|split].
  - intros Hin%trim_elem. revert Hin.
    eapply split_from_clean; [|exact Hpiece]. by intros ?%elem_of_nil.
  - intros c Hc. split; [by eapply trim_head|]. congruence.
  - intros c. apply trim_last.
Qed.

Lemma split_from_app_clean cur l s :
  newline ∉ l → split_from cur (l ++ s) = split_from (rev l ++ cur) s.
Proof.
  revert cur. induction l as [|c l IH]; intros cur Hl; [done|].
  rewrite not_elem_of_cons in Hl. destruct Hl as [Hc Hl].
  simpl. destruct (N.eqb_spec c newline) as [->|_]; [done|].
  rewrite IH by done. by rewrite <- app_assoc.
Qed.

Lemma split_join (lines : list jsstring) :
  lines ≠ [] → Forall (fun l => newline ∉ l) lines →
  split_newline (joinNewline lines) = lines.
Proof.
  unfold split_newline. induction lines as [|l [|l' rest] IH]; intros Hne Hclean.
  - done.
  - cbn [joinNewline]. rewrite <- (app_nil_r l) at 1.
    rewrite split_from_app_clean by (by inversion Hclean).
    simpl. by rewrite app_nil_r, rev_involutive.
  - cbn [joinNewline]. inversion Hclean as [|? ? Hl Hrest]; subst.
    rewrite split_from_app_clean by done. cbn [split_from].
    rewrite N.eqb_refl, app_nil_r, rev_involutive. f_equal.
    by apply IH.
Qed.

(** X17. A text made of clean patterns (non-empty, trimmed, not starting
    with [#]), one per line, is read back by [loadGitignore] as exactly
    these patterns, in their order. *)
Theorem gitignoreLines_clean_patterns (patterns : list jsstring) :
  patterns ≠ [] →
  Forall cleanPattern patterns →
  gitignoreLines (joinNewline patterns) = patterns.
Proof.
  intros Hne Hclean. unfold gitignoreLines.
  rewrite split_join; [|done|].
  2:{ eapply Forall_impl; [exact Hclean|]. by intros p (_ & ? & _). }
  clear Hne. induction Hclean as [|p ps (Hp & Hnl & Hhead & Hlast) _ IH]; [done|].
  rewrite fmap_cons.
  assert (Htrim : trim p = p).
  { apply trim_id; [intros c Hc; by apply Hhead|done]. }
  rewrite Htrim, filter_cons_True; [by rewrite IH|].
  apply keepLine_spec. split; [done|]. intros Hc. by destruct (Hhead _ Hc).
Qed.

End Gitignore.

(** ** The extension: diagnostics *)

Section Diagnostics.

Implicit Types (document : TextDocument) (finding v : Vulnerability).
Implicit Types (findings : list Vulnerability) (d : Diagnostic).

Lemma diagnosticsOf_omap document findings :
  diagnosticsOf document findings = omap (toDiagnostic document) findings.
Proof.
  unfold diagnosticsOf.
  assert (Hgen : ∀ acc,
    foldl (fun diagnostics finding =>
             match toDiagnostic document finding with
             | Some d => diagnostics ++ [d]
             | None => diagnostics
             end) acc findings
    = acc ++ omap (toDiagnostic document) findings).
  { induction findings as [|v findings IH]; intros acc; simpl.
    - by rewrite app_nil_r.
    - rewrite IH. destruct (toDiagnostic document v); [|done].
      by rewrite <- app_assoc. }
  apply (Hgen []).
Qed.

Lemma omap_step {A B} (f : A → option B) (a : A) (l : list A) :
  omap f (a :: l) = match f a with
                    | Some b => b :: omap f l
                    | None => omap f l
                    end.
Proof. reflexivity. Qed.

Lemma omap_length {A B} (f : A → option B) (l : list A) :
  (length (omap f l) ≤ length l)%nat.
Proof.
  induction l as [|a l IH]; [done|].
  rewrite omap_step. destruct (f a); simpl; lia.
Qed.

(** A finding is shown when its line, counted from 0, is a line of the
    document. *)
Lemma toDiagnostic_shown document finding :
  is_Some (toDiagnostic document finding)
  ↔ (line finding - 1 < documentLineCount document)%nat.
Proof.
  unfold toDiagnostic.
  replace (Z.to_nat (Z.max 0 (Z.of_nat (line finding) - 1)))
    with (line finding - 1)%nat by lia.
  destruct (Nat.leb_spec (documentLineCount document) (line finding - 1)).
  - split; [by intros [? ?]|lia].
  - split; [done|by eexists].
Qed.

(** X18. The diagnostics that [scanDocument] builds from the findings of a
    report: one for every finding whose line exists in the document, in the
    order of the findings, none for the others; each on a single line of the
    document, from character 0 to a character beyond it, carrying the rule
    id as its code; with severity Warning for ERROR and for WARNING findings
    and Information for INFO findings, so never Error. *)
Theorem diagnosticsOf_spec document findings :
  code <$> diagnosticsOf document findings
    = id <$> filter (fun v => (line v - 1 < documentLineCount document)%nat)
                    findings
  ∧ diagnosticSeverity <$> diagnosticsOf document findings
    = (fun v => if decide (severity v = INFO) then SeverityInformation
                else SeverityWarning)
        <$> filter (fun v => (line v - 1 < documentLineCount document)%nat)
                   findings
  ∧ Forall (fun d =>
              startLine (range d) = endLine (range d)
              ∧ (startLine (range d) < documentLineCount document)%nat
              ∧ startCharacter (range d) = 0%nat
              ∧ (0 < endCharacter (range d))%nat
              ∧ diagnosticSeverity d ≠ SeverityError)
           (diagnosticsOf document findings).
Proof.
  rewrite diagnosticsOf_omap.
  induction findings as [|v findings (IHcode & IHsev & IHall)]; [by repeat split|].
  rewrite omap_step, filter_cons.
  pose proof (toDiagnostic_shown document v) as Hshown.
  destruct (toDiagnostic document v) as [d|] eqn:Hd.
  - rewrite decide_True by (apply Hshown; by eexists).
    assert (Hline : (line v - 1 < documentLineCount document)%nat)
      by (apply Hshown; by eexists).
    unfold toDiagnostic in Hd.
    replace (Z.to_nat (Z.max 0 (Z.of_nat (line v) - 1)))
      with (line v - 1)%nat in Hd by lia.
    destruct (Nat.leb_spec (documentLineCount document) (line v - 1)); [lia|].
    injection Hd as <-.
    rewrite !fmap_cons. cbn [code diagnosticSeverity].
    split; [by rewrite IHcode|]. split.
    + rewrite IHsev. f_equal. destruct (severity v); reflexivity.
    + constructor; [|done]. cbn [range startLine endLine startCharacter endCharacter
                                 diagnosticSeverity].
      split; [done|]. split; [done|]. split; [done|]. split.
      * destruct (Nat.eqb_spec (length (lineAtText document (line v - 1))) 0); lia.
      * destruct (severity v); simpl; discriminate.
  - rewrite decide_False; [done|].
    intros Hline. apply Hshown in Hline as [? ?]. congruence.
Qed.

End Diagnostics.

Section ScanDocument.

Context `{Host} `{Workspace}.
Implicit Types (document : TextDocument).
Implicit Types (collection : gmap jsstring (list Diagnostic)).

Lemma runAudit_single_returns (f : WorkspaceFile) :
  ∃ report, runAudit [f] = Normal report.
Proof.
  destruct (runAudit_returns [f]) as (? & ? & ? & ? & ? & _ & _ & _ & _ & _ & Ha).
  eauto.
Qed.

(** X19. [scanDocument] never rejects.  It leaves the diagnostics of every
    other document as they are; a document whose uri is not a [file] uri is
    not touched at all and counts 0; for a [file] document the diagnostics it
    sets are never more than the number it returns. *)
Theorem scanDocument_frame document collection :
  ∃ count collection',
    scanDocument document collection = Normal (count, collection')
    ∧ 0 <= count
    ∧ (∀ u, u ≠ uriString document → collection' !! u = collection !! u)
    ∧ (uriScheme document ≠ js "file" → count = 0 ∧ collection' = collection)
    ∧ (uriScheme document = js "file" →
       ∃ diagnostics, collection' !! uriString document = Some diagnostics
                      ∧ Z.of_nat (length diagnostics) <= count).
Proof.
  unfold scanDocument.
  destruct (decide (uriScheme document = js "file")) as [Hfile|Hother].
  - rewrite bool_decide_eq_true_2 by done. cbn [negb].
    destruct (negb _ && _).
    + exists 0, (<[uriString document := []]> collection).
      split; [done|]. split; [done|]. split.
      { intros u Hu. by rewrite lookup_insert_ne. }
      split; [done|]. intros _. exists []. by rewrite lookup_insert_eq.
    + destruct (runAudit_single_returns
                  {| uri := uriString document; fsPath := uriFsPath document;
                     content := getText document |}) as (report & Hreport).
      rewrite Hreport.
      eexists _, _. split; [reflexivity|]. split; [lia|]. split.
      { intros u Hu. by rewrite lookup_insert_ne. }
      split; [done|]. intros _. eexists. rewrite lookup_insert_eq.
      split; [done|]. rewrite diagnosticsOf_omap.
      pose proof (omap_length (toDiagnostic document) (vulnerabilities report)).
      lia.
  - rewrite bool_decide_eq_false_2 by done.
    exists 0, collection. by repeat split.
Qed.

(** X20. For a [file] document with a relative path, an ignore filter that
    answers yes makes [scanDocument] clear the document's diagnostics and
    return 0 without auditing it.  A filter that throws, or an absolute path,
    never hides a document: it is audited, its diagnostics are those of the
    report, and the number of findings of the report is returned. *)
Theorem scanDocument_ignore document collection :
  uriScheme document = js "file" →
  (isAbsolutePath (asRelativePath document) (uriFsPath document) = false →
   ignores (asRelativePath document) = Normal true →
   scanDocument document collection
     = Normal (0, <[uriString document := []]> collection))
  ∧ (isAbsolutePath (asRelativePath document) (uriFsPath document) = true
     ∨ (∃ e, ignores (asRelativePath document) = Throw e)
     ∨ ignores (asRelativePath document) = Normal false →
     ∃ report,
       runAudit [{| uri := uriString document; fsPath := uriFsPath document;
                    content := getText document |}] = Normal report
       ∧ scanDocument document collection
           = Normal (Z.of_nat (length (vulnerabilities report)),
                     <[uriString document
                         := diagnosticsOf document (vulnerabilities report)]>
                       collection)).
Proof.
  intros Hfile. unfold scanDocument, skippedByIgnore.
  rewrite bool_decide_eq_true_2 by done. cbn [negb]. split.
  - intros -> ->. reflexivity.
  - intros Hscan.
    destruct (runAudit_single_returns
                {| uri := uriString document; fsPath := uriFsPath document;
                   content := getText document |}) as (report & Hreport).
    exists report. split; [done|].
    assert (negb (isAbsolutePath (asRelativePath document) (uriFsPath document))
            && match ignores (asRelativePath document) with
               | Normal b => b
               | Throw _ => false
               end = false) as ->.
    { destruct Hscan as [->|[(e & ->)| ->]]; [done|apply andb_false_r..]. }
    by rewrite Hreport.
Qed.

End ScanDocument.

(** ** The first extension: scanning by the rule table *)

Section ScanByRules.

Context `{Host} `{Workspace} `{RuleEngine}.
Implicit Types (document : TextDocument) (st : ScanState).
Implicit Types (out : list Diagnostic) (rule : VulnerabilityRule).

Lemma extendsBy_id : extendsBy (fun st => st) [].
Proof. intros [ds n]. simpl. f_equal; [by rewrite app_nil_r|lia]. Qed.

Lemma extendsBy_report r msg sev ruleCode :
  extendsBy (report r msg sev ruleCode)
            [{| range := r; message := msg; diagnosticSeverity := sev;
                code := ruleCode; source := js "ReadyOrNot" |}].
Proof. intros st. unfold report. f_equal. Qed.

Lemma extendsBy_compose (step1 step2 : ScanState → ScanState) out1 out2 :
  extendsBy step1 out1 → extendsBy step2 out2 →
  extendsBy (fun st => step2 (step1 st)) (out1 ++ out2).
Proof.
  intros Hs1 Hs2 st. rewrite Hs1, Hs2. cbn [diagnostics vulnerabilityCount].
  f_equal; [by rewrite app_assoc|]. rewrite length_app. lia.
Qed.

Lemma extendsBy_if (b : bool) (step : ScanState → ScanState) out :
  extendsBy step out →
  extendsBy (fun st => if b then step st else st) (if b then out else []).
Proof. destruct b; [done|]. intros _. apply extendsBy_id. Qed.

Lemma extendsBy_reportNode document node ruleCode :
  extendsBy (reportNode document node ruleCode)
            (option_list (ruleDiagnostic (nodeRange document node)
                            <$> findRule ruleCode)).
Proof.
  unfold reportNode. destruct (findRule ruleCode) as [rule|]; simpl.
  - apply extendsBy_report.
  - apply extendsBy_id.
Qed.

Lemma extended_nil st : extended st [] = st.
Proof. symmetry. exact (extendsBy_id st). Qed.

Lemma extended_app st out1 out2 :
  extended (extended st out1) out2 = extended st (out1 ++ out2).
Proof.
  unfold extended. cbn [diagnostics vulnerabilityCount].
  f_equal; [by rewrite app_assoc|]. rewrite length_app. lia.
Qed.

(** What a walk does with [stack] nested calls available: it throws exactly
    when the tree is deeper than that; what it pushed is then an initial
    part of what the whole walk pushes, and otherwise all of it. *)
Lemma visitDocument_walk document stack node st :
  ∃ r out,
    visitDocument document stack node st = (r, extended st out)
    ∧ out `prefix_of` (nodesOf node ≫= nodeDiagnostics document)
    ∧ ((depth node ≤ stack)%nat →
       r = Normal tt ∧ out = nodesOf node ≫= nodeDiagnostics document)
    ∧ ((stack < depth node)%nat → r = Throw RangeError).
Proof.
  revert stack st. induction node as [k pos kids IHkids] using Node_nested_ind.
  intros [|stack] st.
  { exists (Throw RangeError), []. cbn [visitDocument depth].
    rewrite extended_nil. split; [done|]. split; [apply prefix_nil|].
    split; [lia|done]. }
  cbn [visitDocument nodesOf depth]. rewrite bind_cons.
  unfold nodeDiagnostics at 1 3. cbn [kindOf].
  set (deepest := (fix deepest (l : list Node) : nat :=
                     match l with
                     | [] => O
                     | child :: rest => Nat.max (depth child) (deepest rest)
                     end)).
  set (all := (fix all (l : list Node) : list Node :=
                 match l with
                 | [] => []
                 | child :: rest => nodesOf child ++ all rest
                 end)).
  set (forEachChild :=
         (fix forEachChild (l : list Node) (st : ScanState)
            : Completion unit * ScanState :=
            match l with
            | [] => (Normal tt, st)
            | child :: rest =>
                match visitDocument document stack child st with
                | (Normal _, st) => forEachChild rest st
                | (Throw e, st) => (Throw e, st)
                end
            end)).
  assert (Hkids : ∀ st0, ∃ r out,
    forEachChild kids st0 = (r, extended st0 out)
    ∧ out `prefix_of` (all kids ≫= nodeDiagnostics document)
    ∧ ((deepest kids ≤ stack)%nat →
       r = Normal tt ∧ out = all kids ≫= nodeDiagnostics document)
    ∧ ((stack < deepest kids)%nat → r = Throw RangeError)).
  { induction IHkids as [|child kids Hchild _ IH]; intros st0.
    - exists (Normal tt), []. cbn [forEachChild all deepest].
      rewrite extended_nil. split; [done|]. split; [done|]. split; [done|lia].
    - cbn [forEachChild all deepest]. rewrite bind_app.
      destruct (Hchild stack st0) as (r1 & o1 & -> & P1 & A1 & B1).
      destruct (le_lt_dec (depth child) stack) as [Hle|Hlt].
      + destruct (A1 Hle) as (-> & ->).
        destruct (IH (extended st0 (nodesOf child ≫= nodeDiagnostics document)))
          as (r2 & o2 & -> & P2 & A2 & B2).
        exists r2, ((nodesOf child ≫= nodeDiagnostics document) ++ o2).
        rewrite extended_app. split; [done|]. split; [by apply prefix_app|].
        split.
        * intros Hd. destruct A2 as [-> ->]; [lia|]. done.
        * intros Hd. apply B2. lia.
      + rewrite (B1 Hlt). exists (Throw RangeError), o1.
        split; [done|]. split; [by apply prefix_app_r|]. split; [lia|done]. }
  pose proof (extendsBy_compose _ _ _ _
    (extendsBy_if (isEvalCall k) _ _
       (extendsBy_reportNode document (mkNode k pos kids) (js "eval-usage")))
    (extendsBy_if (isInnerHtmlAttribute k) _ _
       (extendsBy_reportNode document (mkNode k pos kids)
          (js "dangerously-set-inner-html"))) st) as Hown.
  cbv beta in Hown. rewrite Hown. clear Hown.
  match goal with
  | |- context [forEachChild kids ?st1] =>
      destruct (Hkids st1) as (r & out & -> & Pk & Ak & Bk)
  end.
  exists r. eexists. split.
  { f_equal. apply (extended_app st _ out). }
  rewrite <- !app_assoc. split; [by do 2 apply prefix_app|]. split.
  - intros Hd. destruct Ak as [-> ->]; [lia|]. done.
  - intros Hd. apply Bk. lia.
Qed.

Lemma extendsBy_foldl {A} (step : ScanState → A → ScanState)
    (out : A → list Diagnostic) (xs : list A) :
  (∀ x, extendsBy (fun st => step st x) (out x)) →
  extendsBy (fun st => foldl step st xs) (xs ≫= out).
Proof.
  intros Hstep. induction xs as [|x xs IH]; [apply extendsBy_id|].
  rewrite bind_cons.
  apply (extendsBy_compose (fun st => step st x) _ _ _ (Hstep x) IH).
Qed.

Lemma extendsBy_scanRule document ids rule :
  extendsBy (fun st => scanRule document ids st rule)
            (ruleDiagnostics document ids rule).
Proof.
  unfold scanRule, ruleDiagnostics. destruct (bool_decide _).
  - apply extendsBy_id.
  - intros st.
    pose proof (extendsBy_foldl
      (fun st m => report (matchRange document m) (ruleMessage rule)
                          (vscodeSeverity rule) (ruleId rule) st)
      (fun m => [ruleDiagnostic (matchRange document m) rule])
      (ruleExecAll (ruleId rule) (getText document))) as Hf.
    rewrite Hf by (intros m; apply extendsBy_report).
    do 3 f_equal; induction (ruleExecAll _ _) as [|m ms IH]; simpl; congruence.
Qed.

Lemma astStep_spec document st :
  ∃ astOut ids,
    astStep document st = (extended st astOut, ids)
    ∧ astOutcome document astOut ids.
Proof.
  unfold astStep, astOutcome.
  destruct (matchesExtension scriptExtensions (uriFsPath document)) eqn:Hext.
  - destruct (createSourceFile _ _) as [sf|e] eqn:Hparse.
    + destruct (visitDocument_walk document callStackSize sf st)
        as (r & out & -> & Hpre & Hin & Hover).
      destruct (le_lt_dec (depth sf) callStackSize) as [Hle|Hlt].
      * destruct (Hin Hle) as (-> & ->).
        exists (nodesOf sf ≫= nodeDiagnostics document),
          (∅ ∪ {[ js "eval-usage" ]} ∪ {[ js "dangerously-set-inner-html" ]}).
        split; [done|]. left. split; [done|]. by exists sf.
      * rewrite (Hover Hlt). exists out, ∅. split; [done|].
        right; left. split; [done|]. by exists sf.
    + exists [], ∅. rewrite extended_nil. split; [done|].
      do 2 right. split; [right; by exists e|done].
  - exists [], ∅. rewrite extended_nil. split; [done|].
    do 2 right. split; [by left|done].
Qed.

(** What a scanned document gets: the architecture diagnostics, those of the
    AST step, those of the loop over the table; and the count is their
    number. *)
Lemma scanText_parts document :
  ∃ archOut astOut ids,
    diagnostics (scanText document)
      = archOut ++ astOut
        ++ (vulnerabilityRules ≫= ruleDiagnostics document ids)
    ∧ vulnerabilityCount (scanText document)
      = Z.of_nat (length (diagnostics (scanText document)))
    ∧ Forall (fun d => code d ∈ [js "architecture-fragility";
                                 js "architecture-fragility-db"]
                       ∧ diagnosticSeverity d = SeverityWarning
                       ∧ source d = js "ReadyOrNot") archOut
    ∧ astOutcome document astOut ids.
Proof.
  unfold scanText.
  set (arch1 := report _ _ SeverityWarning (js "architecture-fragility")).
  set (arch2 := report _ _ SeverityWarning (js "architecture-fragility-db")).
  set (st0 := {| diagnostics := []; vulnerabilityCount := 0 |}).
  pose proof (extendsBy_compose _ _ _ _
    (extendsBy_if (1000 <? documentLineCount document)%nat arch1 _
       (extendsBy_report _ _ _ _))
    (extendsBy_if (matchesExtension componentExtensions (uriFsPath document)
                   && importsDatabaseClient (getText document)) arch2 _
       (extendsBy_report _ _ _ _)) st0) as Harch.
  cbv beta in Harch. rewrite Harch. clear Harch.
  set (archOut := (if (1000 <? documentLineCount document)%nat then _ else [])
                  ++ (if _ && _ then _ else [])).
  destruct (astStep_spec document
              {| diagnostics := diagnostics st0 ++ archOut;
                 vulnerabilityCount :=
                   vulnerabilityCount st0 + Z.of_nat (length archOut) |})
    as (astOut & ids & -> & Hcases).
  exists archOut, astOut, ids.
  rewrite (extendsBy_foldl (scanRule document ids) (ruleDiagnostics document ids)
             vulnerabilityRules (extendsBy_scanRule document ids)).
  unfold extended. cbn [diagnostics vulnerabilityCount st0 app].
  split; [by rewrite <- app_assoc|]. split.
  { rewrite !length_app. lia. }
  split; [|exact Hcases].
  subst archOut. apply Forall_app. split.
  - destruct (1000 <? _)%nat; repeat constructor.
  - destruct (_ && _); repeat constructor.
Qed.

Lemma scanDocumentByRules_scanned document collection :
  uriScheme document = js "file" →
  negb (isAbsolutePath (asRelativePath document) (uriFsPath document))
    && skippedByIgnore (asRelativePath document) = false →
  matchesExtension codeExtensions (uriFsPath document)
    || isEnvPath (uriFsPath document) = true →
  scanDocumentByRules document collection
    = (vulnerabilityCount (scanText document),
       <[uriString document := diagnostics (scanText document)]> collection).
Proof.
  intros Hfile Hkeep Hkind. unfold scanDocumentByRules.
  rewrite bool_decide_eq_true_2 by done. cbn [negb]. rewrite Hkeep.
  apply orb_true_iff in Hkind.
  destruct (matchesExtension codeExtensions _), (isEnvPath _); try done.
  by destruct Hkind.
Qed.

Lemma script_is_code path :
  matchesExtension scriptExtensions path = true →
  matchesExtension codeExtensions path = true.
Proof.
  unfold matchesExtension, scriptExtensions, codeExtensions. cbn [existsb].
  rewrite !orb_true_iff. tauto.
Qed.

Lemma findRule_eval : findRule (js "eval-usage") = Some evalRule.
Proof. vm_compute. reflexivity. Qed.

Lemma findRule_innerHtml :
  ∃ rule, findRule (js "dangerously-set-inner-html") = Some rule
          ∧ ruleId rule = js "dangerously-set-inner-html".
Proof. eexists. split; [vm_compute; reflexivity|reflexivity]. Qed.

Lemma eval_rule_in_table :
  filter (fun r => ruleId r = js "eval-usage") vulnerabilityRules = [evalRule].
Proof. vm_compute. reflexivity. Qed.

Lemma filter_code_nodes document (nodes : list Node) :
  filter (fun d => code d = js "eval-usage")
         (nodes ≫= nodeDiagnostics document)
  = (fun n => ruleDiagnostic (nodeRange document n) evalRule)
      <$> filter (fun n => isEvalCall (kindOf n) = true) nodes.
Proof.
  destruct findRule_innerHtml as (other & Hother & Hid).
  induction nodes as [|n nodes IH]; [done|].
  rewrite bind_cons, filter_app, IH, filter_cons. unfold nodeDiagnostics.
  rewrite filter_app, findRule_eval, Hother. cbn [fmap option_fmap option_map].
  repeat match goal with
         | |- context [option_list (Some ?a)] =>
             change (option_list (Some a)) with [a]
         end.
  assert (Hinner : filter (fun d => code d = js "eval-usage")
            (if isInnerHtmlAttribute (kindOf n)
             then [ruleDiagnostic (nodeRange document n) other] else []) = []).
  { destruct (isInnerHtmlAttribute _); [|done].
    apply filter_none. repeat constructor. cbn [code ruleDiagnostic].
    rewrite Hid. intros Heq. vm_compute in Heq. discriminate Heq. }
  rewrite Hinner, app_nil_r.
  destruct (isEvalCall (kindOf n)) eqn:Hcall.
  - rewrite decide_True by done. by rewrite filter_cons_True.
  - by rewrite decide_False.
Qed.

Lemma filter_code_rules document (ids : gset jsstring) (ruleCode : jsstring)
    (rules : list VulnerabilityRule) :
  filter (fun d => code d = ruleCode) (rules ≫= ruleDiagnostics document ids)
  = filter (fun r => ruleId r = ruleCode ∧ ruleId r ∉ ids) rules
      ≫= fun r => (fun m => ruleDiagnostic (matchRange document m) r)
                    <$> ruleExecAll (ruleId r) (getText document).
Proof.
  induction rules as [|r rules IH]; [done|].
  rewrite bind_cons, filter_app, IH, filter_cons. unfold ruleDiagnostics at 1.
  destruct (decide (ruleId r ∈ ids)) as [Hin|Hnin].
  - rewrite bool_decide_eq_true_2 by done.
    rewrite decide_False by (intros [_ ?]; done). done.
  - rewrite bool_decide_eq_false_2 by done.
    destruct (decide (ruleId r = ruleCode)) as [Heq|Hne].
    + rewrite decide_True by done. rewrite bind_cons. f_equal.
      apply filter_all, Forall_fmap, Forall_forall. by intros m _.
    + rewrite decide_False by (intros [? _]; done).
      rewrite filter_none; [done|].
      apply Forall_fmap, Forall_forall. by intros m _.
Qed.

Lemma filter_code_architecture (archOut : list Diagnostic) :
  Forall (fun d => code d ∈ [js "architecture-fragility";
                             js "architecture-fragility-db"]
                   ∧ diagnosticSeverity d = SeverityWarning
                   ∧ source d = js "ReadyOrNot") archOut →
  filter (fun d => code d = js "eval-usage") archOut = [].
Proof.
  intros Harch. apply filter_none. eapply Forall_impl; [exact Harch|].
  intros d (Hcode & _) Heq. rewrite Heq in Hcode.
  rewrite !elem_of_cons, elem_of_nil in Hcode.
  destruct Hcode as [Hc|[Hc|[]]]; vm_compute in Hc; discriminate Hc.
Qed.

(** X21. The number that this [scanDocument] returns is the number of
    diagnostics it sets for the document.  It leaves the collection as it is
    (and returns 0) when the uri is no [file] uri, and also when the path is
    neither a code file nor an env file; it never changes the diagnostics of
    another document. *)
Theorem scanDocumentByRules_count document collection :
  (∀ u, u ≠ uriString document →
        (scanDocumentByRules document collection).2 !! u = collection !! u)
  ∧ (((scanDocumentByRules document collection).1 = 0
      ∧ (scanDocumentByRules document collection).2 = collection)
     ∨ ∃ ds, (scanDocumentByRules document collection).2
               = <[uriString document := ds]> collection
             ∧ (scanDocumentByRules document collection).1
               = Z.of_nat (length ds))
  ∧ (uriScheme document ≠ js "file" →
     scanDocumentByRules document collection = (0, collection))
  ∧ (negb (isAbsolutePath (asRelativePath document) (uriFsPath document))
       && skippedByIgnore (asRelativePath document) = false →
     matchesExtension codeExtensions (uriFsPath document) = false →
     isEnvPath (uriFsPath document) = false →
     scanDocumentByRules document collection = (0, collection)).
Proof.
  destruct (scanText_parts document) as (? & ? & ? & _ & Hcount & _).
  unfold scanDocumentByRules.
  destruct (decide (uriScheme document = js "file")) as [Hfile|Hother].
  2:{ rewrite bool_decide_eq_false_2 by done. cbn [negb fst snd].
      repeat split; auto. }
  rewrite bool_decide_eq_true_2 by done. cbn [negb].
  destruct (negb _ && skippedByIgnore _) eqn:Hskip.
  { cbn [fst snd]. split; [intros u Hu; by rewrite lookup_insert_ne|].
    split; [right; by exists []|]. split; [done|]. discriminate. }
  destruct (matchesExtension codeExtensions _) eqn:Hcode;
    destruct (isEnvPath _) eqn:Henv; cbn [negb andb fst snd];
    (split; [intros u Hu; by rewrite ?lookup_insert_ne|]);
    (split; [first [right; eexists; split; [reflexivity|exact Hcount]
                   | left; by split]|]);
    (split; [done|]); intros; first [done|discriminate].
Qed.

(** X22. For a script that parses into a tree no deeper than the call
    stack lets the visitor descend, the AST result wins: the diagnostics of
    rule [eval-usage] that this [scanDocument] sets are exactly one per call
    of [eval] in the tree, over the range of the call, with the message and
    severity of the table entry.  The textual pattern of the rule is skipped,
    so a match of it adds nothing. *)
Theorem scanDocumentByRules_structural_eval document collection sf :
  uriScheme document = js "file" →
  negb (isAbsolutePath (asRelativePath document) (uriFsPath document))
    && skippedByIgnore (asRelativePath document) = false →
  matchesExtension scriptExtensions (uriFsPath document) = true →
  createSourceFile (uriFsPath document) (getText document) = Normal sf →
  (depth sf ≤ callStackSize)%nat →
  ∃ ds,
    (scanDocumentByRules document collection).2 !! uriString document = Some ds
    ∧ filter (fun d => code d = js "eval-usage") ds
      = (fun call => ruleDiagnostic (nodeRange document call) evalRule)
          <$> filter (fun n => isEvalCall (kindOf n) = true) (nodesOf sf).
Proof.
  intros Hfile Hkeep Hext Hparse Hdepth.
  rewrite (scanDocumentByRules_scanned document collection Hfile Hkeep)
    by (by rewrite (script_is_code _ Hext)).
  cbn [snd]. eexists. split; [apply lookup_insert_eq|].
  destruct (scanText_parts document) as (archOut & astOut & ids & -> & _ & Harch & Hcases).
  destruct Hcases as [(_ & sf' & Hparse' & _ & -> & ->)
                     |[(_ & sf' & Hparse' & Hdeep & _)|([Hno|(e & He)] & _)]];
    [|assert (sf' = sf) as -> by congruence; lia|congruence..].
  assert (sf' = sf) as -> by congruence.
  rewrite !filter_app, (filter_code_architecture _ Harch), filter_code_nodes,
    filter_code_rules.
  rewrite (filter_none (fun r => _ ∧ _)), app_nil_r; [done|].
  apply Forall_forall. intros r _ [-> Hnot]. apply Hnot.
  apply elem_of_union. left. apply elem_of_union. right.
  by apply elem_of_singleton.
Qed.

(** X23. When the parser throws on a script, or the file is no script, the
    textual pattern is the fallback: the diagnostics of rule [eval-usage]
    are exactly one per match of the pattern of the table entry, over the
    range of the match. *)
Theorem scanDocumentByRules_textual_eval document collection :
  uriScheme document = js "file" →
  negb (isAbsolutePath (asRelativePath document) (uriFsPath document))
    && skippedByIgnore (asRelativePath document) = false →
  matchesExtension codeExtensions (uriFsPath document)
    || isEnvPath (uriFsPath document) = true →
  matchesExtension scriptExtensions (uriFsPath document) = false
  ∨ (∃ e, createSourceFile (uriFsPath document) (getText document) = Throw e) →
  ∃ ds,
    (scanDocumentByRules document collection).2 !! uriString document = Some ds
    ∧ filter (fun d => code d = js "eval-usage") ds
      = (fun m => ruleDiagnostic (matchRange document m) evalRule)
          <$> ruleExecAll (js "eval-usage") (getText document).
Proof.
  intros Hfile Hkeep Hkind Hfallback.
  rewrite (scanDocumentByRules_scanned document collection Hfile Hkeep Hkind).
  cbn [snd]. eexists. split; [apply lookup_insert_eq|].
  destruct (scanText_parts document) as (archOut & astOut & ids & -> & _ & Harch & Hcases).
  destruct Hcases as [(Hext & sf & Hparse & _)
                     |[(Hext & sf & Hparse & _)|(_ & -> & ->)]].
  { destruct Hfallback as [?|(e & ?)]; congruence. }
  { destruct Hfallback as [?|(e & ?)]; congruence. }
  rewrite !filter_app, (filter_code_architecture _ Harch), filter_code_rules.
  cbn [app filter list_filter].
  rewrite (list_filter_iff _ (fun r => ruleId r = js "eval-usage")).
  - rewrite eval_rule_in_table. cbn [mbind list_bind]. by rewrite app_nil_r.
  - intros r. split; [by intros [? _]|]. intros ?. split; [done|].
    apply not_elem_of_empty.
Qed.

Lemma table_severities :
  Forall (fun r => vscodeSeverity r = SeverityWarning
                   ∨ vscodeSeverity r = SeverityInformation) vulnerabilityRules.
Proof.
  unfold vulnerabilityRules.
  repeat (apply Forall_cons; split; [first [by left|by right]|]). constructor.
Qed.

Lemma findRule_in_table ruleCode rule :
  findRule ruleCode = Some rule → rule ∈ vulnerabilityRules.
Proof.
  unfold findRule. intros Hfind. apply find_some in Hfind as [Hin _].
  by apply list_elem_of_In.
Qed.

(** X24. Every diagnostic that this [scanDocument] sets for a scanned
    document has the source [ReadyOrNot], a severity of Warning or
    Information (never Error, whatever label the table displays), and a code
    that is the id of a table rule or one of the two architecture codes. *)
Theorem scanDocumentByRules_diagnostics document collection :
  uriScheme document = js "file" →
  negb (isAbsolutePath (asRelativePath document) (uriFsPath document))
    && skippedByIgnore (asRelativePath document) = false →
  matchesExtension codeExtensions (uriFsPath document)
    || isEnvPath (uriFsPath document) = true →
  ∃ ds,
    (scanDocumentByRules document collection).2 !! uriString document = Some ds
    ∧ Forall (fun d =>
                source d = js "ReadyOrNot"
                ∧ (diagnosticSeverity d = SeverityWarning
                   ∨ diagnosticSeverity d = SeverityInformation)
                ∧ code d ∈ (ruleId <$> vulnerabilityRules)
                           ++ [js "architecture-fragility";
                               js "architecture-fragility-db"]) ds.
Proof.
  intros Hfile Hkeep Hkind.
  rewrite (scanDocumentByRules_scanned document collection Hfile Hkeep Hkind).
  cbn [snd]. eexists. split; [apply lookup_insert_eq|].
  pose proof table_severities as Hsev. rewrite Forall_forall in Hsev.
  assert (Hrule : ∀ r rule, rule ∈ vulnerabilityRules →
    source (ruleDiagnostic r rule) = js "ReadyOrNot"
    ∧ (diagnosticSeverity (ruleDiagnostic r rule) = SeverityWarning
       ∨ diagnosticSeverity (ruleDiagnostic r rule) = SeverityInformation)
    ∧ code (ruleDiagnostic r rule)
        ∈ (ruleId <$> vulnerabilityRules)
          ++ [js "architecture-fragility"; js "architecture-fragility-db"]).
  { intros r rule Hin. split; [done|]. split; [by apply Hsev|].
    apply elem_of_app. left. change (code (ruleDiagnostic r rule)) with (ruleId rule).
    by apply list_elem_of_fmap_2. }
  destruct (scanText_parts document)
    as (archOut & astOut & ids & -> & _ & Harch & Hcases).
  match goal with |- Forall ?P _ => set (good := P) end.
  assert (Hnodes : ∀ sf, Forall good (nodesOf sf ≫= nodeDiagnostics document)).
  { intros sf. subst good.
    apply Forall_bind, Forall_forall. intros n _. unfold nodeDiagnostics.
    apply Forall_app. split.
    + destruct (isEvalCall _); [|constructor].
      destruct (findRule (js "eval-usage")) as [rule|] eqn:Hf; [|constructor].
      apply Forall_singleton. apply Hrule. by eapply findRule_in_table.
    + destruct (isInnerHtmlAttribute _); [|constructor].
      destruct (findRule (js "dangerously-set-inner-html")) as [rule|] eqn:Hf;
        [|constructor].
      apply Forall_singleton. apply Hrule. by eapply findRule_in_table. }
  apply Forall_app. split; [|apply Forall_app; split]; subst good.
  - eapply Forall_impl; [exact Harch|]. intros d (Hcode & -> & ->).
    split; [done|]. split; [by left|]. apply elem_of_app. by right.
  - destruct Hcases as [(_ & sf & _ & _ & -> & _)
                       |[(_ & sf & _ & _ & Hpart & _)|(_ & -> & _)]];
      [apply Hnodes|exact (Forall_prefix _ _ _ Hpart (Hnodes sf))|constructor].
  - apply Forall_bind, Forall_forall. intros rule Hin.
    unfold compose, ruleDiagnostics.
    destruct (bool_decide (ruleId rule ∈ ids)); [apply Forall_nil_2|].
    apply Forall_fmap, Forall_forall. intros m _. by apply Hrule.
Qed.

(** X25. When the visitor exhausts the call stack on a script that parsed,
    the diagnostics it pushed before stay, and the two rule ids are not
    marked as reported: the textual pattern of [eval-usage] is then applied
    as well.  The diagnostics of the rule are those of the calls of [eval]
    reached before the overflow, an initial part of those of the whole tree,
    followed by one per match of the pattern; a call reached by the visitor
    and matched by the pattern is reported twice. *)
Theorem scanDocumentByRules_overflow_eval document collection sf :
  uriScheme document = js "file" →
  negb (isAbsolutePath (asRelativePath document) (uriFsPath document))
    && skippedByIgnore (asRelativePath document) = false →
  matchesExtension scriptExtensions (uriFsPath document) = true →
  createSourceFile (uriFsPath document) (getText document) = Normal sf →
  (callStackSize < depth sf)%nat →
  ∃ ds structural,
    (scanDocumentByRules document collection).2 !! uriString document = Some ds
    ∧ structural
        `prefix_of` ((fun call => ruleDiagnostic (nodeRange document call) evalRule)
                       <$> filter (fun n => isEvalCall (kindOf n) = true)
                                  (nodesOf sf))
    ∧ filter (fun d => code d = js "eval-usage") ds
      = structural
        ++ ((fun m => ruleDiagnostic (matchRange document m) evalRule)
              <$> ruleExecAll (js "eval-usage") (getText document)).
Proof.
  intros Hfile Hkeep Hext Hparse Hdeep.
  rewrite (scanDocumentByRules_scanned document collection Hfile Hkeep)
    by (by rewrite (script_is_code _ Hext)).
  cbn [snd].
  destruct (scanText_parts document) as (archOut & astOut & ids & Hds & _ & Harch & Hcases).
  destruct Hcases as [(_ & sf' & Hparse' & Hin & _)
                     |[(_ & sf' & Hparse' & _ & Hpart & ->)|([Hno|(e & He)] & _)]];
    [assert (sf' = sf) as -> by congruence; lia| |congruence..].
  assert (sf' = sf) as -> by congruence.
  exists (diagnostics (scanText document)),
    (filter (fun d => code d = js "eval-usage") astOut).
  split; [apply lookup_insert_eq|]. split.
  - destruct Hpart as [rest Hrest]. exists (filter (fun d => code d = js "eval-usage") rest).
    by rewrite <- filter_code_nodes, Hrest, filter_app.
  - rewrite Hds, !filter_app, (filter_code_architecture _ Harch), filter_code_rules.
    cbn [app]. f_equal.
    rewrite (list_filter_iff _ (fun r => ruleId r = js "eval-usage")).
    + rewrite eval_rule_in_table. cbn [mbind list_bind]. by rewrite app_nil_r.
    + intros r. split; [by intros [? _]|]. intros ?. split; [done|].
      apply not_elem_of_empty.
Qed.

End ScanByRules.

(** ** The further statements on the sample workspace *)

Lemma runScoringAgent_order_independent_witness :
  scoreDetails (runScoringAgent [] (sixWarnings ++ sampleFindings))
  = scoreDetails (runScoringAgent [] (sampleFindings ++ sixWarnings)).
Proof.
  apply (runScoringAgent_order_independent [] (sixWarnings ++ sampleFindings)
           (sampleFindings ++ sixWarnings)).
  apply Permutation_app_comm.
Defined.

Lemma lineOfOffset_within_line_witness : lineOfOffset sampleSource 50 = 3%nat.
Proof.
  apply (lineOfOffset_within_line sampleSource 3 44 50).
  - reflexivity.
  - lia.
  - intros k Hk Hnl.
    assert (Hin : newline ∈ take 6 (drop 44 sampleSource)).
    { apply list_elem_of_lookup. exists (k - 44)%nat.
      rewrite lookup_take_lt by lia. rewrite lookup_drop.
      by replace (44 + (k - 44))%nat with k by lia. }
    apply (bool_decide_pack _) in Hin. vm_compute in Hin. exact Hin.
Defined.

Lemma runSecurityAgent_script_witness :
  @runSecurityAgent sampleHost [sampleFile]
  = Normal [ evalFinding (js "/app/main.ts") 1;
             secretFinding (js "/app/main.ts") 2 ].
Proof.
  destruct (@runSecurityAgent_script sampleHost [] sampleFile [] sampleTree)
    as (before & after & structural & Hpre & Hpost & Hall & _).
  - reflexivity.
  - reflexivity.
  - reflexivity.
Defined.

Lemma runAudit_no_structural_finding_witness :
  ∃ report,
    @runAudit sampleHost [notesFile; sampleFile] = Normal report
    ∧ ∀ v, v ∈ vulnerabilities report → file v = js "/app/notes.md" →
           id v ∉ structuralRules.
Proof.
  apply (@runAudit_no_structural_finding sampleHost [notesFile; sampleFile]
           (js "/app/notes.md")).
  reflexivity.
Defined.

Lemma runSecurityAgent_other_file_witness :
  @runSecurityAgent sampleHost [notesFile]
  = Normal [secretFinding (js "/app/notes.md") 1].
Proof.
  destruct (@runSecurityAgent_other_file sampleHost [] notesFile [])
    as (before & after & Hpre & Hpost & Hall).
  - reflexivity.
  - reflexivity.
Defined.

Lemma runDependencyAgent_manifest_witness :
  @runDependencyAgent sampleHost [goodManifestFile]
  = Normal [ blacklistedFinding (js "/lib/package.json") (js "request");
             blacklistedFinding (js "/lib/package.json") (js "left-pad") ].
Proof.
  destruct (@runDependencyAgent_manifest sampleHost [] goodManifestFile []
              sampleManifest)
    as (before & after & names & Hpre & Hpost & Hall & _).
  - reflexivity.
  - reflexivity.
  - discriminate.
  - discriminate.
  - reflexivity.
Defined.

Lemma runAudit_no_prompt_finding_for_components_witness :
  ∃ report,
    @runAudit sampleHost [componentFile; sampleFile] = Normal report
    ∧ ∀ v, v ∈ vulnerabilities report → file v = js "/app/View.tsx" →
           id v ≠ js "ai-prompt-injection".
Proof.
  apply (@runAudit_no_prompt_finding_for_components sampleHost
           [componentFile; sampleFile] (js "/app/View.tsx")).
  reflexivity.
Defined.

Lemma gitignoreLines_clean_patterns_witness :
  gitignoreLines (js "node_modules" ++ [newline] ++ js "*.log")
  = [js "node_modules"; js "*.log"].
Proof.
  apply (gitignoreLines_clean_patterns [js "node_modules"; js "*.log"]).
  - discriminate.
  - assert (Hclean : ∀ p, p = js "node_modules" ∨ p = js "*.log" →
                           cleanPattern p).
    { intros p [-> | ->];
        (split; [discriminate|];
         split; [apply (bool_decide_unpack _); vm_compute; exact I|];
         split; intros c Hc; vm_compute in Hc; injection Hc as <-;
         [split; [reflexivity|discriminate]|reflexivity]). }
    constructor; [apply Hclean; by left|].
    constructor; [apply Hclean; by right|]. constructor.
Defined.

Lemma scanDocument_ignore_witness :
  ∃ collection,
    @scanDocument sampleHost sampleWorkspace sampleDocument ∅
    = Normal (3, collection).
Proof.
  destruct (@scanDocument_ignore sampleHost sampleWorkspace sampleDocument ∅)
    as [_ Hscan]; [reflexivity|].
  destruct Hscan as (report & Hreport & Hresult); [right; right; reflexivity|].
  rewrite Hresult. vm_compute in Hreport. injection Hreport as <-.
  eexists. reflexivity.
Defined.

Lemma scanDocumentByRules_structural_eval_witness :
  ∃ ds,
    (@scanDocumentByRules sampleHost sampleWorkspace sampleEngine
       sampleDocument ∅).2 !! uriString sampleDocument = Some ds
    ∧ length (filter (fun d => code d = js "eval-usage") ds) = 1%nat.
Proof.
  destruct (@scanDocumentByRules_structural_eval sampleHost sampleWorkspace
              sampleEngine sampleDocument ∅ sampleTree)
    as (ds & Hds & Heval);
    [reflexivity|reflexivity|reflexivity|reflexivity
    |apply Nat.leb_le; reflexivity|].
  exists ds. split; [exact Hds|]. rewrite Heval. reflexivity.
Defined.

Lemma scanDocumentByRules_textual_eval_witness :
  ∃ ds,
    (@scanDocumentByRules sampleHost sampleWorkspace sampleEngine
       (documentOf scriptFile) ∅).2 !! uriString (documentOf scriptFile)
    = Some ds
    ∧ length (filter (fun d => code d = js "eval-usage") ds) = 1%nat.
Proof.
  destruct (@scanDocumentByRules_textual_eval sampleHost sampleWorkspace
              sampleEngine (documentOf scriptFile) ∅)
    as (ds & Hds & Heval); [reflexivity|reflexivity|reflexivity|by left|].
  exists ds. split; [exact Hds|]. rewrite Heval. reflexivity.
Defined.

Lemma scanDocumentByRules_diagnostics_witness :
  ∃ ds,
    (@scanDocumentByRules sampleHost sampleWorkspace sampleEngine
       sampleDocument ∅).2 !! uriString sampleDocument = Some ds
    ∧ Forall (fun d => source d = js "ReadyOrNot") ds.
Proof.
  destruct (@scanDocumentByRules_diagnostics sampleHost sampleWorkspace
              sampleEngine sampleDocument ∅)
    as (ds & Hds & Hall); [reflexivity..|].
  exists ds. split; [exact Hds|].
  eapply Forall_impl; [exact Hall|]. by intros d (? & _).
Defined.

Lemma scanDocumentByRules_overflow_eval_witness :
  evalCalls twiceTree = 2%nat
  ∧ ∃ ds,
      (@scanDocumentByRules sampleHost sampleWorkspace sampleEngine
         (documentOf twiceFile) ∅).2 !! uriString (documentOf twiceFile)
      = Some ds
      ∧ length (filter (fun d => code d = js "eval-usage") ds) = 3%nat.
Proof.
  split; [vm_compute; reflexivity|].
  destruct (@scanDocumentByRules_overflow_eval sampleHost sampleWorkspace
              sampleEngine (documentOf twiceFile) ∅ twiceTree)
    as (ds & structural & Hds & _ & Heval).
  - reflexivity.
  - reflexivity.
  - reflexivity.
  - lazy - [twiceTree]. reflexivity.
  - apply Nat.ltb_lt. vm_compute. reflexivity.
  - exists ds. split; [exact Hds|].
    rewrite (@scanDocumentByRules_scanned sampleHost sampleWorkspace sampleEngine
               (documentOf twiceFile) ∅) in Hds by reflexivity.
    cbn [snd] in Hds. rewrite lookup_insert_eq in Hds.
    apply (inj Some) in Hds. rewrite <- Hds. vm_compute. reflexivity.
Defined.
